(** * swiplserver: the client side of the SWI-Prolog language server

    A shallow embedding of [swiplserver/prologserver.py] and the properties
    of its term model, its framed transport, its reply classifier and its
    shutdown paths.

    Conventions of the embedding:
    - a Python [str] is a list of Unicode code points ([N]); a [bytes] or
      [bytearray] is a list of [byte];
    - a Python call either returns, raises, or is still running when the
      step budget given to it is used up ([outcome]);
    - methods that mutate [self], the server they hold or the socket are
      state transformers over [machine]; the peer, the launched process
      and the operating system are scripts in that state.

    Logging, the reader threads of the process output, the text of the
    launch arguments and finalizers ([__del__]) are left out. *)

From Stdlib Require Import ZArith NArith Lia List Bool.
From Stdlib Require Import Strings.String Strings.Ascii Strings.Byte.
From stdpp Require Import base tactics option list numbers countable gmap.

Set Warnings "-register-all".
Local Open Scope N_scope.

(** ** Text and bytes *)

Definition codepoint := N.
Definition str := list codepoint.
Definition bytes := list byte.

(** An ASCII literal as a Python [str]. *)
Definition py (s : string) : str := map N_of_ascii (list_ascii_of_string s).

Definition LF : codepoint := 10.
Definition DOT : codepoint := 46.
Definition UNDERSCORE : codepoint := 95.
Definition QUOTE : codepoint := 39.

Definition str_eqb (a b : str) : bool := bool_decide (a = b).

(** [", ".join(parts)] and friends. *)
Fixpoint join (sep : str) (parts : list str) : str :=
  match parts with
  | [] => []
  | [p] => p
  | p :: rest => p ++ sep ++ join sep rest
  end.

(** *** Character classes

    [str.isspace] is a short closed list and is written out.  [isalpha],
    [isupper] and the numeric classes behind [isalnum] consult the Unicode
    character database: the ASCII block is fixed here, the tables for the
    code points above U+007F are an interface of the interpreter. *)

Definition between (lo hi c : N) : bool := (lo <=? c) && (c <=? hi).

Definition isspace (c : codepoint) : bool :=
  between 9 13 c || between 28 32 c || (c =? 133) || (c =? 160)
  || (c =? 5760) || between 8192 8202 c || (c =? 8232) || (c =? 8233)
  || (c =? 8239) || (c =? 8287) || (c =? 12288).

Class UnicodeData := {
  ucd_alpha : codepoint -> bool;
  ucd_upper : codepoint -> bool;
  ucd_numeric : codepoint -> bool
}.

Section CharacterClasses.
Context `{UnicodeData}.

Definition isascii (c : codepoint) : bool := c <? 128.

(** [c.isupper()] for a one-character string. *)
Definition isupper (c : codepoint) : bool :=
  if isascii c then between 65 90 c else ucd_upper c.

(** [c.isalpha()] for a one-character string. *)
Definition isalpha (c : codepoint) : bool :=
  if isascii c then between 65 90 c || between 97 122 c else ucd_alpha c.

(** [c.isdecimal() or c.isdigit() or c.isnumeric()]. *)
Definition isnumeric (c : codepoint) : bool :=
  if isascii c then between 48 57 c else ucd_numeric c.

Definition isalnum (c : codepoint) : bool := isalpha c || isnumeric c.

(** [s.isalnum()]: every character is alphanumeric and there is at least
    one character. *)
Definition str_isalnum (s : str) : bool :=
  match s with
  | [] => false
  | _ => forallb isalnum s
  end.
End CharacterClasses.

(** The interpreter seen from the C locale: no code point above U+007F is
    classified.  Results on ASCII text do not depend on the tables. *)
Definition ascii_only : UnicodeData :=
  {| ucd_alpha := fun _ => false;
     ucd_upper := fun _ => false;
     ucd_numeric := fun _ => false |}.

(** *** strip, rstrip, translate *)

Fixpoint lstrip_by (p : codepoint -> bool) (s : str) : str :=
  match s with
  | [] => []
  | c :: rest => if p c then lstrip_by p rest else s
  end.

Definition rstrip_by (p : codepoint -> bool) (s : str) : str :=
  reverse (lstrip_by p (reverse s)).

(** [s.strip()] *)
Definition strip (s : str) : str := rstrip_by isspace (lstrip_by isspace s).

Definition in_chars (chars : str) (c : codepoint) : bool :=
  existsb (N.eqb c) chars.

(** [s.rstrip(chars)] *)
Definition rstrip (chars : str) (s : str) : str := rstrip_by (in_chars chars) s.

(** [s.translate({ord(c): '' for c in chars})] *)
Definition translate_delete (chars : str) (s : str) : str :=
  List.filter (fun c => negb (in_chars chars c)) s.

(** *** Decimal numerals: [str(n)] and [int(s)] *)

Fixpoint digits_from (fuel : nat) (n : N) (acc : str) : str :=
  match fuel with
  | O => acc
  | S fuel' =>
      let acc' := (48 + n mod 10) :: acc in
      if n <? 10 then acc' else digits_from fuel' (n / 10) acc'
  end.

(** [str(n)] for a non-negative integer. *)
Definition str_of_N (n : N) : str :=
  digits_from (S (N.to_nat (N.log2 n))) n [].

(** [str(z)] for an integer. *)
Definition str_of_Z (z : Z) : str :=
  match z with
  | Zneg p => 45 :: str_of_N (Npos p)
  | _ => str_of_N (Z.to_N z)
  end.

Definition isdigit (c : codepoint) : bool := between 48 57 c.

Definition digit_step (acc : N) (c : codepoint) : N := 10 * acc + (c - 48).

(** Digits with single underscores between them, as [int] accepts. *)
Fixpoint int_digits (s : str) (acc : N) (after_digit : bool) : option N :=
  match s with
  | [] => if after_digit then Some acc else None
  | c :: rest =>
      if isdigit c then int_digits rest (digit_step acc c) true
      else if (c =? UNDERSCORE) && after_digit then int_digits rest acc false
      else None
  end.

(** The blanks [int] skips around a number: the whitespace of
    [str.isspace] without the separators U+001C to U+001F, which [int]
    does not skip. *)
Definition int_space (c : codepoint) : bool :=
  isspace c && negb (between 28 31 c).

(** [int(s)], base ten; [None] stands for [ValueError].  Surrounding
    blanks and one sign are accepted.  Only the ASCII digits are
    recognised, which are all the decimal digits below U+0100. *)
Definition int_of_str (s : str) : option Z :=
  match rstrip_by int_space (lstrip_by int_space s) with
  | 43 :: digits => Z.of_N <$> int_digits digits 0 false
  | 45 :: digits => (fun n => Z.opp (Z.of_N n)) <$> int_digits digits 0 false
  | digits => Z.of_N <$> int_digits digits 0 false
  end.

(** *** UTF-8 *)

Definition byte_of (n : N) : byte :=
  match Byte.of_N n with
  | Some b => b
  | None => x00
  end.

Definition is_surrogate (c : codepoint) : bool := between 55296 57343 c.

(** A code point that [encode] accepts. *)
Definition is_scalar (c : codepoint) : bool :=
  (c <? 1114112) && negb (is_surrogate c).

Definition utf8_encode_codepoint (c : codepoint) : bytes :=
  if c <? 128 then [byte_of c]
  else if c <? 2048 then
    [byte_of (192 + c / 64); byte_of (128 + c mod 64)]
  else if c <? 65536 then
    [byte_of (224 + c / 4096); byte_of (128 + (c / 64) mod 64);
     byte_of (128 + c mod 64)]
  else
    [byte_of (240 + c / 262144); byte_of (128 + (c / 4096) mod 64);
     byte_of (128 + (c / 64) mod 64); byte_of (128 + c mod 64)].

(** [s.encode("utf-8")]; [None] stands for [UnicodeEncodeError], raised for
    a lone surrogate. *)
Fixpoint utf8_encode (s : str) : option bytes :=
  match s with
  | [] => Some []
  | c :: rest =>
      if is_scalar c
      then (fun tail => utf8_encode_codepoint c ++ tail) <$> utf8_encode rest
      else None
  end.

Definition continuation (b : byte) : option N :=
  let n := Byte.to_N b in
  if between 128 191 n then Some (n - 128) else None.

(** [b.decode("utf-8")], strict; [None] stands for [UnicodeDecodeError].
    Overlong forms, surrogates and values above U+10FFFF are rejected. *)
Fixpoint utf8_decode_from (fuel : nat) (b : bytes) : option str :=
  match fuel with
  | O => match b with [] => Some [] | _ => None end
  | S fuel' =>
      match b with
      | [] => Some []
      | b0 :: rest =>
          let n0 := Byte.to_N b0 in
          if n0 <? 128 then cons n0 <$> utf8_decode_from fuel' rest
          else if between 194 223 n0 then
            match rest with
            | b1 :: rest' =>
                match continuation b1 with
                | Some c1 =>
                    cons ((n0 - 192) * 64 + c1) <$> utf8_decode_from fuel' rest'
                | None => None
                end
            | _ => None
            end
          else if between 224 239 n0 then
            match rest with
            | b1 :: b2 :: rest' =>
                match continuation b1, continuation b2 with
                | Some c1, Some c2 =>
                    let c := (n0 - 224) * 4096 + c1 * 64 + c2 in
                    if (2048 <=? c) && negb (is_surrogate c)
                    then cons c <$> utf8_decode_from fuel' rest'
                    else None
                | _, _ => None
                end
            | _ => None
            end
          else if between 240 244 n0 then
            match rest with
            | b1 :: b2 :: b3 :: rest' =>
                match continuation b1, continuation b2, continuation b3 with
                | Some c1, Some c2, Some c3 =>
                    let c := (n0 - 240) * 262144 + c1 * 4096 + c2 * 64 + c3 in
                    if (65536 <=? c) && (c <? 1114112)
                    then cons c <$> utf8_decode_from fuel' rest'
                    else None
                | _, _, _ => None
                end
            | _ => None
            end
          else None
      end
  end.

Definition utf8_decode (b : bytes) : option str :=
  utf8_decode_from (length b) b.

(** ** The Prolog JSON format

    What [json.loads] yields for a reply of the language server: a string
    is an atom or a variable, a number is a number, a JSON list is a Prolog
    list and an object with the keys "functor" and "args" is a compound
    term.  JSON numbers with a fraction are not modelled. *)

Inductive json_term :=
| JStr (s : str)
| JNum (n : Z)
| JList (items : list json_term)
| JFunctor (functor : str) (args : list json_term).

(** ** Exceptions and outcomes *)

Inductive prolog_error_class :=
| PrologError
| PrologLaunchError
| PrologQueryTimeoutError
| PrologConnectionFailedError
| PrologNoQueryError
| PrologQueryCancelledError
| PrologResultNotAvailableError.

(** A raised Python exception.  [Prolog cls inner] is an instance of the
    class [cls] whose [_exception_json] is [inner].  [UnicodeDecodeError],
    [UnicodeEncodeError] and [JSONDecodeError] are subclasses of
    [ValueError]; none of the others is a subclass of [OSError]. *)
Inductive exception :=
| Prolog (cls : prolog_error_class) (_exception_json : json_term)
| IndexError
| KeyError
| TypeError
| AttributeError
| ValueError
| UnicodeDecodeError
| UnicodeEncodeError
| JSONDecodeError
| AssertionError
| OSError.

Inductive outcome (A : Type) :=
| Return (a : A)
| Raise (e : exception)
| Running.
Arguments Return {A} a.
Arguments Raise {A} e.
Arguments Running {A}.

#[global] Instance outcome_ret : MRet outcome := @Return.
#[global] Instance outcome_bind : MBind outcome := fun A B f m =>
  match m with
  | Return a => f a
  | Raise e => Raise e
  | Running => Running
  end.

Definition or_raise {A} (e : exception) (o : option A) : outcome A :=
  match o with
  | Some a => Return a
  | None => Raise e
  end.

(** ** Term model *)

Section TermModel.
Context `{UnicodeData}.

Definition is_prolog_functor (term : json_term) : bool :=
  match term with
  | JFunctor _ _ => true
  | _ => false
  end.

Definition is_prolog_list (term : json_term) : bool :=
  match term with
  | JList _ => true
  | _ => false
  end.

(** [isinstance(term, str) and (term[0].isupper() or term[0] == "_")] *)
Definition is_prolog_variable (term : json_term) : outcome bool :=
  match term with
  | JStr s =>
      match s with
      | [] => Raise IndexError
      | c :: _ => Return (isupper c || (c =? UNDERSCORE))
      end
  | _ => Return false
  end.

Definition is_prolog_atom (term : json_term) : outcome bool :=
  match term with
  | JStr _ => v ← is_prolog_variable term; Return (negb v)
  | _ => Return false
  end.

(** [term["functor"]] and [term["args"]]: a string, a number
    and a list do not take a string subscript. *)
Definition subscript_functor (term : json_term) : outcome str :=
  match term with
  | JFunctor functor _ => Return functor
  | _ => Raise TypeError
  end.

Definition prolog_name (term : json_term) : outcome str :=
  atom ← is_prolog_atom term;
  named ← (if atom : bool then Return true else is_prolog_variable term);
  if named : bool then
    match term with
    | JStr s => Return s
    | _ => Raise TypeError
    end
  else subscript_functor term.

Definition prolog_args (term : json_term) : outcome (list json_term) :=
  match term with
  | JFunctor _ args => Return args
  | _ => Raise TypeError
  end.

Definition quote_prolog_identifier (identifier : json_term)
  : outcome json_term :=
  atom ← is_prolog_atom identifier;
  if negb atom then Return identifier
  else
    match identifier with
    | JStr s =>
        atom' ← is_prolog_atom identifier;
        let mustQuote :=
          atom' &&
          (match s with
           | [] => true
           | c :: _ =>
               negb (isalpha c)
               || negb (str_isalnum (translate_delete [UNDERSCORE] s))
           end) in
        if mustQuote then Return (JStr ([QUOTE] ++ s ++ [QUOTE]))
        else Return identifier
    | _ => Return identifier
    end.

(** [str(x)] for what [quote_prolog_identifier] hands back to
    [json_to_prolog]: a string or a number. *)
Definition str_of_identifier (x : json_term) : outcome str :=
  match x with
  | JStr s => Return s
  | JNum n => Return (str_of_Z n)
  | _ => Raise TypeError
  end.

Fixpoint json_to_prolog (term : json_term) : outcome str :=
  match term with
  | JFunctor functor args =>
      argsString ←
        (fix each (items : list json_term) : outcome (list str) :=
           match items with
           | [] => Return []
           | item :: rest =>
               s ← json_to_prolog item; ss ← each rest; Return (s :: ss)
           end) args;
      name ← prolog_name term;
      quoted ← quote_prolog_identifier (JStr name);
      q ← str_of_identifier quoted;
      Return (q ++ py "(" ++ join (py ", ") argsString ++ py ")")
  | JList items =>
      listString ←
        (fix each (items : list json_term) : outcome (list str) :=
           match items with
           | [] => Return []
           | item :: rest =>
               s ← json_to_prolog item; ss ← each rest; Return (s :: ss)
           end) items;
      Return (py "[" ++ join (py ", ") listString ++ py "]")
  | _ =>
      quoted ← quote_prolog_identifier term;
      str_of_identifier quoted
  end.
End TermModel.

(** ** Sockets, the launched process and the objects of the library *)

(** What one [recv] finds: bytes the peer has written, or a failure of the
    connection ([recv] raises [OSError]). *)
Inductive recv_event :=
| Data (chunk : bytes)
| Reset.

(** A stream socket.  [inbox] is what the peer delivers, in order; once it
    is used up the peer has closed its end and [recv] returns [b''].
    [outbox] lists the payload of every completed [sendall], oldest first.
    [send_budget] is the number of [sendall] calls the connection still
    accepts before they raise [OSError] ([None]: no limit). *)
Record socket := {
  connected : bool;
  inbox : list recv_event;
  outbox : list bytes;
  send_budget : option nat
}.

(** The launched [swipl]: its pid and the lines it still has to print on
    its standard output. *)
Record process := {
  pid : nat;
  stdout : list str
}.

Inductive address :=
| AF_UNIX (path : str)
| AF_INET (port : option Z).

(** What the library does to the world outside, in order. *)
Inductive event :=
| Popen
| Connect (a : address)
| Sendall (data : bytes)
| Close
| Kill
| Wait
| Remove (path : str).

Record PrologServer := {
  _port : option Z;
  _password : option str;
  _process : option process;
  _query_timeout : option Z;
  pending_connections : option Z;
  _halt_on_connection_failure : bool;
  _output_file : option str;
  _unix_domain_socket : option str;
  _server_traces : bool;
  _launch_server : bool;
  connection_failed : bool
}.

Record PrologThread := {
  _socket : option socket;
  communication_thread_id : option json_term;
  goal_thread_id : option json_term
}.

(** The world outside: what each further [Popen] and each further
    [connect] will meet ([None]: it raises [OSError]), and the log. *)
Record environment := {
  launches : list (option process);
  accepts : list (option socket);
  log : list event
}.

(** [thread] is the [PrologThread] a method runs on, [server] the
    [PrologServer] it holds. *)
Record machine := {
  thread : PrologThread;
  server : PrologServer;
  world : environment
}.

(** [PrologServer.__init__] *)
Definition PrologServer_init (launch_server : bool) (port : option Z)
    (password unix_domain_socket : option str)
    (query_timeout_seconds pending_connection_count : option Z)
    (halt_on_connection_failure : bool) (output_file_name : option str)
    (server_traces : bool) : PrologServer :=
  {| _port := port;
     _password := password;
     _process := None;
     _query_timeout := query_timeout_seconds;
     pending_connections := pending_connection_count;
     _halt_on_connection_failure := halt_on_connection_failure;
     _output_file := output_file_name;
     _unix_domain_socket := unix_domain_socket;
     _server_traces := server_traces;
     _launch_server := launch_server;
     connection_failed := false |}.

(** [PrologThread.__init__] *)
Definition PrologThread_init : PrologThread :=
  {| _socket := None;
     communication_thread_id := None;
     goal_thread_id := None |}.

(** *** Field updates *)

Definition with_thread (t : PrologThread) (m : machine) : machine :=
  {| thread := t; server := server m; world := world m |}.

Definition with_server (s : PrologServer) (m : machine) : machine :=
  {| thread := thread m; server := s; world := world m |}.

Definition with_world (w : environment) (m : machine) : machine :=
  {| thread := thread m; server := server m; world := w |}.

Definition set_socket (s : option socket) (t : PrologThread) : PrologThread :=
  {| _socket := s;
     communication_thread_id := communication_thread_id t;
     goal_thread_id := goal_thread_id t |}.

Definition set_communication (c : json_term) (t : PrologThread)
  : PrologThread :=
  {| _socket := _socket t;
     communication_thread_id := Some c;
     goal_thread_id := goal_thread_id t |}.

Definition set_goal (g : json_term) (t : PrologThread) : PrologThread :=
  {| _socket := _socket t;
     communication_thread_id := communication_thread_id t;
     goal_thread_id := Some g |}.

Definition set_connection_failed (b : bool) (s : PrologServer)
  : PrologServer :=
  {| _port := _port s; _password := _password s; _process := _process s;
     _query_timeout := _query_timeout s;
     pending_connections := pending_connections s;
     _halt_on_connection_failure := _halt_on_connection_failure s;
     _output_file := _output_file s;
     _unix_domain_socket := _unix_domain_socket s;
     _server_traces := _server_traces s;
     _launch_server := _launch_server s;
     connection_failed := b |}.

Definition set_process (p : option process) (s : PrologServer)
  : PrologServer :=
  {| _port := _port s; _password := _password s; _process := p;
     _query_timeout := _query_timeout s;
     pending_connections := pending_connections s;
     _halt_on_connection_failure := _halt_on_connection_failure s;
     _output_file := _output_file s;
     _unix_domain_socket := _unix_domain_socket s;
     _server_traces := _server_traces s;
     _launch_server := _launch_server s;
     connection_failed := connection_failed s |}.

Definition set_port (p : option Z) (s : PrologServer) : PrologServer :=
  {| _port := p; _password := _password s; _process := _process s;
     _query_timeout := _query_timeout s;
     pending_connections := pending_connections s;
     _halt_on_connection_failure := _halt_on_connection_failure s;
     _output_file := _output_file s;
     _unix_domain_socket := _unix_domain_socket s;
     _server_traces := _server_traces s;
     _launch_server := _launch_server s;
     connection_failed := connection_failed s |}.

Definition set_password (p : option str) (s : PrologServer) : PrologServer :=
  {| _port := _port s; _password := p; _process := _process s;
     _query_timeout := _query_timeout s;
     pending_connections := pending_connections s;
     _halt_on_connection_failure := _halt_on_connection_failure s;
     _output_file := _output_file s;
     _unix_domain_socket := _unix_domain_socket s;
     _server_traces := _server_traces s;
     _launch_server := _launch_server s;
     connection_failed := connection_failed s |}.

Definition record (e : event) (w : environment) : environment :=
  {| launches := launches w; accepts := accepts w; log := log w ++ [e] |}.

(** ** The monad of methods *)

Definition M (A : Type) : Type := machine -> outcome A * machine.

#[global] Instance M_ret : MRet M := fun A a m => (Return a, m).
#[global] Instance M_bind : MBind M := fun A B f c m =>
  match c m with
  | (Return a, m') => f a m'
  | (Raise e, m') => (Raise e, m')
  | (Running, m') => (Running, m')
  end.

Definition lift {A} (o : outcome A) : M A := fun m => (o, m).
Definition raise {A} (e : exception) : M A := lift (Raise e).
Definition get : M machine := fun m => (Return m, m).
Definition modify (f : machine -> machine) : M unit :=
  fun m => (Return tt, f m).
Definition emit (e : event) : M unit :=
  modify (fun m => with_world (record e (world m)) m).

(** [try: body  except OSError: pass] *)
Definition try_except_OSError (body : M unit) : M unit := fun m =>
  match body m with
  | (Raise OSError, m') => (Return tt, m')
  | r => r
  end.

(** [with self.create_thread() as prologThread: body], for given
    [__enter__] and [__exit__] bodies.  A failing [__enter__] skips both the
    body and [__exit__]; an exception of [__exit__] replaces the one of the
    body.  The thread object is local to the block. *)
Definition with_create_thread {A} (enter leave : M unit) (body : M A)
  : M A := fun m =>
  let caller := thread m in
  let back (r : outcome A * machine) := (r.1, with_thread caller r.2) in
  match enter (with_thread PrologThread_init m) with
  | (Return _, m1) =>
      match body m1 with
      | (Running, m2) => back (Running, m2)
      | (result, m2) =>
          match leave m2 with
          | (Return _, m3) => back (result, m3)
          | (Raise e, m3) => back (Raise e, m3)
          | (Running, m3) => back (Running, m3)
          end
      end
  | (Raise e, m1) => back (Raise e, m1)
  | (Running, m1) => back (Running, m1)
  end.

(** ** Socket operations *)

Definition put_socket (s : socket) : M unit :=
  modify (fun m => with_thread (set_socket (Some s) (thread m)) m).

(** [socket.socket(...)]: a fresh socket, not connected yet. *)
Definition fresh_socket : socket :=
  {| connected := false; inbox := []; outbox := []; send_budget := None |}.

(** [self._socket.connect(prologAddress)]; a port that is [None] is a
    [TypeError]. *)
Definition socket_connect (a : address) : M unit := fun m =>
  match _socket (thread m), a with
  | None, _ => (Raise AttributeError, m)
  | Some _, AF_INET None => (Raise TypeError, m)
  | Some _, _ =>
      let w := world m in
      match accepts w with
      | Some s :: rest =>
          let w' := {| launches := launches w; accepts := rest;
                       log := log w ++ [Connect a] |} in
          (Return tt, with_world w' (with_thread (set_socket (Some s) (thread m)) m))
      | None :: rest =>
          let w' := {| launches := launches w; accepts := rest;
                       log := log w |} in
          (Raise OSError, with_world w' m)
      | [] => (Raise OSError, m)
      end
  end.

(** [self._socket.sendall(data)] *)
Definition socket_sendall (data : bytes) : M unit := fun m =>
  match _socket (thread m) with
  | None => (Raise AttributeError, m)
  | Some s =>
      if negb (connected s) then (Raise OSError, m)
      else
        match send_budget s with
        | Some O => (Raise OSError, m)
        | budget =>
            let s' := {| connected := true; inbox := inbox s;
                         outbox := outbox s ++ [data];
                         send_budget := pred <$> budget |} in
            (Return tt,
             with_world (record (Sendall data) (world m))
               (with_thread (set_socket (Some s') (thread m)) m))
        end
  end.

(** [self._socket.recv(bufsize)] *)
Definition socket_recv (bufsize : nat) : M bytes := fun m =>
  match _socket (thread m) with
  | None => (Raise AttributeError, m)
  | Some s =>
      if negb (connected s) then (Raise OSError, m)
      else
        let keep (rest : list recv_event) :=
          with_thread
            (set_socket
               (Some {| connected := true; inbox := rest; outbox := outbox s;
                        send_budget := send_budget s |})
               (thread m)) m in
        match inbox s with
        | [] => (Return [], m)
        | Reset :: rest => (Raise OSError, keep rest)
        | Data chunk :: rest =>
            if (length chunk <=? bufsize)%nat then (Return chunk, keep rest)
            else (Return (take bufsize chunk),
                  keep (Data (drop bufsize chunk) :: rest))
        end
  end.

(** [self._socket.close()] followed by [self._socket = None] *)
Definition socket_close : M unit :=
  emit Close;;
  modify (fun m => with_thread (set_socket None (thread m)) m).

(** ** Framed transport *)

(** [PrologThread._send] *)
Definition _send (value : str) : M unit :=
  let value := strip value in
  let value := rstrip [LF; DOT] value in
  let value := value ++ [DOT; LF] in
  utf8Value ← lift (or_raise UnicodeEncodeError (utf8_encode value));
  msgHeader ← lift (or_raise UnicodeEncodeError
    (utf8_encode (str_of_N (N.of_nat (length utf8Value)) ++ [DOT; LF])));
  socket_sendall msgHeader;;
  socket_sendall utf8Value.

(** The [for index in range(0, len(headerData))] loop of [_receive]:
    the grown [sizeBytes] and, when the newline was met, [amount_expected]
    with the rest of the buffer ([data]). *)
Fixpoint scan_header (headerData sizeBytes : bytes)
  : outcome (bytes * option (Z * bytes)) :=
  match headerData with
  | [] => Return (sizeBytes, None)
  | item :: rest =>
      if Byte.to_N item =? 46 then scan_header rest sizeBytes
      else if Byte.to_N item =? 10 then
        let stringLength := map Byte.to_N sizeBytes in
        amount_expected ← or_raise ValueError (int_of_str stringLength);
        Return (sizeBytes, Some (amount_expected, rest))
      else scan_header rest (sizeBytes ++ [item])
  end.

(** The [while] loop of [_receive]; one unit of [fuel] per iteration. *)
Fixpoint receive_loop (fuel : nat) (amount_received : Z)
    (amount_expected : option Z) (bytesReceived sizeBytes : bytes)
  : M bytes :=
  let again :=
    match amount_expected with
    | None => true
    | Some expected => (amount_received <? expected)%Z
    end in
  if again then
    match fuel with
    | O => lift Running
    | S fuel' =>
        headerData ← socket_recv 4096;
        match amount_expected with
        | None =>
            scanned ← lift (scan_header headerData sizeBytes);
            match scanned with
            | (sizeBytes', None) =>
                receive_loop fuel' amount_received None bytesReceived sizeBytes'
            | (sizeBytes', Some (expected, data)) =>
                receive_loop fuel'
                  (amount_received + Z.of_nat (length data))%Z
                  (Some expected) (bytesReceived ++ data) sizeBytes'
            end
        | Some _ =>
            receive_loop fuel'
              (amount_received + Z.of_nat (length headerData))%Z
              amount_expected (bytesReceived ++ headerData) sizeBytes
        end
    end
  else mret bytesReceived.

(** [PrologThread._receive] *)
Definition _receive (fuel : nat) : M str :=
  bytesReceived ← receive_loop fuel 0%Z None [] [];
  lift (or_raise UnicodeDecodeError (utf8_decode bytesReceived)).

(** ** Python values handed back to the caller *)

(** An element of the answer list: [True], or a [dict] from variable to
    term.  A key is whatever hashable value the reply put in the place of
    the variable: a string or a number. *)
Inductive answer :=
| AnswerTrue
| AnswerDict (answerDict : gmap (str + Z) json_term).

Inductive pyvalue :=
| PyNone
| PyFalse
| PyTrue
| PyList (answerList : list answer)
| PyTerm (jsonResult : json_term).

(** [json.loads]; [None] stands for [JSONDecodeError]. *)
Class JsonDecoder := json_loads : str -> option json_term.

(** ** Subscripts, iteration and [len] on decoded values *)

(** [l[i]] for a Python list. *)
Definition item (l : list json_term) (i : nat) : outcome json_term :=
  or_raise IndexError (l !! i).

(** [x[i]] for an integer [i]: a string gives a one-character string, an
    object has no integer key. *)
Definition getitem (x : json_term) (i : nat) : outcome json_term :=
  match x with
  | JList items => item items i
  | JStr s => or_raise IndexError ((fun c => JStr [c]) <$> s !! i)
  | JNum _ => Raise TypeError
  | JFunctor _ _ => Raise KeyError
  end.

(** [for y in x]: a string yields its characters, an object its keys. *)
Definition iterate (x : json_term) : outcome (list json_term) :=
  match x with
  | JList items => Return items
  | JStr s => Return (map (fun c => JStr [c]) s)
  | JNum _ => Raise TypeError
  | JFunctor _ _ => Return [JStr (py "functor"); JStr (py "args")]
  end.

Definition len (x : json_term) : outcome nat :=
  match x with
  | JList items => Return (length items)
  | JStr s => Return (length s)
  | JNum _ => Raise TypeError
  | JFunctor _ _ => Return 2%nat
  end.

(** A value used as a [dict] key. *)
Definition hashable (x : json_term) : outcome (str + Z) :=
  match x with
  | JStr s => Return (inl s)
  | JNum n => Return (inr n)
  | _ => Raise TypeError
  end.

(** [x == s] for a decoded value and a string literal. *)
Definition equals_str (x : json_term) (s : str) : bool :=
  match x with
  | JStr t => str_eqb t s
  | _ => false
  end.

(** ** Errors raised by the library *)

Section Errors.
Context `{UnicodeData}.

(** [cls(exception_json)]: what [PrologError.__init__] leaves behind,
    the new exception or the one its own body raised. *)
Definition new_PrologError (cls : prolog_error_class)
    (exception_json : json_term) : outcome exception :=
  name ← prolog_name exception_json;
  if negb (str_eqb name (py "exception")) then Raise AssertionError
  else
    args ← prolog_args exception_json;
    if negb (length args =? 1)%nat then Raise AssertionError
    else
      args' ← prolog_args exception_json;
      _exception_json ← item args' 0;
      _ ← json_to_prolog _exception_json;
      Return (Prolog cls _exception_json).

(** [raise cls(exception_json)] *)
Definition raise_new {A} (cls : prolog_error_class)
    (exception_json : json_term) : M A :=
  match new_PrologError cls exception_json with
  | Return e => raise e
  | Raise e => raise e
  | Running => lift Running
  end.

(** [PrologError.json], [PrologError.prolog] and
    [PrologError.is_prolog_exception], on a raised exception. *)
Definition PrologError_json (e : exception) : outcome json_term :=
  match e with
  | Prolog _ _exception_json => Return _exception_json
  | _ => Raise AttributeError
  end.

Definition PrologError_prolog (e : exception) : outcome str :=
  match e with
  | Prolog _ _exception_json => json_to_prolog _exception_json
  | _ => Raise AttributeError
  end.

Definition is_prolog_exception (e : exception) (term_name : str)
  : outcome bool :=
  match e with
  | Prolog _ _exception_json =>
      name ← prolog_name _exception_json;
      Return (str_eqb name term_name)
  | _ => Raise AttributeError
  end.
End Errors.

(** ** The reply classifier *)

Section Classifier.
Context `{UnicodeData}.

(** [jsonResult["args"][0] == name] *)
Definition arg0_is (jsonResult : json_term) (name : string) : M bool :=
  lift (args ← prolog_args jsonResult;
        inner ← item args 0;
        Return (equals_str inner (py name))).

Definition name_is (jsonResult : json_term) (name : string) : M bool :=
  lift (n ← prolog_name jsonResult; Return (str_eqb n (py name))).

(** [self._prolog_server.connection_failed = True] *)
Definition mark_connection_failed : M unit :=
  modify (fun m => with_server (set_connection_failed true (server m)) m).

(** The inner [for answerAssignment in answer] loop. *)
Fixpoint bind_variables (answer : list json_term)
    (answerDict : gmap (str + Z) json_term)
  : outcome (gmap (str + Z) json_term) :=
  match answer with
  | [] => Return answerDict
  | answerAssignment :: rest =>
      rhs ← prolog_args answerAssignment;
      value ← item rhs 1;
      lhs ← prolog_args answerAssignment;
      variable ← item lhs 0;
      key ← hashable variable;
      bind_variables rest (<[key := value]> answerDict)
  end.

(** The [for answer in prolog_args(jsonResult)[0]] loop. *)
Fixpoint collect_answers (answers : list json_term)
    (answerList : list answer) : outcome (list answer) :=
  match answers with
  | [] => Return answerList
  | answer :: rest =>
      n ← len answer;
      if (n =? 0)%nat then collect_answers rest (answerList ++ [AnswerTrue])
      else
        assignments ← iterate answer;
        answerDict ← bind_variables assignments ∅;
        collect_answers rest (answerList ++ [AnswerDict answerDict])
  end.

(** [answerList == [True]] *)
Definition is_single_true (answerList : list answer) : bool :=
  match answerList with
  | [AnswerTrue] => true
  | _ => false
  end.

(** The body of [_return_prolog_response] below [json.loads]. *)
Definition classify_response (jsonResult : json_term) : M pyvalue :=
  is_exception ← name_is jsonResult "exception";
  if is_exception : bool then
    c ← arg0_is jsonResult "no_more_results";
    if c : bool then mret PyNone else
    c ← arg0_is jsonResult "connection_failed";
    if c : bool then
      mark_connection_failed;;
      raise_new PrologConnectionFailedError jsonResult
    else
    c ← arg0_is jsonResult "time_limit_exceeded";
    if c : bool then raise_new PrologQueryTimeoutError jsonResult else
    c ← arg0_is jsonResult "no_query";
    if c : bool then raise_new PrologNoQueryError jsonResult else
    c ← arg0_is jsonResult "cancel_goal";
    if c : bool then raise_new PrologQueryCancelledError jsonResult else
    c ← arg0_is jsonResult "result_not_available";
    if c : bool then raise_new PrologResultNotAvailableError jsonResult
    else raise_new PrologError jsonResult
  else
    is_false ← name_is jsonResult "false";
    if is_false : bool then mret PyFalse else
    is_true ← name_is jsonResult "true";
    if is_true : bool then
      args ← lift (prolog_args jsonResult);
      first ← lift (item args 0);
      answers ← lift (iterate first);
      answerList ← lift (collect_answers answers []);
      if is_single_true answerList then mret PyTrue
      else mret (PyList answerList)
    else mret (PyTerm jsonResult).
End Classifier.

(** ** PrologThread *)

(** Truth value of an optional string: [None] and the empty string are
    false. *)
Definition truthy (s : option str) : bool :=
  match s with
  | Some (_ :: _) => true
  | _ => false
  end.

(** ["{}".format(x)] for an optional string. *)
Definition format_optional (x : option str) : str :=
  match x with
  | Some s => s
  | None => py "None"
  end.

(** [self.communication_thread_id = c] and [self.goal_thread_id = g] *)
Definition set_communication_thread_id (c : json_term) : M unit :=
  modify (fun m => with_thread (set_communication c (thread m)) m).

Definition set_goal_thread_id (g : json_term) : M unit :=
  modify (fun m => with_thread (set_goal g (thread m)) m).

Section ThreadMethods.
Context `{UnicodeData} `{JsonDecoder}.

(** [self._prolog_server.start], tied to [PrologServer_start] below. *)
Variable server_start : M unit.

(** [PrologThread._return_prolog_response] *)
Definition _return_prolog_response (fuel : nat) : M pyvalue :=
  result ← _receive fuel;
  jsonResult ← lift (or_raise JSONDecodeError (json_loads result));
  classify_response jsonResult.

(** [PrologServer.process_id] *)
Definition process_id : M (option nat) :=
  m ← get; mret (pid <$> _process (server m)).

(** [PrologThread.start] *)
Definition PrologThread_start (fuel : nat) : M unit :=
  m ← get;
  if bool_decide (_socket (thread m) ≠ None) then mret tt
  else
    p ← process_id;
    (if bool_decide (p = None) then server_start else mret tt);;
    m ← get;
    let prologAddress :=
      if truthy (_unix_domain_socket (server m))
      then AF_UNIX (default [] (_unix_domain_socket (server m)))
      else AF_INET (_port (server m)) in
    put_socket fresh_socket;;
    socket_connect prologAddress;;
    _send (format_optional (_password (server m)));;
    result ← _receive fuel;
    jsonResult ← lift (or_raise JSONDecodeError (json_loads result));
    accepted ← name_is jsonResult "true";
    if negb accepted then
      text ← lift (json_to_prolog jsonResult);
      raise_new PrologLaunchError
        (JStr (py "Failed to accept password: " ++ text))
    else
      threadTerm ← lift (args ← prolog_args jsonResult;
                         a ← item args 0;
                         b ← getitem a 0;
                         getitem b 0);
      communication ← lift (args ← prolog_args threadTerm; item args 0);
      set_communication_thread_id communication;;
      goal ← lift (args ← prolog_args threadTerm; item args 1);
      set_goal_thread_id goal.

(** [PrologThread.stop] *)
Definition PrologThread_stop (fuel : nat) : M unit :=
  m ← get;
  if bool_decide (_socket (thread m) ≠ None) then
    (if negb (connection_failed (server m)) then
       try_except_OSError
         (_send (py "close." ++ [LF]);;
          _return_prolog_response fuel;;
          mret tt)
     else mret tt);;
    socket_close
  else mret tt.

Definition ensure_started (fuel : nat) : M unit :=
  m ← get;
  if bool_decide (_socket (thread m) = None) then PrologThread_start fuel
  else mret tt.

(** [PrologThread.query].  The timeout is a whole number of seconds. *)
Definition query (fuel : nat) (value : str)
    (query_timeout_seconds : option Z) : M pyvalue :=
  ensure_started fuel;;
  let value := strip value in
  let value := rstrip [LF; DOT] value in
  let timeoutString :=
    match query_timeout_seconds with
    | None => py "_"
    | Some t => str_of_Z t
    end in
  _send (py "run((" ++ value ++ py "), " ++ timeoutString ++ py ")."
         ++ [LF]);;
  _return_prolog_response fuel.

(** [PrologThread.query_async]; it hands back [None]. *)
Definition query_async (fuel : nat) (value : str) (find_all : bool)
    (query_timeout_seconds : option Z) : M pyvalue :=
  ensure_started fuel;;
  let value := strip value in
  let value := rstrip [LF; DOT] value in
  let timeoutString :=
    match query_timeout_seconds with
    | None => py "_"
    | Some t => str_of_Z t
    end in
  let findallResultsString := if find_all then py "true" else py "false" in
  _send (py "run_async((" ++ value ++ py "), " ++ timeoutString ++ py ", "
         ++ findallResultsString ++ py ")." ++ [LF]);;
  _return_prolog_response fuel;;
  mret PyNone.

(** [PrologThread.cancel_query_async]; it hands back [None]. *)
Definition cancel_query_async (fuel : nat) : M pyvalue :=
  _send (py "cancel_async." ++ [LF]);;
  _return_prolog_response fuel;;
  mret PyNone.

(** [PrologThread.query_async_result] *)
Definition query_async_result (fuel : nat)
    (wait_timeout_seconds : option Z) : M pyvalue :=
  let timeoutString :=
    match wait_timeout_seconds with
    | None => py "-1"
    | Some t => str_of_Z t
    end in
  _send (py "async_result(" ++ timeoutString ++ py ")." ++ [LF]);;
  _return_prolog_response fuel.

(** [PrologThread.halt_server] *)
Definition halt_server (fuel : nat) : M unit :=
  _send (py "quit." ++ [LF]);;
  _return_prolog_response fuel;;
  mark_connection_failed.
End ThreadMethods.

(** ** PrologServer *)

Section ServerMethods.
Context `{UnicodeData} `{JsonDecoder}.

(** [subprocess.Popen(launchArgs, ...)] and [self._process = ...] *)
Definition popen : M unit := fun m =>
  let w := world m in
  match launches w with
  | Some p :: rest =>
      let w' := {| launches := rest; accepts := accepts w;
                   log := log w ++ [Popen] |} in
      (Return tt, with_world w' (with_server (set_process (Some p) (server m)) m))
  | None :: rest =>
      let w' := {| launches := rest; accepts := accepts w; log := log w |} in
      (Raise OSError, with_world w' m)
  | [] => (Raise OSError, m)
  end.

(** [self._process.stdout.readline().decode()] *)
Definition readline : M str := fun m =>
  match _process (server m) with
  | None => (Raise AttributeError, m)
  | Some p =>
      match stdout p with
      | [] => (Return [], m)
      | line :: rest =>
          (Return line,
           with_server
             (set_process (Some {| pid := pid p; stdout := rest |}) (server m))
             m)
      end
  end.

(** [PrologServer.start]; one unit of [fuel] per nested thread. *)
Fixpoint PrologServer_start (fuel : nat) : M unit :=
  m ← get;
  if _launch_server (server m) then
    popen;;
    (if bool_decide (_unix_domain_socket (server m) = None) then
       portString ← readline;
       if str_eqb portString [] then
         raise_new PrologLaunchError (JStr (py "no port found in stdout"))
       else
         let serverPortString := rstrip [LF] portString in
         port ← lift (or_raise ValueError (int_of_str serverPortString));
         modify (fun m => with_server (set_port (Some port) (server m)) m)
     else mret tt);;
    passwordString ← readline;
    (if str_eqb passwordString [] then
       raise_new PrologLaunchError (JStr (py "no password found in stdout"))
     else
       modify (fun m =>
         with_server
           (set_password (Some (rstrip [LF] passwordString)) (server m)) m));;
    if _server_traces (server m) then
      match fuel with
      | O => lift Running
      | S fuel' =>
          with_create_thread
            (PrologThread_start (PrologServer_start fuel') fuel)
            (PrologThread_stop fuel)
            (query (PrologServer_start fuel') fuel
               (py "debug(prologServer(_))") None);;
          mret tt
      end
    else mret tt
  else mret tt.

(** [PrologServer.stop] *)
Definition PrologServer_stop (fuel : nat) (kill : bool) : M unit :=
  m ← get;
  match _process (server m) with
  | Some _ =>
      (if kill || connection_failed (server m) then emit Kill
       else
         with_create_thread
           (PrologThread_start (PrologServer_start fuel) fuel)
           (PrologThread_stop fuel)
           (halt_server fuel));;
      emit Wait;;
      (if truthy (_unix_domain_socket (server m))
       then emit (Remove (default [] (_unix_domain_socket (server m))))
       else mret tt);;
      modify (fun m => with_server (set_process None (server m)) m)
  | None => mret tt
  end.
End ServerMethods.

(** ** The public operations, as one type *)

Inductive operation :=
| Server_start
| Server_stop (kill : bool)
| Create_thread
| Thread_start
| Thread_stop
| Query (value : str) (query_timeout_seconds : option Z)
| Query_async (value : str) (find_all : bool)
    (query_timeout_seconds : option Z)
| Cancel_query_async
| Query_async_result (wait_timeout_seconds : option Z)
| Halt_server.

Section Operations.
Context `{UnicodeData} `{JsonDecoder}.

Definition unit_result (c : M unit) : M pyvalue := c;; mret PyNone.

(** [PrologServer.create_thread]: from here on [thread] is the new
    object. *)
Definition create_thread : M unit :=
  modify (with_thread PrologThread_init).

(** Calling a public method of [PrologServer] or [PrologThread];
    [__enter__] is [start] and [__exit__] is [stop]. *)
Definition call (fuel : nat) (op : operation) : M pyvalue :=
  match op with
  | Server_start => unit_result (PrologServer_start fuel)
  | Server_stop kill => unit_result (PrologServer_stop fuel kill)
  | Create_thread => unit_result create_thread
  | Thread_start =>
      unit_result (PrologThread_start (PrologServer_start fuel) fuel)
  | Thread_stop => unit_result (PrologThread_stop fuel)
  | Query value t => query (PrologServer_start fuel) fuel value t
  | Query_async value find_all t =>
      query_async (PrologServer_start fuel) fuel value find_all t
  | Cancel_query_async => cancel_query_async fuel
  | Query_async_result t => query_async_result fuel t
  | Halt_server => unit_result (halt_server fuel)
  end.
End Operations.

(** [json.loads] on the replies listed in [table], and on nothing else. *)
Definition decoder_of (table : list (str * json_term)) : JsonDecoder :=
  fun text => snd <$> List.find (fun entry => str_eqb entry.1 text) table.

(** ** Reference predicates of the specification *)

Section Reference.
Context `{UnicodeData}.

(** The quoting rule: the text is empty, does not start with a letter,
    or holds a character that is neither a letter, a digit nor an
    underscore. *)
Definition requires_quoting (text : str) : bool :=
  match text with
  | [] => true
  | c :: _ =>
      negb (isalpha c)
      || existsb (fun x => negb (isalnum x || (x =? UNDERSCORE))) text
  end.

Definition quoted (text : str) : str := [QUOTE] ++ text ++ [QUOTE].
End Reference.

(** ** Replies of the language server *)

(** [=(Variable, Term)] *)
Definition binding_term (b : str * json_term) : json_term :=
  JFunctor (py "=") [JStr b.1; b.2].

(** One answer: the list of its bindings. *)
Definition answer_term (bindings : list (str * json_term)) : json_term :=
  JList (binding_term <$> bindings).

(** [true([[...], [...], ...])], [false()] and [exception(Inner)] *)
Definition true_reply (answers : list (list (str * json_term))) : json_term :=
  JFunctor (py "true") [JList (answer_term <$> answers)].

Definition false_reply : json_term := JFunctor (py "false") [].

Definition exception_reply (inner : json_term) : json_term :=
  JFunctor (py "exception") [inner].

(** Every atom, variable and functor name in the term has a first
    character. *)
Fixpoint well_named (t : json_term) : bool :=
  match t with
  | JStr s => negb (str_eqb s [])
  | JNum _ => true
  | JList items => forallb well_named items
  | JFunctor functor args => negb (str_eqb functor []) && forallb well_named args
  end.

Inductive well_formed_reply : json_term -> Prop :=
| reply_false : well_formed_reply false_reply
| reply_true answers : well_formed_reply (true_reply answers)
| reply_exception inner :
    well_named inner = true -> well_formed_reply (exception_reply inner).

(** [answerDict[variable] = term] *)
Definition put_binding (d : gmap (str + Z) json_term)
    (b : str * json_term) : gmap (str + Z) json_term :=
  <[inl b.1 := b.2]> d.

(** The value an answer stands for: [True] without bindings, otherwise
    the dictionary of its bindings, a later binding of a variable
    replacing an earlier one. *)
Definition answer_of (bindings : list (str * json_term)) : answer :=
  match bindings with
  | [] => AnswerTrue
  | _ => AnswerDict (list_to_map (reverse (prod_map inl id <$> bindings)))
  end.

Definition value_of_answers (answers : list (list (str * json_term)))
  : pyvalue :=
  match answers with
  | [[]] => PyTrue
  | _ => PyList (answer_of <$> answers)
  end.

(** A term that has a name: an atom, a variable or a compound. *)
Definition has_name (t : json_term) : bool :=
  match t with
  | JStr _ | JFunctor _ _ => true
  | _ => false
  end.

(** The inner terms the classifier singles out. *)
Definition reserved_atoms : list json_term :=
  JStr <$> [py "no_more_results"; py "connection_failed";
            py "time_limit_exceeded"; py "no_query"; py "cancel_goal";
            py "result_not_available"].

(** *** Sample states *)

Definition local_server : PrologServer :=
  PrologServer_init false (Some 4242%Z) (Some (py "secret")) None None None
    true None false.

Definition quiet_world : environment :=
  {| launches := []; accepts := []; log := [] |}.

(** A started session whose peer will deliver [events]. *)
Definition session (events : list recv_event) (budget : option nat)
  : machine :=
  {| thread :=
       {| _socket := Some {| connected := true; inbox := events;
                             outbox := []; send_budget := budget |};
          communication_thread_id := Some (JStr (py "c1"));
          goal_thread_id := Some (JStr (py "g1")) |};
     server := local_server;
     world := quiet_world |}.

(** A compound whose functor is one of the names the classifier knows. *)
Definition no_query_compound : json_term :=
  JFunctor (py "no_query") [JStr (py "x")].

(** ** Reference notions of the framed transport *)

(** The text [_send] frames: whitespace trimmed, then trailing dots and
    newlines dropped. *)
Definition normalized (value : str) : str := rstrip [LF; DOT] (strip value).

(** The header of a body of [n] bytes: its decimal digits, a dot and a
    newline, in ASCII. *)
Definition wire_header (n : nat) : bytes :=
  byte_of <$> (str_of_N (N.of_nat n) ++ [DOT; LF]).

(** The connection takes [k] more [sendall] calls. *)
Definition can_send (k : nat) (s : socket) : Prop :=
  match send_budget s with
  | None => True
  | Some budget => (k <= budget)%nat
  end.

(** The header bytes that count: everything but the keepalive dots. *)
Definition without_dots (b : bytes) : bytes :=
  List.filter (fun x => negb (Byte.to_N x =? 46)) b.

Definition ascii_bytes (s : string) : bytes :=
  byte_of <$> py s.

(** The session of [m] is connected and its peer will deliver [events]. *)
Definition reading (m : machine) (events : list recv_event) : Prop :=
  exists s, _socket (thread m) = Some s /\ connected s = true
            /\ inbox s = events.

(** What [recv(4096)] takes from a chunk, and what it leaves. *)
Definition recv_split (chunk : bytes) : bytes * list bytes :=
  if (length chunk <=? 4096)%nat then (chunk, [])
  else (take 4096 chunk, [drop 4096 chunk]).

(** A bound on the reads a list of chunks can take. *)
Definition stream_size (chunks : list bytes) : nat :=
  length (concat chunks) + length chunks.

(** A message cut off in its body: seven bytes announced, three sent. *)
Definition truncated_message : bytes :=
  ascii_bytes "7." ++ [x0a] ++ ascii_bytes "hel".

(** A framed message with two keepalive dots in front, delivered one byte
    at a time. *)
Definition trickled_message : list bytes :=
  (fun b => [b]) <$> (ascii_bytes "..4." ++ [x0a] ++ ascii_bytes "hi." ++ [x0a]).

(** ** Reference notions of the failure flag *)

Definition failed (m : machine) : bool := connection_failed (server m).

(** A computation that never takes the flag back. *)
Definition keeps_failed {A} (c : M A) : Prop :=
  forall m, failed m = true -> failed (c m).2 = true.

(** The two errors with which the classifier leaves after it has set the
    flag: the connection failure itself, or the failed assertion of its
    constructor. *)
Definition alarm {A} (o : outcome A) : Prop :=
  match o with
  | Raise (Prolog PrologConnectionFailedError _) => True
  | Raise AssertionError => True
  | _ => False
  end.

(** A computation that changes the flag only by setting it, and then
    leaves with an [alarm]. *)
Definition flags_with_alarm {A} (c : M A) : Prop :=
  forall m, failed (c m).2 = failed m
            \/ (failed (c m).2 = true /\ alarm (c m).1).

(** Errors of the transport: the socket, the length header, the
    encoding of the body, the JSON text. *)
Definition transport_error (e : exception) : bool :=
  match e with
  | OSError | ValueError | UnicodeDecodeError | JSONDecodeError => true
  | _ => false
  end.

(** The operations that exchange one request and one reply. *)
Definition protocol_operation (op : operation) : bool :=
  match op with
  | Query _ _ | Query_async _ _ _ | Cancel_query_async
  | Query_async_result _ => true
  | _ => false
  end.

(** A session on a server whose flag is already set. *)
Definition failed_session : machine :=
  with_server (set_connection_failed true local_server) (session [] None).

(** ** A scripted language server *)

(** A JSON string literal. *)
Definition dq (s : string) : str := [34] ++ py s ++ [34].

(** [{"functor": f, "args": [a, ...]}] *)
Definition json_object (f : string) (args : list str) : str :=
  py "{" ++ dq "functor" ++ py ": " ++ dq f ++ py ", " ++ dq "args"
  ++ py ": [" ++ join (py ", ") args ++ py "]}".

Definition connection_failed_text : str :=
  json_object "exception" [dq "connection_failed"].

(** [true([[threads(c1, g1)]])], the acknowledgement of the password. *)
Definition welcome_text : str :=
  json_object "true"
    [py "[[" ++ json_object "threads" [dq "c1"; dq "g1"] ++ py "]]"].

(** [true([[]])], the acknowledgement of [quit] and of [close]. *)
Definition done_text : str := json_object "true" [py "[[]]"].

Definition sample_decoder : JsonDecoder :=
  decoder_of
    [(connection_failed_text, exception_reply (JStr (py "connection_failed")));
     (welcome_text,
      JFunctor (py "true")
        [JList [JList [JFunctor (py "threads")
                         [JStr (py "c1"); JStr (py "g1")]]]]);
     (done_text, true_reply [[]])].

(** The frame the server sends for a reply text. *)
Definition frame_of (text : str) : bytes :=
  let body := default [] (utf8_encode text) in
  wire_header (length body) ++ body.

(** A launched server that answers the password and one request. *)
Definition launched_server (flag : bool) : machine :=
  {| thread := PrologThread_init;
     server :=
       set_connection_failed flag
         (set_process (Some {| pid := 77; stdout := [] |})
            (PrologServer_init true (Some 4242%Z) (Some (py "secret")) None
               None None true None false));
     world :=
       {| launches := [];
          accepts :=
            [Some {| connected := true;
                     inbox := [Data (frame_of welcome_text);
                               Data (frame_of done_text)];
                     outbox := []; send_budget := None |}];
          log := [] |} |}.

(** ** Reference notions of the errors a call can raise *)

(** The error the documentation announces for a failed launch and for a
    rejected password. *)
Definition launch_error (e : exception) : bool :=
  match e with
  | Prolog PrologLaunchError _ => true
  | _ => false
  end.

(** A value, or an error that is no launch error. *)
Definition quiet {A} (o : outcome A) : Prop :=
  forall e, o = Raise e -> launch_error e = false.

(** A computation that raises no launch error, from any state. *)
Definition never_launch_error {A} (c : M A) : Prop :=
  forall m, quiet (c m).1.

(** ** Reference notions of what a call writes *)

(** The frames written so far on the connection of the thread. *)
Definition written (m : machine) : option (list bytes) :=
  outbox <$> _socket (thread m).

(** A computation that writes nothing and keeps the connection. *)
Definition writes_nothing {A} (c : M A) : Prop :=
  forall m, written (c m).2 = written m.

(** ["_"] for no timeout of a query. *)
Definition timeout_text (query_timeout_seconds : option Z) : str :=
  match query_timeout_seconds with
  | None => py "_"
  | Some t => str_of_Z t
  end.

(** The goal each request carries to the server, before its closing dot
    and newline. *)
Definition request_of (op : operation) : option str :=
  match op with
  | Query value t =>
      Some (py "run((" ++ normalized value ++ py "), " ++ timeout_text t
            ++ py ")")
  | Query_async value find_all t =>
      Some (py "run_async((" ++ normalized value ++ py "), "
            ++ timeout_text t ++ py ", "
            ++ (if find_all then py "true" else py "false") ++ py ")")
  | Cancel_query_async => Some (py "cancel_async")
  | Query_async_result t =>
      Some (py "async_result("
            ++ match t with
               | None => py "-1"
               | Some t => str_of_Z t
               end
            ++ py ")")
  | Halt_server => Some (py "quit")
  | _ => None
  end.

(** * Properties *)

(** ** Term model *)

Section TermModelFacts.
Context `{UnicodeData}.

Lemma in_chars_underscore x : in_chars [UNDERSCORE] x = (x =? UNDERSCORE).
Proof. unfold in_chars. simpl. now rewrite orb_false_r. Qed.

Lemma forallb_translate_delete s :
  forallb isalnum (translate_delete [UNDERSCORE] s)
  = forallb (fun x => isalnum x || (x =? UNDERSCORE)) s.
Proof.
  unfold translate_delete.
  induction s as [|x s IH]; [reflexivity|].
  cbn [List.filter]. rewrite in_chars_underscore.
  destruct (x =? UNDERSCORE) eqn:E; cbn [negb forallb].
  - rewrite E, orb_true_r. exact IH.
  - rewrite E, orb_false_r. now rewrite IH.
Qed.

Lemma existsb_negb_forallb {A} (p : A -> bool) l :
  existsb (fun x => negb (p x)) l = negb (forallb p l).
Proof.
  induction l as [|x l IH]; [reflexivity|].
  simpl. rewrite IH. now destruct (p x).
Qed.

Lemma variable_of_nonempty c s :
  is_prolog_variable (JStr (c :: s))
  = Return (isupper c || (c =? UNDERSCORE)).
Proof. reflexivity. Qed.

Lemma atom_of_nonempty c s :
  is_prolog_atom (JStr (c :: s))
  = Return (negb (isupper c || (c =? UNDERSCORE))).
Proof. reflexivity. Qed.

(** A text that starts with an upper-case letter or an underscore is a
    variable and is handed back as it is. *)
Lemma quote_variable_text c s :
  isupper c || (c =? UNDERSCORE) = true ->
  quote_prolog_identifier (JStr (c :: s)) = Return (JStr (c :: s)).
Proof.
  intros Hv. unfold quote_prolog_identifier.
  rewrite atom_of_nonempty, Hv. reflexivity.
Qed.

(** On every non-empty atom text the code quotes exactly when the rule
    asks for it. *)
Lemma quote_atom_text c s :
  isupper c || (c =? UNDERSCORE) = false ->
  quote_prolog_identifier (JStr (c :: s))
  = Return (JStr (if requires_quoting (c :: s)
                  then quoted (c :: s) else c :: s)).
Proof.
  intros Hv. unfold quote_prolog_identifier.
  rewrite atom_of_nonempty, Hv. cbn [mbind outcome_bind negb andb].
  apply orb_false_iff in Hv as [_ Hu].
  assert (Hne : str_isalnum (translate_delete [UNDERSCORE] (c :: s))
                = forallb (fun x => isalnum x || (x =? UNDERSCORE)) (c :: s)).
  { rewrite <- forallb_translate_delete.
    unfold translate_delete. cbn [List.filter].
    rewrite in_chars_underscore, Hu. reflexivity. }
  rewrite Hne. unfold requires_quoting.
  rewrite (existsb_negb_forallb (fun x => isalnum x || (x =? UNDERSCORE))).
  destruct (negb (isalpha c) || _); reflexivity.
Qed.

(** C6, at the text the code gets wrong: the rule asks for quotes around
    the empty atom, and [quote_prolog_identifier] carries the test
    [len(identifier) == 0] for it, but the classification that runs
    first indexes the first character and raises. *)
Theorem quote_prolog_identifier_empty_text :
  requires_quoting [] = true
  /\ quote_prolog_identifier (JStr []) = Raise IndexError.
Proof. split; reflexivity. Qed.

(** The examples of the quoting rule. *)
Lemma quote_examples :
  quote_prolog_identifier (JStr (py "b A")) = Return (JStr (py "'b A'"))
  /\ quote_prolog_identifier (JStr (py "1b")) = Return (JStr (py "'1b'"))
  /\ quote_prolog_identifier (JStr (py "b")) = Return (JStr (py "b"))
  /\ quote_prolog_identifier (JStr (py "_")) = Return (JStr (py "_")).
Proof. repeat split; reflexivity. Qed.

(** C10: the classification and quoting functions index the first
    character of their argument, so on the empty string each of them
    raises [IndexError]; on a non-empty string [is_prolog_variable]
    answers, and answers true exactly when the first character is
    upper-case or an underscore. *)
Theorem empty_string_raises_IndexError :
  is_prolog_variable (JStr []) = Raise IndexError
  /\ is_prolog_atom (JStr []) = Raise IndexError
  /\ quote_prolog_identifier (JStr []) = Raise IndexError
  /\ json_to_prolog (JStr []) = Raise IndexError
  /\ forall c s,
       exists b, is_prolog_variable (JStr (c :: s)) = Return b
                 /\ (b = true <-> isupper c = true \/ c = UNDERSCORE).
Proof.
  repeat split; try reflexivity.
  intros c s. exists (isupper c || (c =? UNDERSCORE)).
  split; [reflexivity|].
  rewrite orb_true_iff, N.eqb_eq. reflexivity.
Qed.
End TermModelFacts.

(** ** Rendering a term as Prolog text *)

Lemma json_term_induction (P : json_term -> Prop) :
  (forall s, P (JStr s)) ->
  (forall n, P (JNum n)) ->
  (forall items, Forall P items -> P (JList items)) ->
  (forall functor args, Forall P args -> P (JFunctor functor args)) ->
  forall t, P t.
Proof.
  intros HS HN HL HF. fix IH 1. intros [s|n|items|functor args].
  - apply HS.
  - apply HN.
  - apply HL. revert items. fix IHl 1. intros [|x l].
    + constructor.
    + constructor; [apply IH | apply IHl].
  - apply HF. revert args. fix IHl 1. intros [|x l].
    + constructor.
    + constructor; [apply IH | apply IHl].
Qed.

Section Rendering.
Context `{UnicodeData}.

Lemma prolog_name_functor functor args :
  prolog_name (JFunctor functor args) = Return functor.
Proof. reflexivity. Qed.

Lemma prolog_name_nonempty c s :
  prolog_name (JStr (c :: s)) = Return (c :: s).
Proof.
  unfold prolog_name. rewrite atom_of_nonempty, variable_of_nonempty.
  cbn [mbind outcome_bind].
  destruct (isupper c || (c =? UNDERSCORE)); reflexivity.
Qed.

Lemma quote_nonempty c s :
  exists q, quote_prolog_identifier (JStr (c :: s)) = Return (JStr q).
Proof.
  destruct (isupper c || (c =? UNDERSCORE)) eqn:E.
  - eexists. now apply quote_variable_text.
  - eexists. now apply quote_atom_text.
Qed.

Lemma well_named_str s :
  well_named (JStr s) = true -> exists c r, s = c :: r.
Proof. destruct s as [|c r]; [discriminate | eauto]. Qed.

(** A term without empty names always has a rendering. *)
Lemma json_to_prolog_total t :
  well_named t = true -> exists text, json_to_prolog t = Return text.
Proof.
  induction t as [s|n|items IH|functor args IH] using json_term_induction;
    intros Hw.
  - apply well_named_str in Hw as (c & r & ->).
    destruct (quote_nonempty c r) as [q Hq].
    exists q. cbn [json_to_prolog]. rewrite Hq. reflexivity.
  - eexists. reflexivity.
  - cbn [well_named] in Hw. cbn [json_to_prolog].
    assert (exists l,
      (fix each (items : list json_term) : outcome (list str) :=
         match items with
         | [] => Return []
         | item :: rest =>
             s ← json_to_prolog item; ss ← each rest; Return (s :: ss)
         end) items = Return l) as [l ->].
    { induction IH as [|x l Hx _ IHl]; [eexists; reflexivity|].
      cbn [forallb] in Hw. apply andb_true_iff in Hw as [Hx' Hl'].
      destruct (Hx Hx') as [tx ->]. destruct (IHl Hl') as [tl ->].
      eexists. reflexivity. }
    eexists. reflexivity.
  - cbn [well_named] in Hw. apply andb_true_iff in Hw as [Hf Hw].
    cbn [json_to_prolog].
    assert (exists l,
      (fix each (items : list json_term) : outcome (list str) :=
         match items with
         | [] => Return []
         | item :: rest =>
             s ← json_to_prolog item; ss ← each rest; Return (s :: ss)
         end) args = Return l) as [l ->].
    { induction IH as [|x l Hx _ IHl]; [eexists; reflexivity|].
      cbn [forallb] in Hw. apply andb_true_iff in Hw as [Hx' Hl'].
      destruct (Hx Hx') as [tx ->]. destruct (IHl Hl') as [tl ->].
      eexists. reflexivity. }
    destruct functor as [|c r]; [discriminate|].
    rewrite prolog_name_functor.
    destruct (quote_nonempty c r) as [q Hq].
    cbn [mbind outcome_bind]. rewrite Hq.
    eexists. reflexivity.
Qed.

(** The renderings the test suite of the library expects. *)
Lemma json_to_prolog_examples :
  json_to_prolog (JFunctor (py "a") [JStr (py "b"); JStr (py "c")])
  = Return (py "a(b, c)")
  /\ json_to_prolog
       (JList [JFunctor (py "a") [JFunctor (py "b") [JStr (py "d")]];
               JFunctor (py "b") [JStr (py "c")]])
     = Return (py "[a(b(d)), b(c)]")
  /\ json_to_prolog (JList [JStr (py "A"); JStr (py "_"); JNum 2])
     = Return (py "[A, _, 2]")
  /\ json_to_prolog (JFunctor (py "a") [JStr (py "_")])
     = Return (py "a(_)")
  /\ json_to_prolog
       (JFunctor (py "a b") [JList [JStr (py "1b"); JStr (py "a b")]])
     = Return (py "'a b'(['1b', 'a b'])").
Proof. repeat split; reflexivity. Qed.

(** [cls(exception(inner))] is built whenever [inner] has a rendering. *)
Lemma new_PrologError_built cls inner :
  well_named inner = true ->
  new_PrologError cls (exception_reply inner) = Return (Prolog cls inner).
Proof.
  intros Hw. destruct (json_to_prolog_total inner Hw) as [text Ht].
  unfold new_PrologError, exception_reply.
  rewrite prolog_name_functor. cbn. rewrite Ht. reflexivity.
Qed.

Lemma raise_new_built {A} cls inner m :
  well_named inner = true ->
  @raise_new _ A cls (exception_reply inner) m = (Raise (Prolog cls inner), m).
Proof.
  intros Hw. unfold raise_new. now rewrite new_PrologError_built.
Qed.
End Rendering.

(** ** The reply classifier *)

Section ClassifierFacts.
Context `{UnicodeData}.

Lemma name_is_functor functor args name m :
  name_is (JFunctor functor args) name m
  = (Return (str_eqb functor (py name)), m).
Proof. reflexivity. Qed.

Lemma arg0_is_first functor inner rest name m :
  arg0_is (JFunctor functor (inner :: rest)) name m
  = (Return (equals_str inner (py name)), m).
Proof. reflexivity. Qed.

Lemma bind_variables_bindings bindings d :
  bind_variables (binding_term <$> bindings) d
  = Return (foldl put_binding d bindings).
Proof.
  revert d. induction bindings as [|[v t] bs IH]; intros d; [reflexivity|].
  cbn. apply IH.
Qed.

Lemma foldl_put_binding bindings d :
  foldl put_binding d bindings
  = list_to_map (reverse (prod_map inl id <$> bindings)) ∪ d.
Proof.
  revert d. induction bindings as [|[v t] bs IH]; intros d.
  - cbn. now rewrite (left_id_L ∅ (∪)).
  - cbn [foldl]. rewrite IH. rewrite fmap_cons, reverse_cons.
    rewrite list_to_map_app. cbn [list_to_map foldr prod_map].
    rewrite <- (assoc_L (∪)). f_equal. unfold put_binding. cbn.
    rewrite insert_union_singleton_l.
    rewrite insert_empty. reflexivity.
Qed.

Lemma collect_answers_answers answers answerList :
  collect_answers (answer_term <$> answers) answerList
  = Return (answerList ++ (answer_of <$> answers)).
Proof.
  revert answerList.
  induction answers as [|bs rest IH]; intros answerList.
  - cbn. now rewrite app_nil_r.
  - rewrite fmap_cons. cbn [collect_answers answer_term len].
    cbn [mbind outcome_bind]. rewrite length_fmap.
    destruct bs as [|b bs'].
    + cbn [length Nat.eqb]. rewrite IH. cbn [fmap list_fmap answer_of].
      now rewrite <- app_assoc.
    + cbn [length Nat.eqb].
      change (iterate (answer_term (b :: bs')))
        with (Return (binding_term <$> (b :: bs'))).
      cbn [mbind outcome_bind].
      rewrite bind_variables_bindings. cbn [mbind outcome_bind].
      rewrite IH, foldl_put_binding, (right_id_L ∅ (∪)).
      rewrite <- app_assoc. reflexivity.
Qed.

Lemma answer_of_true bindings :
  answer_of bindings = AnswerTrue <-> bindings = [].
Proof. destruct bindings; split; intros; (reflexivity || discriminate). Qed.

Lemma is_single_true_answers answers :
  is_single_true (answer_of <$> answers) = true <-> answers = [[]].
Proof.
  destruct answers as [|bs [|bs' rest]]; cbn.
  - split; discriminate.
  - destruct bs; cbn; split; intros; (reflexivity || discriminate).
  - destruct bs; cbn; split; discriminate.
Qed.

Lemma classify_false args m :
  classify_response (JFunctor (py "false") args) m = (Return PyFalse, m).
Proof. reflexivity. Qed.

Lemma classify_true answers m :
  classify_response (true_reply answers) m
  = (Return (value_of_answers answers), m).
Proof.
  unfold classify_response, true_reply, mbind, M_bind.
  rewrite !name_is_functor.
  change (str_eqb (py "true") (py "exception")) with false.
  change (str_eqb (py "true") (py "false")) with false.
  change (str_eqb (py "true") (py "true")) with true.
  cbn [lift prolog_args item lookup list_lookup or_raise iterate].
  rewrite collect_answers_answers. cbn [app].
  destruct (is_single_true (answer_of <$> answers)) eqn:E.
  - apply is_single_true_answers in E as ->. reflexivity.
  - unfold value_of_answers.
    destruct answers as [|[|b bs] [|bs' rest]]; try reflexivity.
    discriminate.
Qed.

(** What [classify_response] does with [exception(inner)]. *)
Lemma classify_exception inner m :
  well_named inner = true ->
  classify_response (exception_reply inner) m
  = if equals_str inner (py "no_more_results") then (Return PyNone, m)
    else if equals_str inner (py "connection_failed") then
      (Raise (Prolog PrologConnectionFailedError inner),
       with_server (set_connection_failed true (server m)) m)
    else
      (Raise (Prolog
         (if equals_str inner (py "time_limit_exceeded")
          then PrologQueryTimeoutError
          else if equals_str inner (py "no_query") then PrologNoQueryError
          else if equals_str inner (py "cancel_goal")
          then PrologQueryCancelledError
          else if equals_str inner (py "result_not_available")
          then PrologResultNotAvailableError
          else PrologError) inner), m).
Proof.
  intros Hw.
  unfold classify_response, exception_reply, mbind, M_bind.
  rewrite name_is_functor.
  change (str_eqb (py "exception") (py "exception")) with true.
  assert (R : forall cls m',
    @raise_new _ pyvalue cls (JFunctor (py "exception") [inner]) m'
    = (Raise (Prolog cls inner), m')).
  { intros cls m'. now apply raise_new_built. }
  cbv beta iota. rewrite arg0_is_first.
  destruct (equals_str inner (py "no_more_results")); [reflexivity|].
  cbv beta iota. rewrite arg0_is_first.
  destruct (equals_str inner (py "connection_failed")).
  { unfold mark_connection_failed, modify. cbv beta iota. now rewrite R. }
  repeat (cbv beta iota; rewrite arg0_is_first;
          match goal with
          | |- context [if equals_str inner ?s then _ else _] =>
              destruct (equals_str inner s); [now rewrite R|]
          end).
  now rewrite R.
Qed.

Lemma equals_str_true inner s :
  equals_str inner s = true <-> inner = JStr s.
Proof.
  destruct inner; cbn; try (split; discriminate).
  unfold str_eqb. rewrite bool_decide_eq_true.
  split; [now intros -> | now intros [= ->]].
Qed.

Lemma equals_str_false inner s :
  inner <> JStr s -> equals_str inner s = false.
Proof.
  intros Hne. destruct (equals_str inner s) eqn:E; [|reflexivity].
  now apply equals_str_true in E.
Qed.

(** The dictionary of an answer whose variables are distinct holds
    exactly its bindings. *)
Lemma answer_dict_lookup (bindings : list (str * json_term)) v t :
  NoDup bindings.*1 ->
  (list_to_map (reverse (prod_map inl id <$> bindings))
     : gmap (str + Z) json_term) !! inl v = Some t
  <-> (v, t) ∈ bindings.
Proof.
  intros Hnd.
  rewrite <- elem_of_list_to_map.
  - rewrite elem_of_reverse, list_elem_of_fmap. split.
    + intros ([v' t'] & [= <- <-] & Hin). exact Hin.
    + intros Hin. now exists (v, t).
  - rewrite fmap_reverse, reverse_Permutation.
    assert (E : (prod_map inl id <$> bindings).*1
                = (inl <$> bindings.*1 : list (str + Z))).
    { clear Hnd. induction bindings as [|[a b] l IH]; [reflexivity|].
      cbn. f_equal. exact IH. }
    rewrite E. now apply (NoDup_fmap_2 inl).
Qed.

(** On a well-formed reply the classifier gives exactly one of the
    defined values.  [false] gives [False].  [true] around a list of
    binding lists gives the bare [True] exactly when that list is
    [[[]]]; otherwise it gives a list with one element for each binding
    list, [True] for an empty one and a dictionary for a non-empty one,
    so that several empty binding lists give a list of [True].  Every
    well-formed reply returns a value or raises one [PrologError], and
    only a [connection_failed] reply touches the state. *)
Theorem classify_well_formed_reply reply m :
  well_formed_reply reply ->
  (reply = false_reply -> classify_response reply m = (Return PyFalse, m))
  /\ (forall answers, reply = true_reply answers ->
        classify_response reply m = (Return (value_of_answers answers), m)
        /\ (value_of_answers answers = PyTrue <-> answers = [[]])
        /\ (answers <> [[]] ->
            value_of_answers answers = PyList (answer_of <$> answers)
            /\ length (answer_of <$> answers) = length answers
            /\ (Forall (fun bindings => bindings = []) answers ->
                answer_of <$> answers
                = replicate (length answers) AnswerTrue)
            /\ (forall i bindings, answers !! i = Some bindings ->
                  (answer_of <$> answers) !! i = Some (answer_of bindings)
                  /\ (answer_of bindings = AnswerTrue <-> bindings = []))))
  /\ exists m',
       (exists v, classify_response reply m = (Return v, m'))
       \/ (exists cls inner,
             classify_response reply m = (Raise (Prolog cls inner), m')).
Proof.
  intros Hwf. split; [|split].
  - intros ->. apply classify_false.
  - intros answers ->. split; [apply classify_true|]. split.
    + unfold value_of_answers.
      destruct answers as [|[|b bs] [|bs' rest]];
        split; intros; (reflexivity || discriminate).
    + intros Hne. split; [|split; [|split]].
      * unfold value_of_answers.
        destruct answers as [|[|b bs] [|bs' rest]]; try reflexivity.
        now destruct Hne.
      * apply length_fmap.
      * intros Hall. clear Hne Hwf.
        induction Hall as [|bs rest -> _ IH]; [reflexivity|].
        cbn. now rewrite IH.
      * intros i bindings Hi. split; [|apply answer_of_true].
        now rewrite list_lookup_fmap, Hi.
  - destruct Hwf as [|answers|inner Hw].
    + exists m. left. eexists. apply classify_false.
    + exists m. left. eexists. apply classify_true.
    + rewrite (classify_exception inner m Hw).
      destruct (equals_str inner (py "no_more_results"));
        [exists m; left; eauto|].
      destruct (equals_str inner (py "connection_failed"));
        eexists; right; eauto.
Qed.

(** C1, on an input the code gets wrong: the reply [exception('')],
    whose inner term is the empty atom.  No inner term of the six is
    matched, so the classifier builds a [PrologError]; the constructor
    renders the inner term, the rendering indexes the first character
    of the empty atom, and what leaves [_return_prolog_response] is
    that [IndexError]: neither a value nor one of the errors of the
    library, for every error class and from every state. *)
Theorem exception_of_empty_atom_raises_IndexError m :
  json_to_prolog (JStr []) = Raise IndexError
  /\ (forall cls,
        new_PrologError cls (exception_reply (JStr [])) = Raise IndexError)
  /\ classify_response (exception_reply (JStr [])) m = (Raise IndexError, m).
Proof. split; [reflexivity|]. split; [intros cls|]; reflexivity. Qed.
End ClassifierFacts.

Lemma classify_well_formed_reply_witness :
  well_formed_reply (true_reply [[(py "X", JStr (py "a"))]; []])
  /\ @classify_response ascii_only
       (true_reply [[(py "X", JStr (py "a"))]; []]) (session [] None)
     = (Return (PyList [AnswerDict {[ inl (py "X") := JStr (py "a") ]};
                        AnswerTrue]),
        session [] None).
Proof.
  split; [apply reply_true|].
  pose proof (@classify_well_formed_reply ascii_only
                (true_reply [[(py "X", JStr (py "a"))]; []])
                (session [] None) (reply_true _)) as (_ & Htrue & _).
  destruct (Htrue _ eq_refl) as [-> _].
  reflexivity.
Defined.

Section ExceptionReplies.
Context `{UnicodeData}.

Lemma not_reserved inner s :
  inner ∉ reserved_atoms -> JStr (py s) ∈ reserved_atoms ->
  equals_str inner (py s) = false.
Proof.
  intros Hn Hin. apply equals_str_false. intros ->. now apply Hn.
Qed.

(** C2, as the code has it: the classifier compares the inner term
    itself with six atoms.  [no_more_results] returns [None];
    [connection_failed], [time_limit_exceeded], [no_query], [cancel_goal]
    and [result_not_available] raise their own error class; every other
    inner term, a compound carrying one of these names included, raises
    [PrologError].  The raised error holds the inner term, renders it
    with [prolog()], and [is_prolog_exception] compares the name of an
    inner atom, variable or compound.  Stated for inner terms in which
    every name has a first character. *)
Theorem classify_exception_reply inner m :
  well_named inner = true ->
  (inner = JStr (py "no_more_results") ->
     classify_response (exception_reply inner) m = (Return PyNone, m))
  /\ (inner = JStr (py "connection_failed") ->
        classify_response (exception_reply inner) m
        = (Raise (Prolog PrologConnectionFailedError inner),
           with_server (set_connection_failed true (server m)) m))
  /\ (inner = JStr (py "time_limit_exceeded") ->
        classify_response (exception_reply inner) m
        = (Raise (Prolog PrologQueryTimeoutError inner), m))
  /\ (inner = JStr (py "no_query") ->
        classify_response (exception_reply inner) m
        = (Raise (Prolog PrologNoQueryError inner), m))
  /\ (inner = JStr (py "cancel_goal") ->
        classify_response (exception_reply inner) m
        = (Raise (Prolog PrologQueryCancelledError inner), m))
  /\ (inner = JStr (py "result_not_available") ->
        classify_response (exception_reply inner) m
        = (Raise (Prolog PrologResultNotAvailableError inner), m))
  /\ (inner ∉ reserved_atoms ->
        classify_response (exception_reply inner) m
        = (Raise (Prolog PrologError inner), m))
  /\ forall cls,
       PrologError_json (Prolog cls inner) = Return inner
       /\ (exists text, PrologError_prolog (Prolog cls inner) = Return text)
       /\ (has_name inner = true ->
           exists name,
             prolog_name inner = Return name
             /\ forall term_name,
                  is_prolog_exception (Prolog cls inner) term_name
                  = Return (str_eqb name term_name)).
Proof.
  intros Hw. pose proof (classify_exception inner m Hw) as C.
  repeat split.
  1-6: intros ->; exact C.
  - intros Hn. rewrite C.
    rewrite !(not_reserved inner _ Hn); [reflexivity|..];
      unfold reserved_atoms; set_solver.
  - cbn. now apply json_to_prolog_total.
  - intros Hname. destruct inner as [s| |l|functor args]; try discriminate.
    + apply well_named_str in Hw as (c & r & ->).
      exists (c :: r). split; [apply prolog_name_nonempty|].
      intros term_name. cbn [is_prolog_exception].
      now rewrite prolog_name_nonempty.
    + exists functor. split; [reflexivity|]. reflexivity.
Qed.
End ExceptionReplies.

(** C2 fails as stated: an inner compound named [no_query] is answered
    with the generic [PrologError], not with [PrologNoQueryError]. *)
Lemma compound_no_query_raises_generic_error :
  @prolog_name ascii_only no_query_compound = Return (py "no_query")
  /\ (@classify_response ascii_only (exception_reply no_query_compound)
        (session [] None)).1
     = Raise (Prolog PrologError no_query_compound)
  /\ (@classify_response ascii_only (exception_reply no_query_compound)
        (session [] None)).1
     <> Raise (Prolog PrologNoQueryError no_query_compound).
Proof.
  split; [reflexivity|].
  assert (E : (@classify_response ascii_only
                 (exception_reply no_query_compound) (session [] None)).1
              = Raise (Prolog PrologError no_query_compound))
    by (vm_compute; reflexivity).
  split; [exact E|]. rewrite E. discriminate.
Qed.

Lemma classify_exception_reply_witness :
  well_named (JStr (py "cancel_goal")) = true
  /\ @classify_response ascii_only
       (exception_reply (JStr (py "cancel_goal"))) (session [] None)
     = (Raise (Prolog PrologQueryCancelledError (JStr (py "cancel_goal"))),
        session [] None).
Proof.
  split; [reflexivity|].
  pose proof (@classify_exception_reply ascii_only
                (JStr (py "cancel_goal")) (session [] None) eq_refl)
    as (_ & _ & _ & _ & Hc & _).
  exact (Hc eq_refl).
Defined.

(** ** Decimal numerals *)

Lemma int_digits_value s acc after_digit :
  Forall (fun c => isdigit c = true) s ->
  s <> [] \/ after_digit = true ->
  int_digits s acc after_digit = Some (foldl digit_step acc s).
Proof.
  intros Hs. revert acc after_digit.
  induction Hs as [|c s Hc _ IH]; intros acc after_digit Hne.
  - destruct Hne as [Hne | ->]; [now destruct Hne | reflexivity].
  - cbn [int_digits foldl]. rewrite Hc. apply IH. now right.
Qed.

Lemma digits_from_app fuel n acc :
  digits_from fuel n acc = digits_from fuel n [] ++ acc.
Proof.
  revert n acc. induction fuel as [|fuel IH]; intros n acc; [reflexivity|].
  cbn [digits_from]. destruct (n <? 10); [reflexivity|].
  rewrite (IH _ (_ :: acc)), (IH _ [_]). now rewrite <- app_assoc.
Qed.

Lemma digits_from_digits fuel n :
  Forall (fun c => isdigit c = true) (digits_from fuel n []).
Proof.
  revert n. induction fuel as [|fuel IH]; intros n; [constructor|].
  assert (Hd : isdigit (48 + n mod 10) = true).
  { clear IH. unfold isdigit, between.
    assert (Hm : n mod 10 < 10) by now apply N.mod_upper_bound.
    generalize dependent (n mod 10). intros d Hm.
    apply andb_true_iff. split; apply N.leb_le; lia. }
  cbn [digits_from]. destruct (n <? 10); [now repeat constructor|].
  rewrite digits_from_app. apply Forall_app. split; [apply IH|].
  now repeat constructor.
Qed.

Lemma digits_from_nonempty fuel n : digits_from (S fuel) n [] <> [].
Proof.
  cbn [digits_from]. destruct (n <? 10); [discriminate|].
  rewrite digits_from_app. intros E. now apply app_eq_nil in E as [_ ?].
Qed.

Lemma digits_from_value fuel n :
  n < 2 ^ N.of_nat fuel ->
  foldl digit_step 0 (digits_from fuel n []) = n.
Proof.
  revert n. induction fuel as [|fuel IH]; intros n Hn.
  - cbn in Hn. cbn. lia.
  - cbn [digits_from]. destruct (n <? 10) eqn:E.
    + apply N.ltb_lt in E. cbn. unfold digit_step.
      rewrite N.mod_small by lia. lia.
    + apply N.ltb_ge in E. rewrite digits_from_app, foldl_app.
      rewrite IH.
      * cbn. unfold digit_step.
        pose proof (N.div_mod n 10 ltac:(discriminate)) as Hdm.
        generalize dependent (n mod 10). generalize dependent (n / 10).
        intros. lia.
      * rewrite Nat2N.inj_succ, N.pow_succ_r' in Hn.
        apply N.Div0.div_lt_upper_bound.
        generalize dependent (2 ^ N.of_nat fuel). intros. lia.
Qed.

Lemma str_of_N_digits n : Forall (fun c => isdigit c = true) (str_of_N n).
Proof. apply digits_from_digits. Qed.

Lemma str_of_N_nonempty n : str_of_N n <> [].
Proof. apply digits_from_nonempty. Qed.

Lemma str_of_N_value n : foldl digit_step 0 (str_of_N n) = n.
Proof.
  apply digits_from_value. rewrite Nat2N.inj_succ, N2Nat.id.
  destruct n as [|p]; [reflexivity|].
  apply N.log2_spec. lia.
Qed.

Lemma isdigit_not_space c : isdigit c = true -> isspace c = false.
Proof.
  unfold isdigit, isspace, between. intros Hd.
  apply andb_true_iff in Hd as [H1 H2].
  apply N.leb_le in H1. apply N.leb_le in H2.
  repeat match goal with
  | |- context [?a <=? ?b] =>
      destruct (N.leb_spec a b); try lia
  | |- context [?a =? ?b] =>
      destruct (N.eqb_spec a b); try lia
  end; reflexivity.
Qed.

Lemma lstrip_by_head p c s : p c = false -> lstrip_by p (c :: s) = c :: s.
Proof. intros Hc. cbn. now rewrite Hc. Qed.

Lemma rstrip_by_last p s c :
  p c = false -> rstrip_by p (s ++ [c]) = s ++ [c].
Proof.
  intros Hc. unfold rstrip_by. rewrite reverse_app, reverse_singleton.
  cbn [app]. rewrite lstrip_by_head by exact Hc.
  now rewrite reverse_cons, reverse_involutive.
Qed.

(** Whitespace is only stripped where there is some. *)
Lemma strip_digits s :
  Forall (fun c => isdigit c = true) s -> strip s = s.
Proof.
  intros Hs. unfold strip. destruct s as [|c s]; [reflexivity|].
  rewrite lstrip_by_head
    by (apply isdigit_not_space; now inversion Hs).
  destruct (exists_last (l:=c :: s) ltac:(discriminate)) as (s' & d & E).
  rewrite E in *. apply rstrip_by_last, isdigit_not_space.
  apply Forall_app in Hs as [_ Hd]. now inversion Hd.
Qed.

Lemma isdigit_not_int_space c : isdigit c = true -> int_space c = false.
Proof.
  intros Hd. unfold int_space. now rewrite isdigit_not_space.
Qed.

(** [int] skips no digit. *)
Lemma int_blanks_digits s :
  Forall (fun c => isdigit c = true) s ->
  rstrip_by int_space (lstrip_by int_space s) = s.
Proof.
  intros Hs. destruct s as [|c s]; [reflexivity|].
  rewrite lstrip_by_head
    by (apply isdigit_not_int_space; now inversion Hs).
  destruct (exists_last (l:=c :: s) ltac:(discriminate)) as (s' & d & E).
  rewrite E in *. apply rstrip_by_last, isdigit_not_int_space.
  apply Forall_app in Hs as [_ Hd]. now inversion Hd.
Qed.

(** [int(str(n)) == n] *)
Lemma int_of_str_of_N n : int_of_str (str_of_N n) = Some (Z.of_N n).
Proof.
  unfold int_of_str. rewrite int_blanks_digits by apply str_of_N_digits.
  pose proof (str_of_N_digits n) as Hd.
  pose proof (str_of_N_nonempty n) as Hne.
  pose proof (str_of_N_value n) as Hv.
  assert (E : int_digits (str_of_N n) 0 false = Some n).
  { rewrite int_digits_value by auto. now rewrite Hv. }
  destruct (str_of_N n) as [|c s]; [now destruct Hne|].
  assert (Hc : isdigit c = true) by now inversion Hd.
  unfold isdigit, between in Hc. apply andb_true_iff in Hc as [H1 H2].
  apply N.leb_le in H1. apply N.leb_le in H2.
  destruct c as [|p]; [lia|].
  do 6 (destruct p as [p|p|]; try lia; try (now rewrite E)).
Qed.

(** ** Trimming *)

Lemma lstrip_by_spec p s :
  exists lead,
    s = lead ++ lstrip_by p s
    /\ Forall (fun c => p c = true) lead
    /\ forall c, head (lstrip_by p s) = Some c -> p c = false.
Proof.
  induction s as [|c s (lead & E & Hl & Hh)].
  - exists []. repeat split; [constructor | discriminate].
  - cbn [lstrip_by]. destruct (p c) eqn:Hc.
    + exists (c :: lead). repeat split.
      * cbn. now f_equal.
      * now constructor.
      * exact Hh.
    + exists []. repeat split; [constructor|].
      intros c' [= <-]. exact Hc.
Qed.

Lemma rstrip_by_spec p s :
  exists trail,
    s = rstrip_by p s ++ trail
    /\ Forall (fun c => p c = true) trail
    /\ forall c, last (rstrip_by p s) = Some c -> p c = false.
Proof.
  destruct (lstrip_by_spec p (reverse s)) as (lead & E & Hl & Hh).
  exists (reverse lead). unfold rstrip_by. repeat split.
  - rewrite <- reverse_app, <- E. now rewrite reverse_involutive.
  - now apply Forall_reverse.
  - intros c. rewrite last_reverse. apply Hh.
Qed.

Lemma in_chars_lf_dot c :
  in_chars [LF; DOT] c = true <-> c = LF \/ c = DOT.
Proof.
  unfold in_chars. cbn. rewrite orb_false_r, orb_true_iff, !N.eqb_eq.
  reflexivity.
Qed.

(** What [normalized] keeps of the text. *)
Lemma normalized_spec value :
  exists lead dots trail,
    value = lead ++ normalized value ++ dots ++ trail
    /\ Forall (fun c => isspace c = true) lead
    /\ Forall (fun c => isspace c = true) trail
    /\ Forall (fun c => c = LF \/ c = DOT) dots
    /\ (forall c, last (normalized value) = Some c -> c <> LF /\ c <> DOT).
Proof.
  unfold normalized, strip, rstrip.
  destruct (lstrip_by_spec isspace value) as (lead & E1 & Hlead & _).
  destruct (rstrip_by_spec isspace (lstrip_by isspace value))
    as (trail & E2 & Htrail & _).
  destruct (rstrip_by_spec (in_chars [LF; DOT])
              (rstrip_by isspace (lstrip_by isspace value)))
    as (dots & E3 & Hdots & Hlast).
  exists lead, dots, trail. repeat split; try assumption.
  - etransitivity; [exact E1|]. f_equal.
    etransitivity; [exact E2|]. rewrite (app_assoc _ dots trail).
    f_equal. exact E3.
  - eapply Forall_impl; [exact Hdots|]. intros c. apply in_chars_lf_dot.
  - intros ->. specialize (Hlast _ H). discriminate.
  - intros ->. specialize (Hlast _ H). discriminate.
Qed.

(** ** UTF-8 encoding of what is sent *)

Lemma utf8_encode_app a b :
  utf8_encode (a ++ b)
  = (x ← utf8_encode a; y ← utf8_encode b; Some (x ++ y)).
Proof.
  induction a as [|c a IH]; cbn.
  - now destruct (utf8_encode b).
  - destruct (is_scalar c); [|reflexivity].
    rewrite IH. destruct (utf8_encode a); cbn; [|reflexivity].
    destruct (utf8_encode b); cbn; [|reflexivity].
    now rewrite app_assoc.
Qed.

Lemma utf8_encode_scalars s :
  Forall (fun c => is_scalar c = true) s <-> is_Some (utf8_encode s).
Proof.
  induction s as [|c s IH]; cbn.
  - split; [eauto | constructor].
  - rewrite Forall_cons. destruct (is_scalar c).
    + rewrite IH, fmap_is_Some. tauto.
    + split; [intros [[=] _] | intros [? [=]]].
Qed.

Lemma utf8_encode_ascii s :
  Forall (fun c => c < 128) s -> utf8_encode s = Some (byte_of <$> s).
Proof.
  induction 1 as [|c s Hc _ IH]; [reflexivity|].
  cbn [utf8_encode]. rewrite IH.
  assert (is_scalar c = true) as ->.
  { unfold is_scalar, is_surrogate, between.
    destruct (N.ltb_spec c 1114112); [|lia].
    destruct (N.leb_spec 55296 c); [lia|]. reflexivity. }
  cbn. unfold utf8_encode_codepoint.
  destruct (N.ltb_spec c 128); [reflexivity | lia].
Qed.

Lemma digit_is_ascii c : isdigit c = true -> c < 128.
Proof.
  unfold isdigit, between. intros Hd.
  apply andb_true_iff in Hd as [_ H2]. apply N.leb_le in H2. lia.
Qed.

Lemma header_text_ascii n : Forall (fun c => c < 128) (str_of_N n ++ [DOT; LF]).
Proof.
  apply Forall_app. split.
  - eapply Forall_impl; [apply str_of_N_digits|]. apply digit_is_ascii.
  - repeat constructor.
Qed.

(** ** Scanning the length header *)

Lemma to_N_byte_of n : n < 256 -> Byte.to_N (byte_of n) = n.
Proof.
  intros Hn. unfold byte_of. destruct (Byte.of_N n) eqn:E.
  - now apply Byte.to_of_N.
  - apply Byte.of_N_None_iff in E. lia.
Qed.

Lemma to_N_byte_of_ascii s :
  Forall (fun c => c < 128) s -> Byte.to_N <$> (byte_of <$> s) = s.
Proof.
  induction 1 as [|c s Hc _ IH]; [reflexivity|].
  cbn. rewrite to_N_byte_of by lia. f_equal. exact IH.
Qed.

Lemma scan_header_prefix c sizeBytes :
  Forall (fun x => Byte.to_N x <> 10) c ->
  scan_header c sizeBytes = Return (sizeBytes ++ without_dots c, None).
Proof.
  intros Hc. revert sizeBytes.
  induction Hc as [|x c Hx _ IH]; intros sizeBytes.
  - cbn. now rewrite app_nil_r.
  - cbn [scan_header without_dots List.filter].
    destruct (Byte.to_N x =? 46) eqn:Edot; cbn [negb].
    + apply IH.
    + apply N.eqb_neq in Hx. rewrite Hx, IH.
      now rewrite <- app_assoc.
Qed.

Lemma scan_header_newline c rest sizeBytes :
  Forall (fun x => Byte.to_N x <> 10) c ->
  scan_header (c ++ x0a :: rest) sizeBytes
  = (amount_expected ←
       or_raise ValueError
         (int_of_str (Byte.to_N <$> (sizeBytes ++ without_dots c)));
     Return (sizeBytes ++ without_dots c, Some (amount_expected, rest))).
Proof.
  intros Hc. revert sizeBytes.
  induction Hc as [|x c Hx _ IH]; intros sizeBytes.
  - cbn. now rewrite app_nil_r.
  - cbn [app scan_header without_dots List.filter].
    destruct (Byte.to_N x =? 46) eqn:Edot; cbn [negb].
    + apply IH.
    + apply N.eqb_neq in Hx. rewrite Hx, IH.
      now rewrite <- app_assoc.
Qed.

Lemma digit_bytes_no_newline s :
  Forall (fun c => isdigit c = true) s ->
  Forall (fun x => Byte.to_N x <> 10) (byte_of <$> s)
  /\ without_dots (byte_of <$> s) = byte_of <$> s.
Proof.
  induction 1 as [|c s Hc _ [IH1 IH2]]; [split; [constructor|reflexivity]|].
  unfold isdigit, between in Hc. apply andb_true_iff in Hc as [H1 H2].
  apply N.leb_le in H1. apply N.leb_le in H2.
  assert (E : Byte.to_N (byte_of c) = c) by (apply to_N_byte_of; lia).
  split.
  - constructor; [rewrite E; lia | exact IH1].
  - cbn. rewrite E. destruct (N.eqb_spec c 46); [lia|].
    cbn. f_equal. exact IH2.
Qed.

(** The receiver reads from the header of [_send] the length it was built
    from, and takes what follows the newline as the start of the body. *)
Lemma scan_wire_header n rest :
  scan_header (wire_header n ++ rest) []
  = Return (byte_of <$> str_of_N (N.of_nat n), Some (Z.of_nat n, rest)).
Proof.
  unfold wire_header. rewrite fmap_app.
  change (byte_of <$> [DOT; LF]) with ([x2e] ++ [x0a]).
  rewrite <- !app_assoc. rewrite (app_assoc _ [x2e]).
  cbn [app].
  destruct (digit_bytes_no_newline _ (str_of_N_digits (N.of_nat n)))
    as [Hnl Hnd].
  rewrite scan_header_newline.
  - rewrite app_nil_l. unfold without_dots.
    rewrite List.filter_app. fold (without_dots (byte_of <$> str_of_N (N.of_nat n))).
    rewrite Hnd. cbn [List.filter Byte.to_N N.eqb Pos.eqb negb].
    rewrite app_nil_r.
    rewrite to_N_byte_of_ascii
      by (eapply Forall_impl; [apply str_of_N_digits | apply digit_is_ascii]).
    rewrite int_of_str_of_N. cbn. now rewrite nat_N_Z.
  - apply Forall_app. split; [exact Hnl|]. now repeat constructor.
Qed.

(** ** Sending *)

Lemma socket_sendall_ok data m s :
  _socket (thread m) = Some s -> connected s = true -> can_send 1 s ->
  socket_sendall data m
  = (Return tt,
     with_world (record (Sendall data) (world m))
       (with_thread
          (set_socket
             (Some {| connected := true; inbox := inbox s;
                      outbox := outbox s ++ [data];
                      send_budget := pred <$> send_budget s |})
             (thread m)) m)).
Proof.
  intros Hs Hc Hb. unfold socket_sendall. rewrite Hs, Hc. cbn [negb].
  unfold can_send in Hb. destruct (send_budget s) as [[|b]|]; try reflexivity.
  lia.
Qed.

(** C5, as the code has it: for every text that UTF-8 can encode,
    [_send] writes on a connection that accepts two more writes first
    the header and then the body.  The body is the UTF-8 encoding of
    the text with the surrounding whitespace trimmed and the trailing
    dots and newlines dropped, followed by a dot and a newline; the
    header is the decimal length of the body in bytes, a dot and a
    newline; and the receiver reads that length back from it. *)
Theorem send_writes_frame value m s :
  _socket (thread m) = Some s -> connected s = true -> can_send 2 s ->
  Forall (fun c => is_scalar c = true) value ->
  exists body,
    utf8_encode (normalized value ++ [DOT; LF]) = Some body
    /\ (_send value m).1 = Return tt
    /\ outbox <$> _socket (thread (_send value m).2)
       = Some (outbox s ++ [wire_header (length body); body])
    /\ log (world (_send value m).2)
       = log (world m) ++ [Sendall (wire_header (length body)); Sendall body]
    /\ wire_header (length body)
       = byte_of <$> (str_of_N (N.of_nat (length body)) ++ [DOT; LF])
    /\ scan_header (wire_header (length body) ++ body) []
       = Return (byte_of <$> str_of_N (N.of_nat (length body)),
                 Some (Z.of_nat (length body), body))
    /\ exists lead dots trail,
         value = lead ++ normalized value ++ dots ++ trail
         /\ Forall (fun c => isspace c = true) lead
         /\ Forall (fun c => isspace c = true) trail
         /\ Forall (fun c => c = LF \/ c = DOT) dots
         /\ (forall c, last (normalized value) = Some c ->
               c <> LF /\ c <> DOT).
Proof.
  intros Hs Hc Hb Hv.
  destruct (normalized_spec value) as (lead & dots & trail & E & Hn).
  assert (Henc : is_Some (utf8_encode (normalized value ++ [DOT; LF]))).
  { apply utf8_encode_scalars. apply Forall_app. split.
    - rewrite E in Hv. apply Forall_app in Hv as [_ Hv].
      now apply Forall_app in Hv as [Hv _].
    - now repeat constructor. }
  destruct Henc as [body Hbody]. exists body.
  assert (Hrun : _send value m
    = (Return tt,
       with_world
         (record (Sendall body)
            (record (Sendall (wire_header (length body))) (world m)))
         (with_thread
            (set_socket
               (Some {| connected := true; inbox := inbox s;
                        outbox := (outbox s ++ [wire_header (length body)])
                                  ++ [body];
                        send_budget := pred <$> (pred <$> send_budget s) |})
               (thread m)) m))).
  { unfold _send, mbind, M_bind. fold (normalized value).
    rewrite Hbody. cbn [lift or_raise].
    rewrite (utf8_encode_ascii _ (header_text_ascii _)).
    fold (wire_header (length body)). cbn [or_raise].
    rewrite (socket_sendall_ok _ m s Hs Hc)
      by (unfold can_send in *; destruct (send_budget s); [lia | exact I]).
    match goal with
    | |- context [socket_sendall body ?m1] =>
        rewrite (socket_sendall_ok body m1 _ eq_refl eq_refl)
    end; [reflexivity|].
    unfold can_send in *; cbn. destruct (send_budget s); cbn; [lia | exact I]. }
  rewrite Hrun. cbn [fst snd].
  split; [exact Hbody|]. split; [reflexivity|].
  split; [cbn; now rewrite <- app_assoc|].
  split; [cbn; now rewrite <- app_assoc|].
  split; [reflexivity|].
  split; [apply scan_wire_header|].
  exists lead, dots, trail. split; [exact E | exact Hn].
Qed.

Lemma send_writes_frame_witness :
  exists body,
    utf8_encode (normalized (py " hello..  ") ++ [DOT; LF]) = Some body
    /\ outbox <$> _socket (thread (_send (py " hello..  ")
                                     (session [] (Some 2%nat))).2)
       = Some ([] ++ [wire_header (length body); body])
    /\ body = ascii_bytes "hello." ++ [x0a].
Proof.
  destruct (send_writes_frame (py " hello..  ") (session [] (Some 2%nat)) _
              eq_refl eq_refl (le_n 2))
    as (body & Hb & _ & Hout & _).
  { repeat constructor. }
  exists body. split; [exact Hb|]. split; [exact Hout|].
  vm_compute in Hb. now injection Hb as <-.
Defined.

(** C5 fails as stated, for every input text: a text that holds a lone
    surrogate has no UTF-8 encoding, [_send] raises
    [UnicodeEncodeError] at [encode] and nothing is written. *)
Lemma lone_surrogate_is_not_sent :
  (_send (py "a" ++ [55296]) (session [] None)).1 = Raise UnicodeEncodeError
  /\ outbox <$> _socket (thread (_send (py "a" ++ [55296])
                                     (session [] None)).2)
     = Some []
  /\ log (world (_send (py "a" ++ [55296]) (session [] None)).2) = [].
Proof. vm_compute. repeat split; reflexivity. Qed.

(** ** Receiving *)

Lemma socket_recv_eof n m :
  reading m [] -> socket_recv n m = (Return [], m).
Proof.
  intros (s & Hs & Hc & Hi). unfold socket_recv. now rewrite Hs, Hc, Hi.
Qed.

Lemma socket_recv_chunk m chunk rest :
  reading m (Data chunk :: rest) ->
  exists m',
    socket_recv 4096 m = (Return (recv_split chunk).1, m')
    /\ reading m' ((Data <$> (recv_split chunk).2) ++ rest)
    /\ server m' = server m /\ world m' = world m.
Proof.
  intros (s & Hs & Hc & Hi). unfold socket_recv, recv_split.
  rewrite Hs, Hc, Hi. cbn [negb].
  destruct (length chunk <=? 4096)%nat; eexists; (split; [reflexivity|]);
    (split; [|split; reflexivity]); eexists; cbn; repeat split.
Qed.

Lemma recv_split_concat chunk :
  (recv_split chunk).1 ++ concat (recv_split chunk).2 = chunk.
Proof.
  unfold recv_split. destruct (length chunk <=? 4096)%nat; cbn.
  - apply app_nil_r.
  - rewrite app_nil_r. apply take_drop.
Qed.

Lemma recv_split_smaller chunk rest :
  (stream_size ((recv_split chunk).2 ++ rest) < stream_size (chunk :: rest))%nat.
Proof.
  unfold recv_split, stream_size.
  destruct (Nat.leb_spec (length chunk) 4096); cbn [snd app concat length].
  - rewrite length_app. lia.
  - rewrite !length_app, length_drop. lia.
Qed.

Lemma receive_loop_done fuel received expected acc sizeBytes m :
  (received <? expected)%Z = false ->
  receive_loop fuel received (Some expected) acc sizeBytes m = (Return acc, m).
Proof. intros E. destruct fuel; cbn; now rewrite E. Qed.

Lemma receive_loop_body_step fuel received expected acc sizeBytes m data m' :
  (received <? expected)%Z = true ->
  socket_recv 4096 m = (Return data, m') ->
  receive_loop (S fuel) received (Some expected) acc sizeBytes m
  = receive_loop fuel (received + Z.of_nat (length data))%Z (Some expected)
      (acc ++ data) sizeBytes m'.
Proof.
  intros E R. cbn [receive_loop]. rewrite E.
  unfold mbind, M_bind. now rewrite R.
Qed.

Lemma receive_loop_header_step fuel received acc sizeBytes m headerData m' :
  socket_recv 4096 m = (Return headerData, m') ->
  receive_loop (S fuel) received None acc sizeBytes m
  = match scan_header headerData sizeBytes with
    | Return (sizeBytes', None) =>
        receive_loop fuel received None acc sizeBytes' m'
    | Return (sizeBytes', Some (expected, data)) =>
        receive_loop fuel (received + Z.of_nat (length data))%Z
          (Some expected) (acc ++ data) sizeBytes' m'
    | Raise e => (Raise e, m')
    | Running => (Running, m')
    end.
Proof.
  intros R. cbn [receive_loop]. unfold mbind, M_bind. rewrite R.
  unfold lift. destruct (scan_header headerData sizeBytes) as [[sb [[e d]|]]| |];
    reflexivity.
Qed.

(** Once the peer has closed, a loop that still waits for bytes finds none
    and waits on, whatever the budget. *)
Lemma receive_loop_after_close fuel received expected acc sizeBytes m :
  reading m [] ->
  match expected with
  | None => True
  | Some e => (received <? e)%Z = true
  end ->
  receive_loop fuel received expected acc sizeBytes m = (Running, m).
Proof.
  intros Hr. revert received acc sizeBytes.
  induction fuel as [|fuel IH]; intros received acc sizeBytes Hwait.
  - destruct expected as [e|]; cbn; [now rewrite Hwait | reflexivity].
  - destruct expected as [e|].
    + rewrite (receive_loop_body_step _ _ _ _ _ m [] m Hwait)
        by now apply socket_recv_eof.
      cbn [length]. rewrite Z.add_0_r, app_nil_r. now apply IH.
    + rewrite (receive_loop_header_step _ _ _ _ m [] m)
        by now apply socket_recv_eof.
      cbn [scan_header]. now apply IH.
Qed.

(** The body is gathered from whatever reads the chunks fall into. *)
Lemma receive_loop_body fuel chunks acc sizeBytes expected m :
  reading m (Data <$> chunks) ->
  Z.of_nat (length acc + length (concat chunks)) = expected ->
  (stream_size chunks < fuel)%nat ->
  (receive_loop fuel (Z.of_nat (length acc)) (Some expected) acc sizeBytes m).1
  = Return (acc ++ concat chunks).
Proof.
  revert chunks acc m.
  induction fuel as [|fuel IH]; intros chunks acc m Hr He Hf; [lia|].
  destruct (Z.ltb_spec (Z.of_nat (length acc)) expected) as [Hlt|Hge].
  - destruct chunks as [|chunk rest]; [cbn in He; lia|].
    rewrite fmap_cons in Hr.
    destruct (socket_recv_chunk m chunk (Data <$> rest) Hr)
      as (m' & R & Hr' & _).
    rewrite (receive_loop_body_step _ _ _ _ _ m _ m')
      by (try exact R; now apply Z.ltb_lt).
    rewrite <- Nat2Z.inj_add, <- length_app.
    rewrite <- fmap_app in Hr'.
    rewrite (IH _ _ _ Hr').
    + rewrite <- app_assoc, concat_app.
      rewrite (app_assoc (recv_split chunk).1), recv_split_concat.
      reflexivity.
    + rewrite <- He. f_equal. rewrite concat_app, !length_app.
      cbn [concat]. rewrite <- (recv_split_concat chunk) at 3.
      rewrite !length_app. lia.
    + pose proof (recv_split_smaller chunk rest). lia.
  - rewrite receive_loop_done by now apply Z.ltb_ge.
    cbn. assert (concat chunks = []) as ->; [|now rewrite app_nil_r].
    apply length_zero_iff_nil. lia.
Qed.

Lemma without_dots_app a b :
  without_dots (a ++ b) = without_dots a ++ without_dots b.
Proof. apply List.filter_app. Qed.

(** The header is read across the reads it falls into, and the bytes that
    came with its newline start the body. *)
Lemma receive_loop_header fuel chunks sizeBytes header body m :
  reading m (Data <$> chunks) ->
  concat chunks = header ++ x0a :: body ->
  Forall (fun x => Byte.to_N x <> 10) header ->
  int_of_str (Byte.to_N <$> (sizeBytes ++ without_dots header))
  = Some (Z.of_nat (length body)) ->
  (stream_size chunks < fuel)%nat ->
  (receive_loop fuel 0%Z None [] sizeBytes m).1 = Return body.
Proof.
  revert chunks sizeBytes header m.
  induction fuel as [|fuel IH];
    intros chunks sizeBytes header m Hr Hcat Hnl Hlen Hf; [lia|].
  destruct chunks as [|chunk rest];
    [now destruct header; discriminate Hcat|].
  rewrite fmap_cons in Hr.
  destruct (socket_recv_chunk m chunk (Data <$> rest) Hr)
      as (m' & R & Hr' & _).
  rewrite (receive_loop_header_step _ _ _ _ m _ m' R).
  rewrite <- fmap_app in Hr'.
  pose proof (recv_split_smaller chunk rest) as Hsmall.
  assert (Hcat' : (recv_split chunk).1
                  ++ concat ((recv_split chunk).2 ++ rest)
                  = header ++ x0a :: body).
  { rewrite concat_app, app_assoc, recv_split_concat. exact Hcat. }
  remember (recv_split chunk).1 as first eqn:Efirst.
  remember ((recv_split chunk).2 ++ rest) as later eqn:Elater.
  clear Efirst Elater Hcat Hr R.
  apply app_eq_inv in Hcat' as [(k & Ef & Ek) | (k & Eh & Ek)].
  - destruct k as [|x k].
    + (* the read ends with the header, the newline comes next *)
      rewrite app_nil_r in Ef. subst first. cbn [app] in Ek.
      rewrite scan_header_prefix by exact Hnl.
      apply (IH later _ [] m' Hr'); [now symmetry | constructor | | lia].
      cbn [without_dots List.filter app]. now rewrite app_nil_r.
    + (* the read holds the newline *)
      cbn [app] in Ek. injection Ek as <- Ek. subst first.
      rewrite scan_header_newline by exact Hnl.
      rewrite Hlen. cbn [or_raise mbind outcome_bind].
      cbn [app Z.add].
      rewrite (receive_loop_body _ later k _ _ m' Hr'); [| |lia].
      * now rewrite Ek.
      * rewrite Ek, length_app. reflexivity.
  - (* the read ends inside the header *)
    subst header. apply Forall_app in Hnl as [Hn1 Hn2].
    rewrite scan_header_prefix by exact Hn1.
    apply (IH later _ k m' Hr'); [exact Ek | exact Hn2 | | lia].
    now rewrite <- app_assoc, <- without_dots_app.
Qed.

Lemma receive_result fuel m body :
  (receive_loop fuel 0%Z None [] [] m).1 = Return body ->
  (_receive fuel m).1 = or_raise UnicodeDecodeError (utf8_decode body).
Proof.
  unfold _receive, mbind, M_bind.
  destruct (receive_loop fuel 0%Z None [] [] m) as [o m']. cbn [fst].
  intros ->. unfold lift. reflexivity.
Qed.

Lemma receive_running fuel m :
  (receive_loop fuel 0%Z None [] [] m).1 = Running ->
  (_receive fuel m).1 = Running.
Proof.
  unfold _receive, mbind, M_bind.
  destruct (receive_loop fuel 0%Z None [] [] m) as [o m']. cbn [fst].
  now intros ->.
Qed.

Lemma without_dots_replicate k : without_dots (replicate k x2e) = [].
Proof. induction k as [|k IH]; [reflexivity | exact IH]. Qed.

Lemma replicate_dots_no_newline k :
  Forall (fun x => Byte.to_N x <> 10) (replicate k x2e).
Proof. induction k; constructor; [discriminate | assumption]. Qed.

(** C4: a framed message, with any number of keepalive dots in front of
    its header, is put together again from any partition of its bytes
    into successive reads, given a budget of one iteration for each byte
    and each read.  The dots are dropped, the digits before the newline
    give the length, what was read behind the newline starts the body,
    and the result is the UTF-8 decoding of exactly the body. *)
Theorem receive_reassembles body keepalive chunks fuel m :
  reading m (Data <$> chunks) ->
  concat chunks
  = replicate keepalive x2e ++ wire_header (length body) ++ body ->
  (stream_size chunks < fuel)%nat ->
  (_receive fuel m).1 = or_raise UnicodeDecodeError (utf8_decode body).
Proof.
  intros Hr Hcat Hf. apply receive_result.
  destruct (digit_bytes_no_newline _
              (str_of_N_digits (N.of_nat (length body)))) as [Hnl Hnd].
  apply (receive_loop_header fuel chunks []
           (replicate keepalive x2e
            ++ (byte_of <$> str_of_N (N.of_nat (length body))) ++ [x2e])
           body m Hr).
  - rewrite Hcat. unfold wire_header. rewrite fmap_app.
    change (byte_of <$> [DOT; LF]) with ([x2e] ++ [x0a]).
    now rewrite <- !app_assoc.
  - apply Forall_app. split; [apply replicate_dots_no_newline|].
    apply Forall_app. split; [exact Hnl|]. now repeat constructor.
  - rewrite app_nil_l, !without_dots_app, without_dots_replicate, Hnd.
    cbn [app without_dots List.filter Byte.to_N N.eqb Pos.eqb negb].
    rewrite app_nil_r.
    rewrite to_N_byte_of_ascii
      by (eapply Forall_impl; [apply str_of_N_digits | apply digit_is_ascii]).
    rewrite int_of_str_of_N. now rewrite nat_N_Z.
  - exact Hf.
Qed.

Lemma receive_reassembles_witness :
  reading (session (Data <$> trickled_message) None) (Data <$> trickled_message)
  /\ (_receive 30 (session (Data <$> trickled_message) None)).1
     = Return (py "hi." ++ [LF]).
Proof.
  split; [eexists; repeat split|].
  rewrite (receive_reassembles (ascii_bytes "hi." ++ [x0a]) 2
             trickled_message 30).
  - reflexivity.
  - eexists; repeat split.
  - reflexivity.
  - vm_compute. lia.
Defined.

(** ** A connection that closes early *)

Lemma receive_loop_body_short fuel chunks acc sizeBytes expected m :
  reading m (Data <$> chunks) ->
  (Z.of_nat (length acc + length (concat chunks)) < expected)%Z ->
  (receive_loop fuel (Z.of_nat (length acc)) (Some expected) acc sizeBytes m).1
  = Running.
Proof.
  revert chunks acc m.
  induction fuel as [|fuel IH]; intros chunks acc m Hr He.
  - cbn. destruct (Z.ltb_spec (Z.of_nat (length acc)) expected);
      [reflexivity | lia].
  - destruct chunks as [|chunk rest].
    + rewrite receive_loop_after_close; [reflexivity | exact Hr |].
      apply Z.ltb_lt. lia.
    + rewrite fmap_cons in Hr.
      destruct (socket_recv_chunk m chunk (Data <$> rest) Hr)
        as (m' & R & Hr' & _).
      rewrite (receive_loop_body_step _ _ _ _ _ m _ m')
        by (try exact R; apply Z.ltb_lt; lia).
      rewrite <- Nat2Z.inj_add, <- length_app.
      rewrite <- fmap_app in Hr'. apply (IH _ _ _ Hr').
      rewrite concat_app, !length_app. cbn [concat] in He.
      rewrite <- (recv_split_concat chunk) in He.
      rewrite !length_app in He. lia.
Qed.

(** A stream the peer closes before the message is complete, in its
    header or in its body, leaves the loop of [_receive] reading: no
    budget makes it return or raise. *)
Lemma receive_loop_truncated fuel chunks sizeBytes m :
  reading m (Data <$> chunks) ->
  Forall (fun x => Byte.to_N x <> 10) (concat chunks)
  \/ (exists header partial expected,
        concat chunks = header ++ x0a :: partial
        /\ Forall (fun x => Byte.to_N x <> 10) header
        /\ int_of_str (Byte.to_N <$> (sizeBytes ++ without_dots header))
           = Some expected
        /\ (Z.of_nat (length partial) < expected)%Z) ->
  (receive_loop fuel 0%Z None [] sizeBytes m).1 = Running.
Proof.
  revert chunks sizeBytes m.
  induction fuel as [|fuel IH]; intros chunks sizeBytes m Hr Hcut;
    [reflexivity|].
  destruct chunks as [|chunk rest].
  { rewrite receive_loop_after_close; [reflexivity | exact Hr | exact I]. }
  rewrite fmap_cons in Hr.
  destruct (socket_recv_chunk m chunk (Data <$> rest) Hr)
    as (m' & R & Hr' & _).
  rewrite (receive_loop_header_step _ _ _ _ m _ m' R).
  rewrite <- fmap_app in Hr'.
  assert (Hcat : (recv_split chunk).1
                 ++ concat ((recv_split chunk).2 ++ rest)
                 = concat (chunk :: rest)).
  { now rewrite concat_app, app_assoc, recv_split_concat. }
  remember (recv_split chunk).1 as first eqn:Efirst.
  remember ((recv_split chunk).2 ++ rest) as later eqn:Elater.
  clear Efirst Elater Hr R. rewrite <- Hcat in Hcut. clear Hcat.
  destruct Hcut as [Hnl | (header & partial & expected & Hcat & Hnl & Hlen & Hlt)].
  - apply Forall_app in Hnl as [Hn1 Hn2].
    rewrite scan_header_prefix by exact Hn1.
    apply (IH later _ m' Hr'). now left.
  - apply app_eq_inv in Hcat as [(k & Ef & Ek) | (k & Eh & Ek)].
    + destruct k as [|x k].
      * rewrite app_nil_r in Ef. subst first. cbn [app] in Ek.
        rewrite scan_header_prefix by exact Hnl.
        apply (IH later _ m' Hr'). right.
        exists [], partial, expected.
        split; [now symmetry|]. split; [constructor|].
        split; [|exact Hlt].
        cbn [without_dots List.filter]. now rewrite app_nil_r.
      * cbn [app] in Ek. injection Ek as <- Ek. subst first.
        rewrite scan_header_newline by exact Hnl.
        rewrite Hlen. cbn [or_raise mbind outcome_bind app Z.add].
        apply (receive_loop_body_short _ later k _ _ m' Hr').
        rewrite Ek, length_app in Hlt. exact Hlt.
    + subst header. apply Forall_app in Hnl as [Hn1 Hn2].
      rewrite scan_header_prefix by exact Hn1.
      apply (IH later _ m' Hr'). right.
      exists k, partial, expected.
      split; [exact Ek|]. split; [exact Hn2|]. split; [|exact Hlt].
      now rewrite <- app_assoc, <- without_dots_app.
Qed.

(** C3, on inputs the code gets wrong: the peer sends nothing, half a
    header, or a header announcing seven bytes and three of them, and
    closes.  [_receive] does not fail with a transport error: for every
    budget it is still reading. *)
Theorem receive_waits_on_closed_connection :
  forall fuel,
    (_receive fuel (session [] None)).1 = Running
    /\ (_receive fuel (session [Data (ascii_bytes "12")] None)).1 = Running
    /\ (_receive fuel (session [Data truncated_message] None)).1 = Running.
Proof.
  intros fuel. repeat split; apply receive_running.
  - apply (receive_loop_truncated fuel []); [eexists; repeat split|].
    left. constructor.
  - apply (receive_loop_truncated fuel [ascii_bytes "12"]);
      [eexists; repeat split|].
    left. repeat constructor; discriminate.
  - apply (receive_loop_truncated fuel [truncated_message]);
      [eexists; repeat split|].
    right. exists (ascii_bytes "7."), (ascii_bytes "hel"), 7%Z.
    split; [reflexivity|]. split; [repeat constructor; discriminate|].
    split; reflexivity.
Qed.

(** ** The failure flag is never taken back *)

Section KeepsFailed.
Context `{UnicodeData} `{JsonDecoder}.

Lemma keeps_ret {A} (a : A) : keeps_failed (mret a : M A).
Proof. intros m Hm. exact Hm. Qed.

Lemma keeps_lift {A} (o : outcome A) : keeps_failed (lift o).
Proof. intros m Hm. exact Hm. Qed.

Lemma keeps_raise {A} e : keeps_failed (@raise A e).
Proof. intros m Hm. exact Hm. Qed.

Lemma keeps_get : keeps_failed get.
Proof. intros m Hm. exact Hm. Qed.

Lemma keeps_bind {A B} (c : M A) (f : A -> M B) :
  keeps_failed c -> (forall a, keeps_failed (f a)) ->
  keeps_failed (c ≫= f).
Proof.
  intros Hc Hf m Hm. unfold mbind, M_bind.
  specialize (Hc m Hm). destruct (c m) as [[a|e|] m']; cbn in *;
    [now apply Hf | exact Hc | exact Hc].
Qed.

Lemma keeps_modify f :
  (forall m, failed m = true -> failed (f m) = true) ->
  keeps_failed (modify f).
Proof. intros Hf m Hm. now apply Hf. Qed.

Lemma keeps_emit e : keeps_failed (emit e).
Proof. now apply keeps_modify. Qed.

Lemma keeps_put_socket s : keeps_failed (put_socket s).
Proof. now apply keeps_modify. Qed.

Lemma keeps_set_communication c :
  keeps_failed (set_communication_thread_id c).
Proof. now apply keeps_modify. Qed.

Lemma keeps_set_goal g : keeps_failed (set_goal_thread_id g).
Proof. now apply keeps_modify. Qed.

Lemma keeps_mark : keeps_failed mark_connection_failed.
Proof. now apply keeps_modify. Qed.

Lemma keeps_raise_new {A} cls j : keeps_failed (@raise_new _ A cls j).
Proof.
  intros m Hm. unfold raise_new.
  now destruct (new_PrologError cls j).
Qed.

Lemma keeps_try body :
  keeps_failed body -> keeps_failed (try_except_OSError body).
Proof.
  intros Hb m Hm. unfold try_except_OSError. specialize (Hb m Hm).
  destruct (body m) as [[a|[]|] m']; exact Hb.
Qed.

Lemma keeps_with_create_thread {A} enter leave (body : M A) :
  keeps_failed enter -> keeps_failed leave -> keeps_failed body ->
  keeps_failed (with_create_thread enter leave body).
Proof.
  intros He Hl Hb m Hm. unfold with_create_thread.
  specialize (He (with_thread PrologThread_init m) Hm).
  destruct (enter _) as [[[]|e|] m1]; cbn in He |- *; try exact He.
  specialize (Hb m1 He).
  destruct (body m1) as [[a|e|] m2]; cbn in Hb |- *; try exact Hb.
  all: specialize (Hl m2 Hb);
    destruct (leave m2) as [[[]|e'|] m3]; exact Hl.
Qed.

Lemma keeps_socket_connect a : keeps_failed (socket_connect a).
Proof.
  intros m Hm. unfold socket_connect.
  destruct (_socket (thread m)); [|exact Hm].
  destruct a as [path|[port|]]; try exact Hm;
    destruct (accepts (world m)) as [|[accepted|] rest]; exact Hm.
Qed.

Lemma keeps_socket_sendall data : keeps_failed (socket_sendall data).
Proof.
  intros m Hm. unfold socket_sendall.
  destruct (_socket (thread m)) as [s|]; [|exact Hm].
  destruct (negb (connected s)); [exact Hm|].
  destruct (send_budget s) as [[|n]|]; exact Hm.
Qed.

Lemma keeps_socket_recv n : keeps_failed (socket_recv n).
Proof.
  intros m Hm. unfold socket_recv.
  destruct (_socket (thread m)) as [s|]; [|exact Hm].
  destruct (negb (connected s)); [exact Hm|].
  destruct (inbox s) as [|[chunk|] rest]; try exact Hm.
  destruct (length chunk <=? n)%nat; exact Hm.
Qed.

Lemma keeps_socket_close : keeps_failed socket_close.
Proof.
  apply keeps_bind; [apply keeps_emit|]. intros _. now apply keeps_modify.
Qed.

Lemma keeps_popen : keeps_failed popen.
Proof.
  intros m Hm. unfold popen.
  destruct (launches (world m)) as [|[p|] rest]; exact Hm.
Qed.

Lemma keeps_readline : keeps_failed readline.
Proof.
  intros m Hm. unfold readline.
  destruct (_process (server m)) as [p|]; [|exact Hm].
  destruct (stdout p); exact Hm.
Qed.
End KeepsFailed.

Create HintDb keeps discriminated.
#[export] Hint Resolve keeps_ret keeps_lift keeps_raise keeps_get
  keeps_emit keeps_put_socket keeps_set_communication
  keeps_set_goal keeps_mark keeps_raise_new
  keeps_try keeps_with_create_thread keeps_socket_connect
  keeps_socket_sendall keeps_socket_recv keeps_socket_close keeps_popen
  keeps_readline : keeps.

(** Walks down a method: a bind splits, a branch is taken both ways, a
    leaf is looked up among the hints. *)
Ltac keeps :=
  repeat first
    [ progress eauto with keeps nocore
    | apply keeps_bind; [|intros ?]
    | apply keeps_try
    | apply keeps_with_create_thread
    | apply keeps_modify; intros ? ?; assumption
    | match goal with
      | |- keeps_failed (if ?b then _ else _) => destruct b
      | |- keeps_failed (match ?x with _ => _ end) => destruct x
      | |- keeps_failed (let _ := _ in _) => cbv zeta
      end ].

Section KeepsFailedMethods.
Context `{UnicodeData} `{JsonDecoder}.

Lemma keeps_send value : keeps_failed (_send value).
Proof. unfold _send. keeps. Qed.

Lemma keeps_receive_loop fuel received expected acc sizeBytes :
  keeps_failed (receive_loop fuel received expected acc sizeBytes).
Proof.
  revert received expected acc sizeBytes.
  induction fuel as [|fuel IH]; intros received expected acc sizeBytes;
    cbn [receive_loop]; keeps.
Qed.

Lemma keeps_receive fuel : keeps_failed (_receive fuel).
Proof.
  unfold _receive. apply keeps_bind; [apply keeps_receive_loop|].
  intros ?. keeps.
Qed.

Lemma keeps_classify j : keeps_failed (classify_response j).
Proof. unfold classify_response, name_is, arg0_is. keeps. Qed.

Lemma keeps_return_prolog_response fuel :
  keeps_failed (_return_prolog_response fuel).
Proof.
  unfold _return_prolog_response.
  apply keeps_bind; [apply keeps_receive|]. intros ?.
  apply keeps_bind; [keeps|]. intros ?. apply keeps_classify.
Qed.

Hint Resolve keeps_send keeps_receive keeps_classify
  keeps_return_prolog_response : keeps.

Lemma keeps_thread_stop fuel : keeps_failed (PrologThread_stop fuel).
Proof. unfold PrologThread_stop. keeps. Qed.

Lemma keeps_thread_start server_start fuel :
  keeps_failed server_start ->
  keeps_failed (PrologThread_start server_start fuel).
Proof.
  intros Hs. unfold PrologThread_start, process_id, name_is. keeps.
Qed.

Hint Resolve keeps_thread_stop keeps_thread_start : keeps.

Lemma keeps_query server_start fuel value t :
  keeps_failed server_start ->
  keeps_failed (query server_start fuel value t).
Proof. intros Hs. unfold query, ensure_started. keeps. Qed.

Lemma keeps_query_async server_start fuel value find_all t :
  keeps_failed server_start ->
  keeps_failed (query_async server_start fuel value find_all t).
Proof. intros Hs. unfold query_async, ensure_started. keeps. Qed.

Lemma keeps_cancel_query_async fuel :
  keeps_failed (cancel_query_async fuel).
Proof. unfold cancel_query_async. keeps. Qed.

Lemma keeps_query_async_result fuel t :
  keeps_failed (query_async_result fuel t).
Proof. unfold query_async_result. keeps. Qed.

Lemma keeps_halt_server fuel : keeps_failed (halt_server fuel).
Proof. unfold halt_server. keeps. Qed.

Hint Resolve keeps_query keeps_halt_server : keeps.

Lemma keeps_server_start fuel : keeps_failed (PrologServer_start fuel).
Proof.
  induction fuel as [|fuel IH]; cbn [PrologServer_start]; keeps.
Qed.

Hint Resolve keeps_server_start : keeps.

Lemma keeps_server_stop fuel kill :
  keeps_failed (PrologServer_stop fuel kill).
Proof. unfold PrologServer_stop. keeps. Qed.

Lemma keeps_create_thread : keeps_failed create_thread.
Proof. now apply keeps_modify. Qed.

Lemma keeps_call fuel op : keeps_failed (call fuel op).
Proof.
  destruct op; cbn [call]; unfold unit_result;
    auto using keeps_query, keeps_query_async, keeps_cancel_query_async,
      keeps_query_async_result, keeps_server_start;
    (apply keeps_bind; [|intros ?; apply keeps_ret]);
    auto using keeps_server_start, keeps_server_stop, keeps_thread_start,
      keeps_thread_stop, keeps_halt_server, keeps_create_thread.
Qed.
End KeepsFailedMethods.

Section WriteOnce.
Context `{UnicodeData} `{JsonDecoder}.

Lemma classify_connection_failed rest m :
  let reply :=
    JFunctor (py "exception") (JStr (py "connection_failed") :: rest) in
  failed (classify_response reply m).2 = true
  /\ alarm (classify_response reply m).1
  /\ (rest = [] ->
      (classify_response reply m).1
      = Raise (Prolog PrologConnectionFailedError
                 (JStr (py "connection_failed")))).
Proof.
  cbv zeta. unfold classify_response, mbind, M_bind.
  rewrite name_is_functor.
  change (str_eqb (py "exception") (py "exception")) with true.
  cbv beta iota. rewrite arg0_is_first.
  change (equals_str (JStr (py "connection_failed")) (py "no_more_results"))
    with false.
  cbv beta iota. rewrite arg0_is_first.
  change (equals_str (JStr (py "connection_failed"))
            (py "connection_failed")) with true.
  cbv beta iota. unfold mark_connection_failed, modify. cbv beta iota.
  unfold raise_new, new_PrologError. rewrite prolog_name_functor.
  cbn [mbind outcome_bind prolog_args].
  change (str_eqb (py "exception") (py "exception")) with true.
  cbn [negb length].
  destruct rest as [|x rest]; cbn; repeat split; try discriminate.
Qed.

Lemma halt_server_sets_flag fuel m :
  (halt_server fuel m).1 = Return tt ->
  failed (halt_server fuel m).2 = true.
Proof.
  unfold halt_server, mbind, M_bind.
  destruct (_send _ m) as [[[]|e|] m1]; try discriminate.
  destruct (_return_prolog_response fuel m1) as [[v|e|] m2];
    try discriminate.
  reflexivity.
Qed.

End WriteOnce.


(** ** Transport errors and the failure flag *)

Section FlagsWithAlarm.
Context `{UnicodeData} `{JsonDecoder}.

Lemma fa_same {A} (c : M A) :
  (forall m, failed (c m).2 = failed m) -> flags_with_alarm c.
Proof. intros Hc m. left. apply Hc. Qed.

Lemma fa_ret {A} (a : A) : flags_with_alarm (mret a : M A).
Proof. now apply fa_same. Qed.

Lemma fa_lift {A} (o : outcome A) : flags_with_alarm (lift o).
Proof. now apply fa_same. Qed.

Lemma fa_raise {A} e : flags_with_alarm (@raise A e).
Proof. now apply fa_same. Qed.

Lemma fa_get : flags_with_alarm get.
Proof. now apply fa_same. Qed.

Lemma fa_bind {A B} (c : M A) (f : A -> M B) :
  flags_with_alarm c -> (forall a, flags_with_alarm (f a)) ->
  flags_with_alarm (c ≫= f).
Proof.
  intros Hc Hf m. unfold mbind, M_bind. specialize (Hc m).
  destruct (c m) as [[a|e|] m1]; cbn [fst snd] in *; try exact Hc.
  destruct Hc as [Hc | [_ []]].
  specialize (Hf a m1). rewrite Hc in Hf. exact Hf.
Qed.

Lemma fa_modify f :
  (forall m, failed (f m) = failed m) -> flags_with_alarm (modify f).
Proof. intros Hf. apply fa_same. exact Hf. Qed.

Lemma fa_emit e : flags_with_alarm (emit e).
Proof. now apply fa_modify. Qed.

Lemma fa_put_socket s : flags_with_alarm (put_socket s).
Proof. now apply fa_modify. Qed.

Lemma fa_set_communication c :
  flags_with_alarm (set_communication_thread_id c).
Proof. now apply fa_modify. Qed.

Lemma fa_set_goal g : flags_with_alarm (set_goal_thread_id g).
Proof. now apply fa_modify. Qed.

Lemma raise_new_state {A} cls j m : (@raise_new _ A cls j m).2 = m.
Proof. unfold raise_new. now destruct (new_PrologError cls j). Qed.

Lemma fa_raise_new {A} cls j : flags_with_alarm (@raise_new _ A cls j).
Proof. apply fa_same. intros m. now rewrite raise_new_state. Qed.

Lemma fa_try body :
  flags_with_alarm body -> flags_with_alarm (try_except_OSError body).
Proof.
  intros Hb m. unfold try_except_OSError. specialize (Hb m).
  destruct (body m) as [[a|[]|] m']; exact Hb.
Qed.

(** The block around a local thread, for an [__exit__] that does
    nothing but return once the flag is set. *)
Lemma fa_with_create_thread {A} enter leave (body : M A) :
  flags_with_alarm enter -> flags_with_alarm leave ->
  flags_with_alarm body ->
  (forall m, failed m = true ->
     exists m', leave m = (Return tt, m') /\ failed m' = true) ->
  flags_with_alarm (with_create_thread enter leave body).
Proof.
  intros He Hl Hb Hquiet m. unfold with_create_thread.
  specialize (He (with_thread PrologThread_init m)).
  change (failed (with_thread PrologThread_init m)) with (failed m) in He.
  destruct (enter _) as [[[]|e|] m1]; cbn [fst snd] in *; try exact He.
  destruct He as [He | [_ []]].
  specialize (Hb m1). rewrite He in Hb.
  destruct (body m1) as [ob m2]; cbn [fst snd] in *.
  destruct Hb as [Hb | [Hb Hob]].
  - specialize (Hl m2). rewrite Hb in Hl.
    destruct ob as [a|e|]; [| |now left];
      destruct (leave m2) as [[[]|e'|] m3]; cbn [fst snd] in *;
      try exact Hl; destruct Hl as [Hl | [_ []]]; now left.
  - destruct (Hquiet m2 Hb) as (m3 & -> & Hm3).
    destruct ob as [a|e|]; try now destruct Hob.
    right. split; [exact Hm3 | exact Hob].
Qed.

Lemma fa_socket_connect a : flags_with_alarm (socket_connect a).
Proof.
  apply fa_same. intros m. unfold socket_connect.
  destruct (_socket (thread m)); [|reflexivity].
  destruct a as [path|[port|]]; try reflexivity;
    destruct (accepts (world m)) as [|[accepted|] rest]; reflexivity.
Qed.

Lemma fa_socket_sendall data : flags_with_alarm (socket_sendall data).
Proof.
  apply fa_same. intros m. unfold socket_sendall.
  destruct (_socket (thread m)) as [s|]; [|reflexivity].
  destruct (negb (connected s)); [reflexivity|].
  destruct (send_budget s) as [[|n]|]; reflexivity.
Qed.

Lemma fa_socket_recv n : flags_with_alarm (socket_recv n).
Proof.
  apply fa_same. intros m. unfold socket_recv.
  destruct (_socket (thread m)) as [s|]; [|reflexivity].
  destruct (negb (connected s)); [reflexivity|].
  destruct (inbox s) as [|[chunk|] rest]; try reflexivity.
  destruct (length chunk <=? n)%nat; reflexivity.
Qed.

Lemma fa_socket_close : flags_with_alarm socket_close.
Proof.
  apply fa_bind; [apply fa_emit|]. intros _. now apply fa_modify.
Qed.

Lemma fa_popen : flags_with_alarm popen.
Proof.
  apply fa_same. intros m. unfold popen.
  destruct (launches (world m)) as [|[p|] rest]; reflexivity.
Qed.

Lemma fa_readline : flags_with_alarm readline.
Proof.
  apply fa_same. intros m. unfold readline.
  destruct (_process (server m)) as [p|]; [|reflexivity].
  destruct (stdout p); reflexivity.
Qed.
End FlagsWithAlarm.

Create HintDb alarms discriminated.
#[export] Hint Resolve fa_ret fa_lift fa_raise fa_get fa_emit fa_put_socket
  fa_set_communication fa_set_goal fa_raise_new fa_socket_connect fa_socket_sendall fa_socket_recv
  fa_socket_close fa_popen fa_readline : alarms.

Ltac alarms :=
  repeat first
    [ progress eauto with alarms nocore
    | apply fa_bind; [|intros ?]
    | apply fa_try
    | apply fa_modify; intros ?; reflexivity
    | match goal with
      | |- flags_with_alarm (if ?b then _ else _) => destruct b
      | |- flags_with_alarm (match ?x with _ => _ end) => destruct x
      | |- flags_with_alarm (let _ := _ in _) => cbv zeta
      end ].

Section FlagsWithAlarmMethods.
Context `{UnicodeData} `{JsonDecoder}.

Lemma fa_send value : flags_with_alarm (_send value).
Proof. unfold _send. alarms. Qed.

Lemma fa_receive_loop fuel received expected acc sizeBytes :
  flags_with_alarm (receive_loop fuel received expected acc sizeBytes).
Proof.
  revert received expected acc sizeBytes.
  induction fuel as [|fuel IH]; intros received expected acc sizeBytes;
    cbn [receive_loop]; alarms.
Qed.

Lemma fa_receive fuel : flags_with_alarm (_receive fuel).
Proof.
  unfold _receive. apply fa_bind; [apply fa_receive_loop|].
  intros ?. alarms.
Qed.

(** The classifier touches the flag on one path only, and leaves that
    path with [PrologConnectionFailedError] or with the failed
    assertion of its constructor. *)
Lemma fa_classify j : flags_with_alarm (classify_response j).
Proof.
  intros m. destruct j as [s|n|items|functor args].
  1-3: left; unfold classify_response, mbind, M_bind, name_is, arg0_is, lift;
    cbn [prolog_args mbind outcome_bind];
    repeat match goal with
    | |- context [match ?o with Return _ => _ | Raise _ => _ | Running => _ end] =>
        destruct o
    | |- context [if ?b then _ else _] => destruct b
    end; reflexivity.
  destruct (str_eqb functor (py "exception")) eqn:Ef.
  - apply bool_decide_eq_true in Ef. subst functor.
    destruct args as [|x rest].
    { left. reflexivity. }
    destruct (equals_str x (py "no_more_results")) eqn:E1.
    { left. unfold classify_response, mbind, M_bind.
      rewrite name_is_functor.
      change (str_eqb (py "exception") (py "exception")) with true.
      cbv beta iota. rewrite arg0_is_first, E1. reflexivity. }
    destruct (equals_str x (py "connection_failed")) eqn:E2.
    { apply equals_str_true in E2. subst x.
      destruct (classify_connection_failed rest m) as (Hf & Ha & _).
      right. split; assumption. }
    left. unfold classify_response, mbind, M_bind.
    rewrite name_is_functor.
    change (str_eqb (py "exception") (py "exception")) with true.
    cbv beta iota. rewrite arg0_is_first, E1.
    cbv beta iota. rewrite arg0_is_first, E2.
    repeat (cbv beta iota; rewrite arg0_is_first;
            match goal with
            | |- context [if equals_str x ?s then _ else _] =>
                destruct (equals_str x s);
                [now rewrite raise_new_state|]
            end).
    now rewrite raise_new_state.
  - left. unfold classify_response, mbind, M_bind.
    rewrite name_is_functor, Ef. cbv beta iota.
    rewrite name_is_functor.
    destruct (str_eqb functor (py "false")); [reflexivity|].
    cbv beta iota. rewrite name_is_functor.
    destruct (str_eqb functor (py "true")); [|reflexivity].
    unfold lift. cbn [prolog_args].
    repeat match goal with
    | |- context [match ?o with Return _ => _ | Raise _ => _ | Running => _ end] =>
        destruct o
    | |- context [if ?b then _ else _] => destruct b
    end; reflexivity.
Qed.

Lemma fa_return_prolog_response fuel :
  flags_with_alarm (_return_prolog_response fuel).
Proof.
  unfold _return_prolog_response.
  apply fa_bind; [apply fa_receive|]. intros ?.
  apply fa_bind; [alarms|]. intros ?. apply fa_classify.
Qed.

Hint Resolve fa_send fa_receive fa_classify fa_return_prolog_response
  : alarms.

Lemma fa_thread_stop fuel : flags_with_alarm (PrologThread_stop fuel).
Proof. unfold PrologThread_stop. alarms. Qed.

(** With the flag set, [PrologThread.stop] talks to nobody: it closes
    the socket, if there is one, and returns. *)
Lemma thread_stop_when_failed fuel m :
  failed m = true ->
  exists m', PrologThread_stop fuel m = (Return tt, m')
             /\ failed m' = true.
Proof.
  intros Hm. unfold PrologThread_stop, mbind, M_bind, get.
  destruct (bool_decide (_socket (thread m) ≠ None)).
  - unfold failed in Hm. rewrite Hm. cbn [negb]. cbn.
    eexists. split; [reflexivity|]. exact Hm.
  - eexists. split; [reflexivity|]. exact Hm.
Qed.

Lemma fa_thread_start server_start fuel :
  flags_with_alarm server_start ->
  flags_with_alarm (PrologThread_start server_start fuel).
Proof.
  intros Hs. unfold PrologThread_start, process_id, name_is. alarms.
Qed.

Hint Resolve fa_thread_stop fa_thread_start : alarms.

Lemma fa_query server_start fuel value t :
  flags_with_alarm server_start ->
  flags_with_alarm (query server_start fuel value t).
Proof. intros Hs. unfold query, ensure_started. alarms. Qed.

Lemma fa_query_async server_start fuel value find_all t :
  flags_with_alarm server_start ->
  flags_with_alarm (query_async server_start fuel value find_all t).
Proof. intros Hs. unfold query_async, ensure_started. alarms. Qed.

Lemma fa_cancel_query_async fuel :
  flags_with_alarm (cancel_query_async fuel).
Proof. unfold cancel_query_async. alarms. Qed.

Lemma fa_query_async_result fuel t :
  flags_with_alarm (query_async_result fuel t).
Proof. unfold query_async_result. alarms. Qed.

Hint Resolve fa_query : alarms.

Lemma fa_server_start fuel : flags_with_alarm (PrologServer_start fuel).
Proof.
  induction fuel as [|fuel IH]; cbn [PrologServer_start]; alarms.
  apply fa_with_create_thread; alarms.
  intros m Hm. now apply thread_stop_when_failed.
Qed.

Lemma fa_protocol_operation fuel op :
  protocol_operation op = true -> flags_with_alarm (call fuel op).
Proof.
  destruct op; try discriminate; intros _; cbn [call];
    auto using fa_query, fa_query_async, fa_cancel_query_async,
      fa_query_async_result, fa_server_start.
Qed.

Lemma return_prolog_response_propagates fuel m :
  (forall e m', _receive fuel m = (Raise e, m') ->
     _return_prolog_response fuel m = (Raise e, m'))
  /\ (forall text m', _receive fuel m = (Return text, m') ->
        json_loads text = None ->
        _return_prolog_response fuel m = (Raise JSONDecodeError, m')).
Proof.
  split.
  - intros e m' R. unfold _return_prolog_response, mbind, M_bind.
    now rewrite R.
  - intros text m' R J. unfold _return_prolog_response, mbind, M_bind.
    rewrite R. unfold lift. now rewrite J.
Qed.

(** On a started session each of the four operations is one [_send]
    followed by one [_return_prolog_response]: an error of either
    reaches the caller as it is. *)
Lemma protocol_operation_propagates fuel op m :
  protocol_operation op = true ->
  _socket (thread m) <> None ->
  exists request,
    (forall e m1, _send request m = (Raise e, m1) ->
       call fuel op m = (Raise e, m1))
    /\ (forall m1 e m2,
          _send request m = (Return tt, m1) ->
          _receive fuel m1 = (Raise e, m2) ->
          call fuel op m = (Raise e, m2))
    /\ (forall m1 text m2,
          _send request m = (Return tt, m1) ->
          _receive fuel m1 = (Return text, m2) ->
          json_loads text = None ->
          call fuel op m = (Raise JSONDecodeError, m2)).
Proof.
  intros Hop Hs.
  destruct op; try discriminate; cbn [call];
    unfold query, query_async, cancel_query_async, query_async_result,
      ensure_started, mbind, M_bind, get;
    rewrite ?bool_decide_false by exact Hs;
    cbv beta iota zeta; unfold mret, M_ret;
    eexists; (split; [|split]).
  all: try (intros e m1 S; rewrite S; reflexivity).
  all: try (intros m1 e m2 S R; rewrite S;
            destruct (return_prolog_response_propagates fuel m1) as [P _];
            rewrite (P _ _ R); reflexivity).
  all: intros m1 text m2 S R J; rewrite S;
    destruct (return_prolog_response_propagates fuel m1) as [_ P];
    rewrite (P _ _ R J); reflexivity.
Qed.

End FlagsWithAlarmMethods.



(** ** Stopping *)

Section Stopping.
Context `{UnicodeData} `{JsonDecoder}.

(** A thread that holds no socket is stopped already. *)
Lemma thread_stop_unconnected fuel m :
  _socket (thread m) = None ->
  PrologThread_stop fuel m = (Return tt, m).
Proof.
  intros Hs. unfold PrologThread_stop, mbind, M_bind, get.
  now rewrite Hs.
Qed.

(** X20: with the failure flag set [PrologThread.stop] has no
    farewell: the socket is closed and nothing is sent. *)
Lemma thread_stop_failed fuel m s :
  _socket (thread m) = Some s -> failed m = true ->
  exists m',
    PrologThread_stop fuel m = (Return tt, m')
    /\ _socket (thread m') = None
    /\ log (world m') = log (world m) ++ [Close].
Proof.
  intros Hs Hf. unfold PrologThread_stop, mbind, M_bind, get.
  rewrite Hs. unfold failed in Hf. rewrite Hf.
  eexists. split; [reflexivity|]. split; reflexivity.
Qed.

(** X21: with the flag unset the farewell is tried, and an [OSError]
    of the socket is swallowed: the socket is closed all the same. *)
Lemma thread_stop_swallows_OSError fuel m s :
  _socket (thread m) = Some s -> failed m = false ->
  connected s = false \/ send_budget s = Some O ->
  exists m',
    PrologThread_stop fuel m = (Return tt, m')
    /\ _socket (thread m') = None
    /\ log (world m') = log (world m) ++ [Close].
Proof.
  intros Hs Hf Hbroken.
  assert (Hclose : _send (py "close." ++ [LF]) m = (Raise OSError, m)).
  { unfold _send, mbind, M_bind, lift.
    change (utf8_encode (rstrip [LF; DOT] (strip (py "close." ++ [LF]))
                         ++ [DOT; LF]))
      with (Some (ascii_bytes "close." ++ [x0a])).
    cbn [or_raise].
    change (utf8_encode _) with (Some (ascii_bytes "7." ++ [x0a])).
    cbn [or_raise]. unfold socket_sendall. rewrite Hs.
    destruct Hbroken as [-> | Hb]; [reflexivity|].
    rewrite Hb. now destruct (connected s). }
  unfold PrologThread_stop, mbind, M_bind, get. rewrite Hs.
  unfold failed in Hf. rewrite Hf. cbn [negb].
  rewrite bool_decide_true by discriminate.
  unfold try_except_OSError. cbv beta iota. rewrite Hclose.
  eexists. split; [reflexivity|]. split; reflexivity.
Qed.

(** X22: [PrologServer.stop] on a launched process kills it when asked
    to or when the flag is set, without any exchange: the process is
    killed and waited for, the file of a Unix domain socket is removed,
    and the handle is dropped. *)
Lemma server_stop_kills fuel kill m p :
  _process (server m) = Some p ->
  kill || failed m = true ->
  exists m',
    PrologServer_stop fuel kill m = (Return tt, m')
    /\ _process (server m') = None
    /\ log (world m')
       = log (world m) ++ [Kill; Wait]
         ++ (if truthy (_unix_domain_socket (server m))
             then [Remove (default [] (_unix_domain_socket (server m)))]
             else []).
Proof.
  intros Hp Hk. unfold PrologServer_stop, mbind, M_bind, get.
  rewrite Hp. unfold failed in Hk. rewrite Hk.
  destruct (truthy (_unix_domain_socket (server m)));
    eexists; (split; [reflexivity|]); split; try reflexivity;
    cbn; now rewrite <- !app_assoc.
Qed.
End Stopping.

(** The graceful path of [PrologServer.stop], run against the scripted
    server: connect, password, [quit], and no [close] afterwards since
    [halt_server] has set the flag. *)
Lemma server_stop_graceful_run :
  let r := @PrologServer_stop ascii_only sample_decoder 10 false
             (launched_server false) in
  r.1 = Return tt
  /\ failed r.2 = true
  /\ log (world r.2)
     = [Connect (AF_INET (Some 4242%Z));
        Sendall (ascii_bytes "8." ++ [x0a]);
        Sendall (ascii_bytes "secret." ++ [x0a]);
        Sendall (ascii_bytes "6." ++ [x0a]);
        Sendall (ascii_bytes "quit." ++ [x0a]);
        Close; Wait].
Proof. vm_compute. repeat split; reflexivity. Qed.

(** C9, on an input the code gets wrong: the flag is unset, the server
    answers the [close] request with [exception(connection_failed)].  The
    error is not an [OSError], so it leaves [PrologThread.stop] before
    the socket is closed: the thread still holds the socket and no
    [close()] was issued. *)
Theorem thread_stop_leaves_socket_open :
  let r := @PrologThread_stop ascii_only sample_decoder 10
             (session [Data (frame_of connection_failed_text)] None) in
  r.1 = Raise (Prolog PrologConnectionFailedError
                 (JStr (py "connection_failed")))
  /\ _socket (thread r.2) <> None
  /\ log (world r.2)
     = [Sendall (ascii_bytes "7." ++ [x0a]);
        Sendall (ascii_bytes "close." ++ [x0a])].
Proof. vm_compute. repeat split; (reflexivity || discriminate). Qed.

(** ** UTF-8: decoding what was encoded *)

Ltac decide_tests :=
  repeat match goal with
  | |- context [?a <? ?b] => destruct (N.ltb_spec a b); try lia
  | |- context [?a <=? ?b] => destruct (N.leb_spec a b); try lia
  end.

Lemma continuation_byte r : r < 64 -> continuation (byte_of (128 + r)) = Some r.
Proof.
  intros Hr. unfold continuation, between.
  rewrite to_N_byte_of by lia. decide_tests. cbn. f_equal. lia.
Qed.

Lemma decode_one c fuel rest :
  c < 128 ->
  utf8_decode_from (S fuel) (byte_of c :: rest)
  = cons c <$> utf8_decode_from fuel rest.
Proof.
  intros Hc. cbn [utf8_decode_from]. rewrite to_N_byte_of by lia.
  decide_tests. reflexivity.
Qed.

Lemma decode_two q r fuel rest :
  2 <= q < 32 -> r < 64 ->
  utf8_decode_from (S fuel) (byte_of (192 + q) :: byte_of (128 + r) :: rest)
  = cons (64 * q + r) <$> utf8_decode_from fuel rest.
Proof.
  intros Hq Hr. cbn [utf8_decode_from]. rewrite to_N_byte_of by lia.
  rewrite continuation_byte by exact Hr.
  unfold between. decide_tests. cbn [andb].
  replace ((192 + q - 192) * 64 + r) with (64 * q + r) by lia.
  reflexivity.
Qed.

Lemma decode_three q r2 r fuel rest :
  q < 16 -> r2 < 64 -> r < 64 ->
  2048 <= 4096 * q + 64 * r2 + r ->
  is_surrogate (4096 * q + 64 * r2 + r) = false ->
  utf8_decode_from (S fuel)
    (byte_of (224 + q) :: byte_of (128 + r2) :: byte_of (128 + r) :: rest)
  = cons (4096 * q + 64 * r2 + r) <$> utf8_decode_from fuel rest.
Proof.
  intros Hq Hr2 Hr Hlow Hsur. cbn [utf8_decode_from].
  rewrite to_N_byte_of by lia.
  rewrite !continuation_byte by assumption.
  replace ((224 + q - 224) * 4096 + r2 * 64 + r)
    with (4096 * q + 64 * r2 + r) by lia.
  rewrite Hsur. unfold between. decide_tests. reflexivity.
Qed.

Lemma decode_four q r3 r2 r fuel rest :
  q < 5 -> r3 < 64 -> r2 < 64 -> r < 64 ->
  65536 <= 262144 * q + 4096 * r3 + 64 * r2 + r < 1114112 ->
  utf8_decode_from (S fuel)
    (byte_of (240 + q) :: byte_of (128 + r3) :: byte_of (128 + r2)
     :: byte_of (128 + r) :: rest)
  = cons (262144 * q + 4096 * r3 + 64 * r2 + r)
      <$> utf8_decode_from fuel rest.
Proof.
  intros Hq Hr3 Hr2 Hr Hc. cbn [utf8_decode_from].
  rewrite to_N_byte_of by lia.
  rewrite !continuation_byte by assumption.
  replace ((240 + q - 240) * 262144 + r3 * 4096 + r2 * 64 + r)
    with (262144 * q + 4096 * r3 + 64 * r2 + r) by lia.
  unfold between. decide_tests. reflexivity.
Qed.

(** A code point as its base-64 digits. *)
Lemma base64_digits c :
  exists q3 r3 r2 r,
    c / 64 = 4096 * q3 + 64 * r3 + r2 /\ c mod 64 = r
    /\ c / 4096 = 64 * q3 + r3 /\ (c / 64) mod 64 = r2
    /\ c / 262144 = q3 /\ (c / 4096) mod 64 = r3
    /\ c = 262144 * q3 + 4096 * r3 + 64 * r2 + r
    /\ r3 < 64 /\ r2 < 64 /\ r < 64.
Proof.
  exists (c / 64 / 64 / 64), ((c / 64 / 64) mod 64), ((c / 64) mod 64),
    (c mod 64).
  assert (E1 : c / 4096 = c / 64 / 64) by now rewrite N.Div0.div_div.
  assert (E2 : c / 262144 = c / 64 / 64 / 64) by now rewrite !N.Div0.div_div.
  rewrite E1, E2.
  pose proof (N.div_mod c 64 ltac:(discriminate)) as D1.
  pose proof (N.div_mod (c / 64) 64 ltac:(discriminate)) as D2.
  pose proof (N.div_mod (c / 64 / 64) 64 ltac:(discriminate)) as D3.
  assert (B1 : c mod 64 < 64) by now apply N.mod_upper_bound.
  assert (B2 : (c / 64) mod 64 < 64) by now apply N.mod_upper_bound.
  assert (B3 : (c / 64 / 64) mod 64 < 64) by now apply N.mod_upper_bound.
  generalize dependent (c mod 64). intros r.
  generalize dependent ((c / 64) mod 64). intros r2.
  generalize dependent ((c / 64 / 64) mod 64). intros r3.
  generalize dependent (c / 64 / 64 / 64). intros q3.
  generalize dependent (c / 64 / 64). intros q2.
  generalize dependent (c / 64). intros q1.
  intros. repeat split; lia.
Qed.

Lemma decode_encode_codepoint c fuel rest :
  is_scalar c = true ->
  utf8_decode_from (S fuel) (utf8_encode_codepoint c ++ rest)
  = cons c <$> utf8_decode_from fuel rest.
Proof.
  intros Hs. unfold is_scalar in Hs. apply andb_true_iff in Hs as [Hmax Hsur].
  apply N.ltb_lt in Hmax. apply negb_true_iff in Hsur.
  destruct (base64_digits c)
    as (q3 & r3 & r2 & r & E1 & E2 & E3 & E4 & E5 & E6 & Ec & B3 & B2 & B1).
  unfold utf8_encode_codepoint.
  destruct (N.ltb_spec c 128); [now apply decode_one|].
  destruct (N.ltb_spec c 2048).
  { rewrite E1, E2. cbn [app].
    assert (q3 = 0 /\ r3 = 0) as [-> ->] by lia.
    rewrite N.mul_0_r, !N.add_0_l in *.
    rewrite decode_two by lia. do 2 f_equal. lia. }
  destruct (N.ltb_spec c 65536).
  { rewrite E3, E4, E2. cbn [app].
    assert (q3 = 0) as -> by lia.
    rewrite N.mul_0_r, !N.add_0_l in *.
    assert (Ec' : c = 4096 * r3 + 64 * r2 + r) by lia.
    rewrite decode_three; try lia.
    - now rewrite <- Ec'.
    - now rewrite <- Ec'. }
  rewrite E5, E6, E4, E2. cbn [app].
  rewrite decode_four; try lia.
  now rewrite <- Ec.
Qed.

Lemma utf8_decode_from_encode s :
  forall fuel b,
    utf8_encode s = Some b -> (length s <= fuel)%nat ->
    utf8_decode_from fuel b = Some s.
Proof.
  induction s as [|c s IH]; intros fuel b Hb Hf.
  - injection Hb as <-. now destruct fuel.
  - cbn [utf8_encode] in Hb. destruct (is_scalar c) eqn:Hc; [|discriminate].
    destruct (utf8_encode s) as [tail|] eqn:Ht; [|discriminate].
    injection Hb as <-.
    destruct fuel as [|fuel]; [cbn in Hf; lia|].
    rewrite decode_encode_codepoint by exact Hc.
    rewrite (IH fuel tail eq_refl) by (cbn in Hf; lia). reflexivity.
Qed.

Lemma utf8_encode_length s b :
  utf8_encode s = Some b -> (length s <= length b)%nat.
Proof.
  revert b. induction s as [|c s IH]; intros b Hb.
  - cbn. lia.
  - cbn [utf8_encode] in Hb. destruct (is_scalar c); [|discriminate].
    destruct (utf8_encode s) as [tail|]; [|discriminate].
    injection Hb as <-. specialize (IH tail eq_refl).
    rewrite length_app. cbn [length].
    assert (1 <= length (utf8_encode_codepoint c))%nat; [|lia].
    unfold utf8_encode_codepoint.
    destruct (c <? 128); [cbn; lia|].
    destruct (c <? 2048); [cbn; lia|].
    destruct (c <? 65536); cbn; lia.
Qed.

(** [s.encode("utf-8").decode("utf-8") == s] *)
Lemma utf8_decode_encode s b :
  utf8_encode s = Some b -> utf8_decode b = Some s.
Proof.
  intros Hb. unfold utf8_decode.
  apply utf8_decode_from_encode; [exact Hb|].
  now apply utf8_encode_length.
Qed.

(** ** Sending, then receiving *)

Lemma normalized_scalars value :
  Forall (fun c => is_scalar c = true) value ->
  Forall (fun c => is_scalar c = true) (normalized value ++ [DOT; LF]).
Proof.
  intros Hv.
  destruct (normalized_spec value) as (lead & dots & trail & E & _).
  apply Forall_app. split.
  - rewrite E in Hv. apply Forall_app in Hv as [_ Hv].
    now apply Forall_app in Hv as [Hv _].
  - now repeat constructor.
Qed.

Lemma send_run value m s body :
  _socket (thread m) = Some s -> connected s = true -> can_send 2 s ->
  utf8_encode (normalized value ++ [DOT; LF]) = Some body ->
  _send value m
  = (Return tt,
     with_world
       (record (Sendall body)
          (record (Sendall (wire_header (length body))) (world m)))
       (with_thread
          (set_socket
             (Some {| connected := true; inbox := inbox s;
                      outbox := (outbox s ++ [wire_header (length body)])
                                ++ [body];
                      send_budget := pred <$> (pred <$> send_budget s) |})
             (thread m)) m)).
Proof.
  intros Hs Hc Hb Hbody.
  unfold _send, mbind, M_bind. fold (normalized value).
  rewrite Hbody. cbn [lift or_raise].
  rewrite (utf8_encode_ascii _ (header_text_ascii _)).
  fold (wire_header (length body)). cbn [or_raise].
  rewrite (socket_sendall_ok _ m s Hs Hc)
    by (unfold can_send in *; destruct (send_budget s); [lia | exact I]).
  match goal with
  | |- context [socket_sendall body ?m1] =>
      rewrite (socket_sendall_ok body m1 _ eq_refl eq_refl)
  end; [reflexivity|].
  unfold can_send in *; cbn. destruct (send_budget s); cbn; [lia | exact I].
Qed.

Lemma receive_loop_frame body chunks fuel m :
  reading m (Data <$> chunks) ->
  concat chunks = wire_header (length body) ++ body ->
  (stream_size chunks < fuel)%nat ->
  (receive_loop fuel 0%Z None [] [] m).1 = Return body.
Proof.
  intros Hr Hcat Hf.
  destruct (digit_bytes_no_newline _
              (str_of_N_digits (N.of_nat (length body)))) as [Hnl Hnd].
  apply (receive_loop_header fuel chunks []
           ((byte_of <$> str_of_N (N.of_nat (length body))) ++ [x2e])
           body m Hr).
  - rewrite Hcat. unfold wire_header. rewrite fmap_app.
    change (byte_of <$> [DOT; LF]) with ([x2e] ++ [x0a]).
    now rewrite <- !app_assoc.
  - apply Forall_app. split; [exact Hnl|]. now repeat constructor.
  - rewrite app_nil_l, !without_dots_app, Hnd.
    cbn [app without_dots List.filter Byte.to_N N.eqb Pos.eqb negb].
    rewrite app_nil_r.
    rewrite to_N_byte_of_ascii
      by (eapply Forall_impl; [apply str_of_N_digits | apply digit_is_ascii]).
    rewrite int_of_str_of_N. now rewrite nat_N_Z.
  - exact Hf.
Qed.

(** X1: what one side sends, the other side receives.  For every text
    that UTF-8 can encode, the bytes [_send] writes on a fresh
    connection, cut into reads in any way, make [_receive] return the
    text as [_send] normalised it: trimmed, without its trailing dots
    and newlines, and closed by one dot and one newline. *)
Theorem receive_what_was_sent value sender s sent chunks fuel receiver :
  _socket (thread sender) = Some s -> connected s = true -> can_send 2 s ->
  outbox s = [] ->
  Forall (fun c => is_scalar c = true) value ->
  outbox <$> _socket (thread (_send value sender).2) = Some sent ->
  reading receiver (Data <$> chunks) ->
  concat chunks = concat sent ->
  (stream_size chunks < fuel)%nat ->
  (_receive fuel receiver).1 = Return (normalized value ++ [DOT; LF]).
Proof.
  intros Hs Hc Hb Hempty Hv Hsent Hr Hcat Hf.
  destruct (proj1 (utf8_encode_scalars _) (normalized_scalars value Hv))
    as [body Hbody].
  rewrite (send_run value sender s body Hs Hc Hb Hbody), Hempty in Hsent.
  injection Hsent as <-.
  cbn [app concat] in Hcat. rewrite app_nil_r in Hcat.
  rewrite (receive_result fuel receiver body)
    by now apply (receive_loop_frame body chunks).
  now rewrite (utf8_decode_encode _ _ Hbody).
Qed.

Lemma receive_what_was_sent_witness :
  (_receive 40
     (session [Data (ascii_bytes "1"); Data (ascii_bytes "1." ++ [x0a]);
               Data (ascii_bytes "member"); Data (ascii_bytes "(X)." ++ [x0a])]
        None)).1
  = Return (py "member(X)" ++ [DOT; LF]).
Proof.
  apply (receive_what_was_sent (py " member(X)..  ") (session [] None)
           {| connected := true; inbox := []; outbox := [];
              send_budget := None |}
           [ascii_bytes "11." ++ [x0a]; ascii_bytes "member(X)." ++ [x0a]]
           [ascii_bytes "1"; ascii_bytes "1." ++ [x0a];
            ascii_bytes "member"; ascii_bytes "(X)." ++ [x0a]]).
  - reflexivity.
  - reflexivity.
  - exact I.
  - reflexivity.
  - repeat constructor.
  - vm_compute. reflexivity.
  - eexists; repeat split.
  - reflexivity.
  - vm_compute. lia.
Defined.

(** * Further properties of the code *)

(** ** The transport on streams that break or overrun *)

Lemma socket_recv_reset n m later :
  reading m (Reset :: later) ->
  exists m', socket_recv n m = (Raise OSError, m').
Proof.
  intros (s & Hs & Hc & Hi). unfold socket_recv. rewrite Hs, Hc, Hi.
  eexists. reflexivity.
Qed.

Lemma receive_loop_raises fuel received expected acc sizeBytes m e m' :
  match expected with
  | None => True
  | Some n => (received <? n)%Z = true
  end ->
  socket_recv 4096 m = (Raise e, m') ->
  receive_loop (S fuel) received expected acc sizeBytes m = (Raise e, m').
Proof.
  intros Hw R. cbn [receive_loop].
  destruct expected as [n|]; [rewrite Hw|];
    unfold mbind, M_bind; now rewrite R.
Qed.

Lemma reading_step m chunk rest later :
  reading m ((Data <$> chunk :: rest) ++ later) ->
  exists m',
    socket_recv 4096 m = (Return (recv_split chunk).1, m')
    /\ reading m' ((Data <$> (recv_split chunk).2 ++ rest) ++ later).
Proof.
  intros Hr. rewrite fmap_cons in Hr. cbn [app] in Hr.
  destruct (socket_recv_chunk m chunk _ Hr) as (m' & R & Hr' & _).
  exists m'. split; [exact R|].
  now rewrite fmap_app, <- app_assoc.
Qed.

Lemma receive_loop_body_reset fuel chunks acc sizeBytes expected m later :
  reading m ((Data <$> chunks) ++ Reset :: later) ->
  (Z.of_nat (length acc + length (concat chunks)) < expected)%Z ->
  (stream_size chunks < fuel)%nat ->
  (receive_loop fuel (Z.of_nat (length acc)) (Some expected) acc sizeBytes m).1
  = Raise OSError.
Proof.
  revert chunks acc m.
  induction fuel as [|fuel IH]; intros chunks acc m Hr He Hf; [lia|].
  destruct chunks as [|chunk rest].
  - destruct (socket_recv_reset 4096 m later Hr) as (m' & R).
    rewrite (receive_loop_raises _ _ _ _ _ m OSError m'); [reflexivity| |exact R].
    apply Z.ltb_lt. lia.
  - destruct (reading_step m chunk rest _ Hr) as (m' & R & Hr').
    rewrite (receive_loop_body_step _ _ _ _ _ m _ m')
      by (try exact R; apply Z.ltb_lt; lia).
    rewrite <- Nat2Z.inj_add, <- length_app.
    apply (IH _ _ _ Hr').
    + rewrite concat_app, !length_app. cbn [concat] in He.
      rewrite <- (recv_split_concat chunk) in He.
      rewrite !length_app in He. lia.
    + pose proof (recv_split_smaller chunk rest). lia.
Qed.

Lemma receive_loop_reset fuel chunks sizeBytes m later :
  reading m ((Data <$> chunks) ++ Reset :: later) ->
  Forall (fun x => Byte.to_N x <> 10) (concat chunks)
  \/ (exists header partial expected,
        concat chunks = header ++ x0a :: partial
        /\ Forall (fun x => Byte.to_N x <> 10) header
        /\ int_of_str (Byte.to_N <$> (sizeBytes ++ without_dots header))
           = Some expected
        /\ (Z.of_nat (length partial) < expected)%Z) ->
  (stream_size chunks < fuel)%nat ->
  (receive_loop fuel 0%Z None [] sizeBytes m).1 = Raise OSError.
Proof.
  revert chunks sizeBytes m.
  induction fuel as [|fuel IH]; intros chunks sizeBytes m Hr Hcut Hf; [lia|].
  destruct chunks as [|chunk rest].
  { destruct (socket_recv_reset 4096 m later Hr) as (m' & R).
    now rewrite (receive_loop_raises fuel 0%Z None [] sizeBytes m OSError m' I R). }
  destruct (reading_step m chunk rest _ Hr) as (m' & R & Hr').
  rewrite (receive_loop_header_step _ _ _ _ m _ m' R).
  pose proof (recv_split_smaller chunk rest) as Hsmall.
  assert (Hcat : (recv_split chunk).1
                 ++ concat ((recv_split chunk).2 ++ rest)
                 = concat (chunk :: rest)).
  { now rewrite concat_app, app_assoc, recv_split_concat. }
  remember (recv_split chunk).1 as first eqn:Efirst.
  remember ((recv_split chunk).2 ++ rest) as rest' eqn:Erest.
  clear Efirst Erest Hr R. rewrite <- Hcat in Hcut. clear Hcat.
  destruct Hcut as [Hnl | (header & partial & expected & Hcat & Hnl & Hlen & Hlt)].
  - apply Forall_app in Hnl as [Hn1 Hn2].
    rewrite scan_header_prefix by exact Hn1.
    apply (IH rest' _ m' Hr'); [now left | lia].
  - apply app_eq_inv in Hcat as [(k & Ef & Ek) | (k & Eh & Ek)].
    + destruct k as [|x k].
      * rewrite app_nil_r in Ef. subst first. cbn [app] in Ek.
        rewrite scan_header_prefix by exact Hnl.
        apply (IH rest' _ m' Hr'); [|lia]. right.
        exists [], partial, expected.
        split; [now symmetry|]. split; [constructor|].
        split; [|exact Hlt].
        cbn [without_dots List.filter]. now rewrite app_nil_r.
      * cbn [app] in Ek. injection Ek as <- Ek. subst first.
        rewrite scan_header_newline by exact Hnl.
        rewrite Hlen. cbn [or_raise mbind outcome_bind app Z.add].
        apply (receive_loop_body_reset _ rest' k _ _ m' later Hr'); [|lia].
        rewrite Ek, length_app in Hlt. exact Hlt.
    + subst header. apply Forall_app in Hnl as [Hn1 Hn2].
      rewrite scan_header_prefix by exact Hn1.
      apply (IH rest' _ m' Hr'); [|lia]. right.
      exists k, partial, expected.
      split; [exact Ek|]. split; [exact Hn2|]. split; [|exact Hlt].
      now rewrite <- app_assoc, <- without_dots_app.
Qed.

Lemma receive_raises fuel m e :
  (receive_loop fuel 0%Z None [] [] m).1 = Raise e ->
  (_receive fuel m).1 = Raise e.
Proof.
  unfold _receive, mbind, M_bind.
  destruct (receive_loop fuel 0%Z None [] [] m) as [o m']. cbn [fst].
  now intros ->.
Qed.

(** X2: when the connection fails ([recv] raises) before the message is
    complete, in its header or in its body, [_receive] raises that
    [OSError], however the bytes before the failure were cut into
    reads. *)
Theorem receive_raises_on_reset chunks later fuel m :
  reading m ((Data <$> chunks) ++ Reset :: later) ->
  Forall (fun x => Byte.to_N x <> 10) (concat chunks)
  \/ (exists header partial expected,
        concat chunks = header ++ x0a :: partial
        /\ Forall (fun x => Byte.to_N x <> 10) header
        /\ int_of_str (Byte.to_N <$> without_dots header) = Some expected
        /\ (Z.of_nat (length partial) < expected)%Z) ->
  (stream_size chunks < fuel)%nat ->
  (_receive fuel m).1 = Raise OSError.
Proof.
  intros Hr Hcut Hf. apply receive_raises.
  now apply (receive_loop_reset fuel chunks [] m later).
Qed.

Lemma receive_raises_on_reset_witness :
  (_receive 9 (session [Data (ascii_bytes "7."); Data (x0a :: ascii_bytes "hel");
                        Reset] None)).1
  = Raise OSError.
Proof.
  apply (receive_raises_on_reset
           [ascii_bytes "7."; x0a :: ascii_bytes "hel"] [] 9).
  - eexists; repeat split.
  - right. exists (ascii_bytes "7."), (ascii_bytes "hel"), 7%Z.
    split; [reflexivity|]. split; [repeat constructor; discriminate|].
    split; reflexivity.
  - vm_compute. lia.
Defined.

Lemma receive_loop_bad_header fuel chunks sizeBytes header rest m later :
  reading m ((Data <$> chunks) ++ later) ->
  concat chunks = header ++ x0a :: rest ->
  Forall (fun x => Byte.to_N x <> 10) header ->
  int_of_str (Byte.to_N <$> (sizeBytes ++ without_dots header)) = None ->
  (stream_size chunks < fuel)%nat ->
  (receive_loop fuel 0%Z None [] sizeBytes m).1 = Raise ValueError.
Proof.
  revert chunks sizeBytes header m.
  induction fuel as [|fuel IH];
    intros chunks sizeBytes header m Hr Hcat Hnl Hlen Hf; [lia|].
  destruct chunks as [|chunk others];
    [now destruct header; discriminate Hcat|].
  destruct (reading_step m chunk others _ Hr) as (m' & R & Hr').
  rewrite (receive_loop_header_step _ _ _ _ m _ m' R).
  pose proof (recv_split_smaller chunk others) as Hsmall.
  assert (Hcat' : (recv_split chunk).1
                  ++ concat ((recv_split chunk).2 ++ others)
                  = header ++ x0a :: rest).
  { rewrite concat_app, app_assoc, recv_split_concat. exact Hcat. }
  remember (recv_split chunk).1 as first eqn:Efirst.
  remember ((recv_split chunk).2 ++ others) as rest' eqn:Erest.
  clear Efirst Erest Hcat Hr R.
  apply app_eq_inv in Hcat' as [(k & Ef & Ek) | (k & Eh & Ek)].
  - destruct k as [|x k].
    + rewrite app_nil_r in Ef. subst first. cbn [app] in Ek.
      rewrite scan_header_prefix by exact Hnl.
      apply (IH rest' _ [] m' Hr'); [now symmetry | constructor | | lia].
      cbn [without_dots List.filter app]. now rewrite app_nil_r.
    + cbn [app] in Ek. injection Ek as <- Ek. subst first.
      rewrite scan_header_newline by exact Hnl.
      rewrite Hlen. reflexivity.
  - subst header. apply Forall_app in Hnl as [Hn1 Hn2].
    rewrite scan_header_prefix by exact Hn1.
    apply (IH rest' _ k m' Hr'); [exact Ek | exact Hn2 | | lia].
    now rewrite <- app_assoc, <- without_dots_app.
Qed.

(** X3: a header whose bytes, the dots left out, are not a decimal number
    makes [_receive] raise [ValueError] when its newline arrives, however
    the bytes are cut into reads; a line of keepalive dots alone is such a
    header. *)
Theorem receive_rejects_bad_header chunks later header rest fuel m :
  reading m ((Data <$> chunks) ++ later) ->
  concat chunks = header ++ x0a :: rest ->
  Forall (fun x => Byte.to_N x <> 10) header ->
  int_of_str (Byte.to_N <$> without_dots header) = None ->
  (stream_size chunks < fuel)%nat ->
  (_receive fuel m).1 = Raise ValueError.
Proof.
  intros Hr Hcat Hnl Hlen Hf. apply receive_raises.
  now apply (receive_loop_bad_header fuel chunks [] header rest m later).
Qed.

Lemma receive_rejects_bad_header_witness :
  (_receive 9 (session [Data (ascii_bytes ".."); Data (ascii_bytes "." ++ [x0a])]
                 None)).1
  = Raise ValueError.
Proof.
  apply (receive_rejects_bad_header
           [ascii_bytes ".."; ascii_bytes "." ++ [x0a]] []
           (ascii_bytes "...") [] 9).
  - eexists; repeat split.
  - reflexivity.
  - repeat constructor; discriminate.
  - reflexivity.
  - vm_compute. lia.
Defined.

Lemma recv_split_small chunk :
  (length chunk <= 4096)%nat -> recv_split chunk = (chunk, []).
Proof.
  intros H. unfold recv_split.
  now destruct (Nat.leb_spec (length chunk) 4096); [|lia].
Qed.

Lemma reading_read m chunk rest later :
  (length chunk <= 4096)%nat ->
  reading m ((Data <$> chunk :: rest) ++ later) ->
  exists m',
    socket_recv 4096 m = (Return chunk, m')
    /\ reading m' ((Data <$> rest) ++ later).
Proof.
  intros Hsmall Hr.
  destruct (reading_step m chunk rest later Hr) as (m' & R & Hr').
  rewrite recv_split_small in R, Hr' by exact Hsmall.
  now exists m'.
Qed.

Lemma receive_loop_body_overrun front :
  forall fuel final acc sizeBytes expected m later,
    reading m ((Data <$> front ++ [final]) ++ later) ->
    Forall (fun c => (length c <= 4096)%nat) (front ++ [final]) ->
    (Z.of_nat (length acc + length (concat front)) < expected)%Z ->
    (expected
     <= Z.of_nat (length acc + length (concat front) + length final))%Z ->
    (length front < fuel)%nat ->
    (receive_loop fuel (Z.of_nat (length acc)) (Some expected) acc sizeBytes
       m).1
    = Return (acc ++ concat front ++ final).
Proof.
  induction front as [|chunk front IH];
    intros fuel final acc sizeBytes expected m later Hr Hs Hlow Hup Hf;
    (destruct fuel as [|fuel]; [cbn in Hf; lia|]);
    apply Forall_cons in Hs as [Hc Hs].
  - destruct (reading_read m final [] later Hc Hr) as (m' & R & _).
    rewrite (receive_loop_body_step _ _ _ _ _ m _ m')
      by (try exact R; apply Z.ltb_lt; cbn in Hlow; lia).
    rewrite receive_loop_done; [reflexivity|].
    apply Z.ltb_ge. cbn in Hup. lia.
  - destruct (reading_read m chunk _ later Hc Hr) as (m' & R & Hr').
    rewrite (receive_loop_body_step _ _ _ _ _ m _ m')
      by (try exact R; apply Z.ltb_lt; lia).
    rewrite <- Nat2Z.inj_add, <- length_app.
    cbn [concat] in Hlow, Hup. rewrite length_app in Hlow, Hup.
    rewrite (IH fuel final (acc ++ chunk) sizeBytes expected m' later Hr' Hs);
      rewrite ?length_app; cbn [length] in *; try lia.
    cbn [concat]. now rewrite <- !app_assoc.
Qed.

Lemma receive_loop_overrun front :
  forall fuel final sizeBytes header body extra m later,
    reading m ((Data <$> front ++ [final]) ++ later) ->
    Forall (fun c => (length c <= 4096)%nat) (front ++ [final]) ->
    concat (front ++ [final]) = header ++ x0a :: body ++ extra ->
    Forall (fun x => Byte.to_N x <> 10) header ->
    int_of_str (Byte.to_N <$> (sizeBytes ++ without_dots header))
    = Some (Z.of_nat (length body)) ->
    (length (concat front) < length header + 1 + length body)%nat ->
    (length front < fuel)%nat ->
    (receive_loop fuel 0%Z None [] sizeBytes m).1 = Return (body ++ extra).
Proof.
  induction front as [|chunk front IH];
    intros fuel final sizeBytes header body extra m later
      Hr Hs Hcat Hnl Hlen Hcount Hf;
    (destruct fuel as [|fuel]; [cbn in Hf; lia|]);
    pose proof Hs as Hs'; apply Forall_cons in Hs' as [Hc Hs'].
  - destruct (reading_read m final [] later Hc Hr) as (m' & R & _).
    rewrite (receive_loop_header_step _ _ _ _ m _ m' R).
    cbn [app concat] in Hcat. rewrite app_nil_r in Hcat. subst final.
    rewrite scan_header_newline by exact Hnl.
    rewrite Hlen. cbn [or_raise mbind outcome_bind app Z.add].
    rewrite receive_loop_done; [reflexivity|].
    apply Z.ltb_ge. rewrite length_app. lia.
  - destruct (reading_read m chunk _ later Hc Hr) as (m' & R & Hr').
    rewrite (receive_loop_header_step _ _ _ _ m _ m' R).
    cbn [app concat] in Hcat, Hcount. rewrite length_app in Hcount.
    apply app_eq_inv in Hcat as [(k & Ef & Ek) | (k & Eh & Ek)].
    + destruct k as [|x k].
      * rewrite app_nil_r in Ef. subst chunk. cbn [app] in Ek.
        rewrite scan_header_prefix by exact Hnl.
        apply (IH fuel final _ [] body extra m' later Hr' Hs');
          [now symmetry | constructor | | cbn [length]; lia | cbn in Hf; lia].
        cbn [without_dots List.filter app]. now rewrite app_nil_r.
      * cbn [app] in Ek. injection Ek as <- Ek. subst chunk.
        rewrite scan_header_newline by exact Hnl.
        rewrite Hlen. cbn [or_raise mbind outcome_bind app Z.add].
        rewrite !length_app in Hcount. cbn [length] in Hcount.
        assert (Hall : (length body + length extra
                        = length k + length (concat front) + length final)%nat).
        { apply (f_equal (@length _)) in Ek.
          rewrite concat_app in Ek. cbn [concat] in Ek.
          rewrite app_nil_r, !length_app in Ek. lia. }
        rewrite (receive_loop_body_overrun front fuel final k _ _ m' later
                   Hr' Hs'); [| lia | lia | cbn in Hf; lia].
        rewrite Ek, concat_app. cbn [concat]. now rewrite app_nil_r.
    + subst header. apply Forall_app in Hnl as [Hn1 Hn2].
      rewrite scan_header_prefix by exact Hn1.
      rewrite length_app in Hcount.
      apply (IH fuel final _ k body extra m' later Hr' Hs');
        [exact Ek | exact Hn2 | | lia | cbn in Hf; lia].
      now rewrite <- app_assoc, <- without_dots_app.
Qed.

(** X4: [_receive] does not stop at the announced length.  When the
    reads (of at most 4096 bytes each) bring more than the header
    announces, the last read, the one that completes the announced
    body, is kept whole: the bytes behind the body in that read are
    returned with it, as part of the decoded message. *)
Theorem receive_keeps_whole_last_read front final later header body extra
    fuel m :
  reading m ((Data <$> front ++ [final]) ++ later) ->
  Forall (fun c => (length c <= 4096)%nat) (front ++ [final]) ->
  concat (front ++ [final]) = header ++ x0a :: body ++ extra ->
  Forall (fun x => Byte.to_N x <> 10) header ->
  int_of_str (Byte.to_N <$> without_dots header)
  = Some (Z.of_nat (length body)) ->
  (length (concat front) < length header + 1 + length body)%nat ->
  (length front < fuel)%nat ->
  (_receive fuel m).1
  = or_raise UnicodeDecodeError (utf8_decode (body ++ extra)).
Proof.
  intros Hr Hs Hcat Hnl Hlen Hcount Hf. apply receive_result.
  now apply (receive_loop_overrun front fuel final [] header body extra m
               later).
Qed.

Lemma receive_keeps_whole_last_read_witness :
  (_receive 3
     (session [Data (ascii_bytes "3."); Data (x0a :: ascii_bytes "ab.6.")]
        None)).1
  = Return (py "ab.6.").
Proof.
  apply (receive_keeps_whole_last_read
           [ascii_bytes "3."] (x0a :: ascii_bytes "ab.6.") []
           (ascii_bytes "3.") (ascii_bytes "ab.") (ascii_bytes "6.") 3).
  - eexists; repeat split.
  - repeat constructor; cbn; lia.
  - reflexivity.
  - repeat constructor; discriminate.
  - reflexivity.
  - cbn. lia.
  - cbn. lia.
Defined.

(** ** Terms without a rendering, replies without a class *)

Section TermEdges.
Context `{UnicodeData}.

(** The outcome of rendering each element of a list, given the outcome
    for each element. *)
Lemma render_each_outcome (items : list json_term) :
  Forall (fun t =>
    match json_to_prolog t with
    | Return _ => well_named t = true
    | Raise e => e = IndexError /\ well_named t = false
    | Running => False
    end) items ->
  match
    (fix each (items : list json_term) : outcome (list str) :=
       match items with
       | [] => Return []
       | item :: rest =>
           s ← json_to_prolog item; ss ← each rest; Return (s :: ss)
       end) items
  with
  | Return _ => forallb well_named items = true
  | Raise e => e = IndexError /\ forallb well_named items = false
  | Running => False
  end.
Proof.
  induction 1 as [|t rest Ht _ IH]; [reflexivity|].
  cbn [forallb]. destruct (json_to_prolog t) as [s|e|]; [| |contradiction].
  - rewrite Ht. cbn [mbind outcome_bind andb].
    match goal with
    | |- context [mbind _ ?o] => destruct o as [ss|e|]
    end; cbn [mbind outcome_bind]; exact IH.
  - destruct Ht as [-> ->]. cbn [mbind outcome_bind andb]. now split.
Qed.

Lemma json_to_prolog_outcome t :
  match json_to_prolog t with
  | Return _ => well_named t = true
  | Raise e => e = IndexError /\ well_named t = false
  | Running => False
  end.
Proof.
  induction t as [s|n|items IH|functor args IH] using json_term_induction.
  - destruct s as [|c r]; [now split|].
    destruct (quote_nonempty c r) as [q Hq].
    cbn [json_to_prolog]. rewrite Hq. reflexivity.
  - reflexivity.
  - cbn [json_to_prolog well_named].
    pose proof (render_each_outcome items IH) as E.
    match type of E with
    | match ?o with _ => _ end => destruct o as [ss|e|]
    end; cbn [mbind outcome_bind]; exact E.
  - cbn [json_to_prolog well_named].
    pose proof (render_each_outcome args IH) as E.
    match type of E with
    | match ?o with _ => _ end => destruct o as [ss|e|]
    end; cbn [mbind outcome_bind]; [| |contradiction].
    + rewrite E, andb_true_r. destruct functor as [|c r]; [now split|].
      rewrite prolog_name_functor.
      destruct (quote_nonempty c r) as [q Hq].
      cbn [mbind outcome_bind]. rewrite Hq. reflexivity.
    + destruct E as [-> ->]. now rewrite andb_false_r.
Qed.


Lemma json_to_prolog_unnamed t :
  well_named t = false -> json_to_prolog t = Raise IndexError.
Proof.
  intros Hw. pose proof (json_to_prolog_outcome t) as E.
  destruct (json_to_prolog t) as [s|e|]; [congruence | | contradiction].
  now destruct E as [-> _].
Qed.

(** X5: [json_to_prolog] renders a term exactly when every atom,
    variable and functor name in it, at any depth, has a first
    character; on every other term it raises [IndexError]. *)
Theorem json_to_prolog_defined_iff_named t :
  match json_to_prolog t with
  | Return _ => well_named t = true
  | Raise e => e = IndexError /\ well_named t = false
  | Running => False
  end.
Proof. apply json_to_prolog_outcome. Qed.

(** X6: a reply that is neither [exception], [false] nor [true] is no
    error for the classifier: whatever atom, variable or compound the
    server sent is handed back to the caller as it is, and nothing
    changes. *)
Theorem classify_hands_back_other_terms reply name m :
  prolog_name reply = Return name ->
  name ∉ [py "exception"; py "false"; py "true"] ->
  classify_response reply m = (Return (PyTerm reply), m).
Proof.
  intros Hname Hother.
  assert (forall s, s ∈ ["exception"; "false"; "true"]%string ->
                    name_is reply s m = (Return false, m)) as E.
  { intros s Hs. unfold name_is, lift. rewrite Hname.
    cbn [mbind outcome_bind]. do 2 f_equal.
    apply bool_decide_eq_false. intros ->. apply Hother.
    repeat (apply elem_of_cons in Hs as [->|Hs]; [set_solver|]).
    now apply elem_of_nil in Hs. }
  unfold classify_response, mbind, M_bind.
  rewrite !E by set_solver. reflexivity.
Qed.

Lemma new_PrologError_arity cls functor inner second rest :
  new_PrologError cls (JFunctor functor (inner :: second :: rest))
  = Raise AssertionError.
Proof.
  unfold new_PrologError. rewrite prolog_name_functor.
  cbn [mbind outcome_bind].
  now destruct (negb (str_eqb functor (py "exception"))).
Qed.

(** X7: the classifier expects one argument and does not check for it.
    [exception] and [true] without an argument raise [IndexError].
    [exception] with more than one argument returns [None] when the
    first is [no_more_results]; otherwise the constructor of the error
    it is about to raise fails its assertion, so the caller sees
    [AssertionError], with the failure flag set when the first argument
    is [connection_failed]. *)
Theorem classify_unchecked_argument_count m :
  classify_response (JFunctor (py "exception") []) m = (Raise IndexError, m)
  /\ classify_response (JFunctor (py "true") []) m = (Raise IndexError, m)
  /\ forall inner second rest,
       let reply := JFunctor (py "exception") (inner :: second :: rest) in
       (classify_response reply m).1
       = (if equals_str inner (py "no_more_results") then Return PyNone
          else Raise AssertionError)
       /\ failed (classify_response reply m).2
          = failed m
            || (negb (equals_str inner (py "no_more_results"))
                && equals_str inner (py "connection_failed")).
Proof.
  split; [reflexivity|]. split; [reflexivity|].
  intros inner second rest reply. subst reply.
  assert (R : forall cls m',
    @raise_new _ pyvalue cls
      (JFunctor (py "exception") (inner :: second :: rest)) m'
    = (Raise AssertionError, m')).
  { intros cls m'. unfold raise_new. now rewrite new_PrologError_arity. }
  unfold classify_response, mbind, M_bind.
  rewrite name_is_functor.
  change (str_eqb (py "exception") (py "exception")) with true.
  cbv beta iota. rewrite arg0_is_first.
  destruct (equals_str inner (py "no_more_results"));
    [split; [reflexivity | now rewrite orb_false_r]|].
  cbv beta iota. rewrite arg0_is_first.
  destruct (equals_str inner (py "connection_failed")).
  { unfold mark_connection_failed, modify. cbv beta iota. rewrite R.
    split; [reflexivity | now rewrite orb_true_r]. }
  repeat (cbv beta iota; rewrite arg0_is_first;
          match goal with
          | |- context [if equals_str inner ?s then _ else _] =>
              destruct (equals_str inner s);
              [rewrite R; split; [reflexivity | now rewrite orb_false_r]|]
          end).
  rewrite R. split; [reflexivity | now rewrite orb_false_r].
Qed.

Lemma unnamed_not_literal inner s :
  well_named inner = false -> s <> [] -> equals_str inner s = false.
Proof.
  intros Hw Hs. apply equals_str_false. intros ->.
  cbn in Hw. apply negb_false_iff, bool_decide_eq_true in Hw. contradiction.
Qed.

Lemma classify_unnamed inner m :
  well_named inner = false ->
  classify_response (exception_reply inner) m = (Raise IndexError, m).
Proof.
  intros Hw.
  assert (R : forall cls m',
    @raise_new _ pyvalue cls (exception_reply inner) m'
    = (Raise IndexError, m')).
  { intros cls m'. unfold raise_new, new_PrologError, exception_reply.
    rewrite prolog_name_functor. cbn.
    now rewrite (json_to_prolog_unnamed inner Hw). }
  unfold classify_response, mbind, M_bind. unfold exception_reply at 1.
  rewrite name_is_functor.
  change (str_eqb (py "exception") (py "exception")) with true.
  fold (exception_reply inner).
  repeat (cbv beta iota; unfold exception_reply at 1; rewrite arg0_is_first;
          fold (exception_reply inner);
          rewrite (unnamed_not_literal inner _ Hw) by discriminate).
  cbv beta iota. apply R.
Qed.

(** X8: an [exception] reply whose term holds an empty atom or functor
    name, at any depth, raises no [PrologError]: building the error
    renders the term, and the caller sees the [IndexError] of that
    rendering. *)
Theorem classify_unnamed_exception inner m :
  well_named inner = false ->
  classify_response (exception_reply inner) m = (Raise IndexError, m).
Proof. apply classify_unnamed. Qed.

(** X9: an error whose term is a number or a list has no name to
    compare.  The classifier raises such a term as a plain
    [PrologError] that carries it, or, when a list holds an empty name,
    the [IndexError] of its rendering; and [is_prolog_exception] on an
    error that carries a number or a list raises [TypeError] whatever
    name is asked for. *)
Theorem exception_without_name payload m :
  has_name payload = false ->
  classify_response (exception_reply payload) m
  = (Raise (if well_named payload then Prolog PrologError payload
            else IndexError), m)
  /\ forall cls term_name,
       is_prolog_exception (Prolog cls payload) term_name = Raise TypeError.
Proof.
  intros Hname. split.
  - destruct (well_named payload) eqn:Hw.
    + rewrite classify_exception by exact Hw. now destruct payload.
    + now apply classify_unnamed.
  - intros cls term_name. now destruct payload.
Qed.
End TermEdges.

Lemma classify_hands_back_other_terms_witness :
  @classify_response ascii_only
    (JFunctor (py "threads") [JStr (py "c1"); JStr (py "g1")])
    (session [] None)
  = (Return (PyTerm (JFunctor (py "threads") [JStr (py "c1"); JStr (py "g1")])),
     session [] None).
Proof.
  apply (@classify_hands_back_other_terms ascii_only _ (py "threads")).
  - reflexivity.
  - vm_compute. intros Hin.
    repeat (apply elem_of_cons in Hin as [Hin|Hin]; [discriminate Hin|]).
    now apply elem_of_nil in Hin.
Defined.

Lemma classify_unnamed_exception_witness :
  @classify_response ascii_only
    (exception_reply (JFunctor (py "error") [JStr []; JStr (py "_")]))
    (session [] None)
  = (Raise IndexError, session [] None).
Proof.
  now apply (@classify_unnamed_exception ascii_only).
Defined.

Lemma exception_without_name_witness :
  @classify_response ascii_only (exception_reply (JList [JNum 42; JStr []]))
    (session [] None)
  = (Raise IndexError, session [] None)
  /\ @is_prolog_exception ascii_only (Prolog PrologError (JNum 42)) (py "foo")
     = Raise TypeError.
Proof.
  split.
  - apply (proj1 (@exception_without_name ascii_only
                    (JList [JNum 42; JStr []]) (session [] None) eq_refl)).
  - apply (proj2 (@exception_without_name ascii_only (JNum 42)
                    (session [] None) eq_refl)).
Defined.

(** ** Requests that cannot be written *)

Lemma low_scalar c : c < 55296 -> is_scalar c = true.
Proof.
  intros Hc. unfold is_scalar, is_surrogate, between.
  destruct (N.ltb_spec c 1114112); [|lia].
  destruct (N.leb_spec 55296 c); [lia | reflexivity].
Qed.

Lemma space_scalar c : isspace c = true -> is_scalar c = true.
Proof.
  intros Hc. unfold is_scalar, is_surrogate, between.
  destruct (N.ltb_spec c 1114112) as [_|Hbig].
  - destruct (N.leb_spec 55296 c) as [Hlow|]; [|reflexivity].
    destruct (N.leb_spec c 57343) as [Hup|]; [|reflexivity].
    exfalso. revert Hc. unfold isspace, between.
    repeat match goal with
    | |- context [?a <=? ?b] => destruct (N.leb_spec a b); try lia
    | |- context [?a =? ?b] => destruct (N.eqb_spec a b); try lia
    end; cbn; discriminate.
  - exfalso. revert Hc. unfold isspace, between.
    repeat match goal with
    | |- context [?a <=? ?b] => destruct (N.leb_spec a b); try lia
    | |- context [?a =? ?b] => destruct (N.eqb_spec a b); try lia
    end; cbn; discriminate.
Qed.

Lemma py_scalars s : Forall (fun c => is_scalar c = true) (py s).
Proof.
  unfold py. apply Forall_forall. intros c Hc.
  apply list_elem_of_In, in_map_iff in Hc as (a & <- & _).
  apply low_scalar. pose proof (N_ascii_bounded a). lia.
Qed.

Lemma str_of_Z_scalars z : Forall (fun c => is_scalar c = true) (str_of_Z z).
Proof.
  assert (forall n, Forall (fun c => is_scalar c = true) (str_of_N n)) as D.
  { intros n. eapply Forall_impl; [apply str_of_N_digits|].
    intros c Hc. apply low_scalar. apply digit_is_ascii in Hc. lia. }
  destruct z; cbn [str_of_Z]; [apply D | apply D|].
  constructor; [reflexivity | apply D].
Qed.

(** The text [_send] encodes holds every code point of the request that
    UTF-8 cannot encode. *)
Lemma normalized_keeps_unencodable value :
  Forall (fun c => is_scalar c = true) (normalized value) ->
  Forall (fun c => is_scalar c = true) value.
Proof.
  intros Hn.
  destruct (normalized_spec value)
    as (lead & dots & trail & E & Hlead & Htrail & Hdots & _).
  rewrite E. repeat (apply Forall_app; split); try exact Hn.
  - eapply Forall_impl; [exact Hlead | apply space_scalar].
  - eapply Forall_impl; [exact Hdots|]. now intros c [-> | ->].
  - eapply Forall_impl; [exact Htrail | apply space_scalar].
Qed.

Lemma normalized_part_scalars value :
  Forall (fun c => is_scalar c = true) value ->
  Forall (fun c => is_scalar c = true) (normalized value).
Proof.
  intros Hv. apply normalized_scalars in Hv.
  now apply Forall_app in Hv as [Hv _].
Qed.

(** [_send] once the text is encoded: the two writes. *)
Lemma send_encoded value m body :
  utf8_encode (normalized value ++ [DOT; LF]) = Some body ->
  _send value m
  = (socket_sendall (wire_header (length body));; socket_sendall body) m.
Proof.
  intros Hbody. unfold _send, mbind, M_bind. fold (normalized value).
  rewrite Hbody. cbn [lift or_raise].
  rewrite (utf8_encode_ascii _ (header_text_ascii _)).
  reflexivity.
Qed.

Lemma send_without_socket value m :
  Forall (fun c => is_scalar c = true) value ->
  _socket (thread m) = None ->
  _send value m = (Raise AttributeError, m).
Proof.
  intros Hv Hs.
  destruct (proj1 (utf8_encode_scalars _) (normalized_scalars value Hv))
    as [body Hbody].
  rewrite (send_encoded value m body Hbody).
  unfold mbind, M_bind, socket_sendall. now rewrite Hs.
Qed.

Lemma send_unconnected value m s :
  Forall (fun c => is_scalar c = true) value ->
  _socket (thread m) = Some s -> connected s = false ->
  _send value m = (Raise OSError, m).
Proof.
  intros Hv Hs Hc.
  destruct (proj1 (utf8_encode_scalars _) (normalized_scalars value Hv))
    as [body Hbody].
  rewrite (send_encoded value m body Hbody).
  unfold mbind, M_bind, socket_sendall. now rewrite Hs, Hc.
Qed.

(** X10: a request that holds a code point UTF-8 cannot encode, a lone
    surrogate, is refused before anything is written: [_send] raises
    [UnicodeEncodeError] and leaves the connection, the log and the
    flag as they were, whatever the state of the connection. *)
Theorem send_refuses_unencodable value m :
  Exists (fun c => is_scalar c = false) value ->
  _send value m = (Raise UnicodeEncodeError, m).
Proof.
  intros Hbad.
  assert (utf8_encode (normalized value ++ [DOT; LF]) = None) as Hnone.
  { destruct (utf8_encode _) as [body|] eqn:E; [|reflexivity].
    exfalso.
    assert (Forall (fun c => is_scalar c = true) value) as Hv.
    { apply normalized_keeps_unencodable.
      assert (is_Some (utf8_encode (normalized value ++ [DOT; LF]))) as S
        by (rewrite E; eauto).
      apply utf8_encode_scalars in S.
      now apply Forall_app in S as [S _]. }
    apply Exists_exists in Hbad as (c & Hin & Hc).
    rewrite Forall_forall in Hv. specialize (Hv c Hin). congruence. }
  unfold _send, mbind, M_bind. fold (normalized value).
  now rewrite Hnone.
Qed.

Lemma send_refuses_unencodable_witness :
  _send (py "atom_length(" ++ [39; 55296; 39] ++ py ", L)") (session [] None)
  = (Raise UnicodeEncodeError, session [] None).
Proof.
  apply send_refuses_unencodable.
  do 13 apply Exists_cons_tl. apply Exists_cons_hd. reflexivity.
Defined.

(** ** Threads that are not started, or no longer *)

Section ThreadEdges.
Context `{UnicodeData} `{JsonDecoder}.

(** X11: [cancel_query_async], [query_async_result] and [halt_server]
    do not start the thread as [query] and [query_async] do.  Called on
    a thread that holds no socket, never started or stopped, they raise
    [AttributeError], and nothing is connected, written or changed. *)
Theorem unstarted_thread_rejects_async_calls fuel m :
  _socket (thread m) = None ->
  cancel_query_async fuel m = (Raise AttributeError, m)
  /\ (forall wait_timeout_seconds,
        query_async_result fuel wait_timeout_seconds m
        = (Raise AttributeError, m))
  /\ halt_server fuel m = (Raise AttributeError, m).
Proof.
  intros Hs. split; [|split].
  - unfold cancel_query_async, mbind, M_bind.
    rewrite send_without_socket; [reflexivity | | exact Hs].
    apply Forall_app. split; [apply py_scalars | now repeat constructor].
  - intros t. unfold query_async_result, mbind, M_bind.
    rewrite send_without_socket; [reflexivity | | exact Hs].
    repeat (apply Forall_app; split); try apply py_scalars;
      [|now repeat constructor].
    destruct t; [apply str_of_Z_scalars | apply py_scalars].
  - unfold halt_server, mbind, M_bind.
    rewrite send_without_socket; [reflexivity | | exact Hs].
    apply Forall_app. split; [apply py_scalars | now repeat constructor].
Qed.

Lemma try_never_OSError body m :
  (try_except_OSError body m).1 <> Raise OSError.
Proof.
  unfold try_except_OSError. destruct (body m) as [[a|[]|] m1]; discriminate.
Qed.

Lemma then_close_outcome (c : M unit) m :
  (c m).1 <> Raise OSError ->
  ((c;; socket_close) m).1 <> Raise OSError
  /\ forall m', (c;; socket_close) m = (Return tt, m') ->
                _socket (thread m') = None.
Proof.
  intros Hc. unfold mbind, M_bind.
  destruct (c m) as [[[]|e|] m1]; cbn [fst] in *.
  - split; [discriminate|]. now intros m' [= <-].
  - split; [exact Hc | discriminate].
  - split; discriminate.
Qed.

Lemma thread_stop_unfold fuel m :
  PrologThread_stop fuel m
  = if bool_decide (_socket (thread m) ≠ None) then
      ((if negb (connection_failed (server m)) then
          try_except_OSError
            (_send (py "close." ++ [LF]);;
             _return_prolog_response fuel;;
             mret tt)
        else mret tt);;
       socket_close) m
    else (Return tt, m).
Proof.
  unfold PrologThread_stop, mbind, M_bind, get.
  destruct (bool_decide (_socket (thread m) ≠ None)); reflexivity.
Qed.

Lemma thread_stop_outcome fuel m :
  (PrologThread_stop fuel m).1 <> Raise OSError
  /\ forall m', PrologThread_stop fuel m = (Return tt, m') ->
                _socket (thread m') = None.
Proof.
  rewrite thread_stop_unfold.
  destruct (bool_decide (_socket (thread m) ≠ None)) eqn:E.
  - apply then_close_outcome.
    destruct (negb (connection_failed (server m)));
      [apply try_never_OSError | discriminate].
  - apply bool_decide_eq_false in E.
    split; [discriminate|]. intros m' [= <-].
    destruct (_socket (thread m)); [|reflexivity].
    exfalso. apply E. discriminate.
Qed.

(** X12: [PrologThread.stop] never raises [OSError], and it is
    idempotent: whenever it returns, the thread holds no socket any
    more, and stopping it again returns at once and changes nothing. *)
Theorem thread_stop_is_idempotent fuel m :
  (PrologThread_stop fuel m).1 <> Raise OSError
  /\ forall m',
       PrologThread_stop fuel m = (Return tt, m') ->
       _socket (thread m') = None
       /\ forall fuel', PrologThread_stop fuel' m' = (Return tt, m').
Proof.
  destruct (thread_stop_outcome fuel m) as [Hno Hnone].
  split; [exact Hno|]. intros m' Hstop.
  split; [now apply Hnone|]. intros fuel'.
  apply thread_stop_unconnected. now apply Hnone.
Qed.

End ThreadEdges.

Lemma unstarted_thread_rejects_async_calls_witness :
  @query_async_result ascii_only sample_decoder 5 (Some 3%Z)
    (with_thread PrologThread_init (session [] None))
  = (Raise AttributeError, with_thread PrologThread_init (session [] None)).
Proof.
  apply (@unstarted_thread_rejects_async_calls ascii_only sample_decoder 5
           (with_thread PrologThread_init (session [] None)) eq_refl).
Defined.

Lemma thread_stop_is_idempotent_witness :
  _socket
    (thread (@PrologThread_stop ascii_only sample_decoder 10
               (session [Data (frame_of done_text)] None)).2)
  = None
  /\ @PrologThread_stop ascii_only sample_decoder 3
       (@PrologThread_stop ascii_only sample_decoder 10
          (session [Data (frame_of done_text)] None)).2
     = (Return tt,
        (@PrologThread_stop ascii_only sample_decoder 10
           (session [Data (frame_of done_text)] None)).2).
Proof.
  destruct (proj2 (@thread_stop_is_idempotent ascii_only sample_decoder 10
                     (session [Data (frame_of done_text)] None))
              (@PrologThread_stop ascii_only sample_decoder 10
                 (session [Data (frame_of done_text)] None)).2)
    as [Hnone Hagain].
  - vm_compute. reflexivity.
  - split; [exact Hnone | apply Hagain].
Defined.


(** ** Launching and stopping the server process *)

Section ServerEdges.
Context `{UnicodeData} `{JsonDecoder}.

(** [PrologServer.stop] behind its test for a process. *)
Lemma server_stop_unfold fuel kill m :
  PrologServer_stop fuel kill m
  = match _process (server m) with
    | Some _ =>
        ((if kill || connection_failed (server m) then emit Kill
          else
            with_create_thread
              (PrologThread_start (PrologServer_start fuel) fuel)
              (PrologThread_stop fuel)
              (halt_server fuel));;
         emit Wait;;
         (if truthy (_unix_domain_socket (server m))
          then emit (Remove (default [] (_unix_domain_socket (server m))))
          else mret tt);;
         modify (fun m => with_server (set_process None (server m)) m)) m
    | None => (Return tt, m)
    end.
Proof.
  unfold PrologServer_stop, mbind, M_bind, get.
  destruct (_process (server m)); reflexivity.
Qed.

Lemma server_stop_without_process fuel kill m :
  _process (server m) = None -> PrologServer_stop fuel kill m = (Return tt, m).
Proof. intros Hp. rewrite server_stop_unfold. now rewrite Hp. Qed.

(** X14: [PrologServer.stop] is idempotent.  Whenever it returns, by
    the kill or by the orderly halt, the server holds no process any
    more; and on a server without a process, never launched or stopped
    already, it returns at once and changes nothing, whatever [kill]
    is. *)
Theorem server_stop_is_idempotent fuel kill fuel' kill' m m' :
  PrologServer_stop fuel kill m = (Return tt, m') ->
  _process (server m') = None
  /\ PrologServer_stop fuel' kill' m' = (Return tt, m').
Proof.
  intros Hstop.
  assert (_process (server m') = None) as Hnone.
  { rewrite server_stop_unfold in Hstop.
    destruct (_process (server m)) as [p|] eqn:Ep;
      [|injection Hstop as <-; exact Ep].
    unfold mbind, M_bind in Hstop.
    match type of Hstop with
    | context [match ?c m with _ => _ end] =>
        destruct (c m) as [[[]|e|] m1]; try discriminate
    end.
    destruct (truthy (_unix_domain_socket (server m)));
      injection Hstop as <-; reflexivity. }
  split; [exact Hnone | now apply server_stop_without_process].
Qed.

Lemma new_PrologError_message cls message :
  new_PrologError cls (JStr message)
  = Raise (match message with
           | [] => IndexError
           | _ => if str_eqb message (py "exception") then TypeError
                  else AssertionError
           end).
Proof.
  destruct message as [|c r]; [reflexivity|].
  unfold new_PrologError. rewrite prolog_name_nonempty.
  cbn [mbind outcome_bind].
  now destruct (str_eqb (c :: r) (py "exception")).
Qed.

Lemma raise_new_message {A} cls message m :
  str_eqb message [] = false ->
  str_eqb message (py "exception") = false ->
  @raise_new _ A cls (JStr message) m = (Raise AssertionError, m).
Proof.
  intros Hempty Hne. unfold raise_new. rewrite new_PrologError_message.
  rewrite Hne. destruct message; [discriminate | reflexivity].
Qed.

(** X15: [PrologServer.start] with [launch_server] set, no Unix domain
    socket and no traces launches the process and reads two lines of its
    output: the first, through [int], replaces whatever port the server
    was given, the second, without its newline, replaces the password.
    The process handle replaces whatever handle was there, and nothing
    but the launch happens. *)
Theorem server_start_reads_connection_values fuel m p others portString
    passwordString more port :
  _launch_server (server m) = true ->
  _unix_domain_socket (server m) = None ->
  _server_traces (server m) = false ->
  launches (world m) = Some p :: others ->
  stdout p = portString :: passwordString :: more ->
  portString <> [] -> passwordString <> [] ->
  int_of_str (rstrip [LF] portString) = Some port ->
  exists m',
    PrologServer_start fuel m = (Return tt, m')
    /\ _port (server m') = Some port
    /\ _password (server m') = Some (rstrip [LF] passwordString)
    /\ _process (server m') = Some {| pid := pid p; stdout := more |}
    /\ log (world m') = log (world m) ++ [Popen]
    /\ launches (world m') = others
    /\ thread m' = thread m
    /\ failed m' = failed m.
Proof.
  intros Hl Hu Ht Hp Hout Hport Hpw Hint.
  assert (str_eqb portString [] = false) as Eport
    by now apply bool_decide_eq_false.
  assert (str_eqb passwordString [] = false) as Epw
    by now apply bool_decide_eq_false.
  eexists.
  split.
  { destruct fuel; cbn [PrologServer_start];
      unfold mbind, M_bind, get, popen, readline, modify, lift;
      rewrite Hl, Hp, Hu, Ht;
      rewrite bool_decide_true by reflexivity;
      cbn [server with_world with_server set_process _process];
      rewrite Hout, Eport, Hint;
      cbn [or_raise server with_world with_server set_process set_port
             _process stdout];
      rewrite Epw; reflexivity. }
  cbn. repeat split; reflexivity.
Qed.
(** X16: when the launched process says nothing, or something that is
    no number, [PrologServer.start] does not raise the
    [PrologLaunchError] it announces.  At the end of the output the
    error it builds from a message fails the assertion of its
    constructor, and the caller sees [AssertionError]; a first line of
    characters below U+0100 that [int] rejects gives [ValueError].
    Either way the process is neither killed nor waited for, and the
    server keeps its handle. *)
Theorem server_start_without_connection_values fuel m p others :
  _launch_server (server m) = true ->
  _unix_domain_socket (server m) = None ->
  launches (world m) = Some p :: others ->
  (stdout p = [] ->
   exists m',
     PrologServer_start fuel m = (Raise AssertionError, m')
     /\ _process (server m') = Some p
     /\ log (world m') = log (world m) ++ [Popen])
  /\ (forall portString more,
        stdout p = portString :: more -> portString <> [] ->
        Forall (fun c => c < 256) portString ->
        int_of_str (rstrip [LF] portString) = None ->
        exists m',
          PrologServer_start fuel m = (Raise ValueError, m')
          /\ _process (server m') = Some {| pid := pid p; stdout := more |}
          /\ log (world m') = log (world m) ++ [Popen]).
Proof.
  intros Hl Hu Hp. split.
  - intros Hout. eexists. split.
    { destruct fuel; cbn [PrologServer_start];
        unfold mbind, M_bind, get, popen, readline, modify, lift;
        rewrite Hl, Hp, Hu;
        rewrite bool_decide_true by reflexivity;
        cbn [server with_world with_server set_process _process];
        rewrite Hout;
        change (str_eqb [] []) with true; cbv beta iota;
        rewrite raise_new_message by reflexivity; reflexivity. }
    split; reflexivity.
  - intros portString more Hout Hport _ Hint.
    assert (str_eqb portString [] = false) as Eport
      by now apply bool_decide_eq_false.
    eexists. split.
    { destruct fuel; cbn [PrologServer_start];
        unfold mbind, M_bind, get, popen, readline, modify, lift;
        rewrite Hl, Hp, Hu;
        rewrite bool_decide_true by reflexivity;
        cbn [server with_world with_server set_process _process];
        rewrite Hout, Eport, Hint; reflexivity. }
    split; reflexivity.
Qed.
End ServerEdges.

Lemma server_start_reads_connection_values_witness :
  exists m',
    @PrologServer_start ascii_only sample_decoder 3
      (with_world
         {| launches := [Some {| pid := 77;
                                 stdout := [py "4242" ++ [LF];
                                            py "secret" ++ [LF]] |}];
            accepts := []; log := [] |}
         (launched_server false))
    = (Return tt, m')
    /\ _port (server m') = Some 4242%Z
    /\ _password (server m') = Some (py "secret")
    /\ _process (server m') = Some {| pid := 77; stdout := [] |}
    /\ log (world m') = [Popen].
Proof.
  destruct (@server_start_reads_connection_values ascii_only sample_decoder 3
              (with_world
                 {| launches := [Some {| pid := 77;
                                         stdout := [py "4242" ++ [LF];
                                                    py "secret" ++ [LF]] |}];
                    accepts := []; log := [] |}
                 (launched_server false))
              {| pid := 77;
                 stdout := [py "4242" ++ [LF]; py "secret" ++ [LF]] |}
              [] (py "4242" ++ [LF]) (py "secret" ++ [LF]) [] 4242%Z
              eq_refl eq_refl eq_refl eq_refl eq_refl
              ltac:(discriminate) ltac:(discriminate) eq_refl)
    as (m' & Hrun & Hport & Hpw & Hproc & Hlog & _).
  exists m'. repeat split; assumption.
Defined.

Lemma server_start_without_connection_values_witness :
  exists m',
    @PrologServer_start ascii_only sample_decoder 3
      (with_world
         {| launches := [Some {| pid := 77; stdout := [] |}];
            accepts := []; log := [] |}
         (launched_server false))
    = (Raise AssertionError, m')
    /\ _process (server m') = Some {| pid := 77; stdout := [] |}
    /\ log (world m') = [Popen].
Proof.
  apply (proj1 (@server_start_without_connection_values ascii_only
                  sample_decoder 3
                  (with_world
                     {| launches := [Some {| pid := 77; stdout := [] |}];
                        accepts := []; log := [] |}
                     (launched_server false))
                  {| pid := 77; stdout := [] |} []
                  eq_refl eq_refl eq_refl)).
  reflexivity.
Defined.

Lemma server_stop_is_idempotent_witness :
  _process
    (server (@PrologServer_stop ascii_only sample_decoder 10 false
               (launched_server false)).2)
  = None
  /\ @PrologServer_stop ascii_only sample_decoder 2 true
       (@PrologServer_stop ascii_only sample_decoder 10 false
          (launched_server false)).2
     = (Return tt,
        (@PrologServer_stop ascii_only sample_decoder 10 false
           (launched_server false)).2).
Proof.
  apply (@server_stop_is_idempotent ascii_only sample_decoder 10 false 2 true
           (launched_server false)).
  vm_compute. reflexivity.
Defined.

(** ** The launch error is never raised *)

Section Quiet.
Context `{UnicodeData}.

Lemma quiet_return {A} (a : A) : quiet (Return a).
Proof. intros e [=]. Qed.

Lemma quiet_raise {A} e : launch_error e = false -> quiet (@Raise A e).
Proof. now intros He e' [= <-]. Qed.

Lemma quiet_running {A} : quiet (@Running A).
Proof. intros e [=]. Qed.

Lemma quiet_retype {A B} e : quiet (@Raise A e) -> quiet (@Raise B e).
Proof. intros Hq. apply quiet_raise. now apply Hq. Qed.

Lemma quiet_bind {A B} (o : outcome A) (f : A -> outcome B) :
  quiet o -> (forall a, quiet (f a)) -> quiet (o ≫= f).
Proof.
  intros Ho Hf. destruct o as [a|e|]; cbn [mbind outcome_bind].
  - apply Hf.
  - apply quiet_raise. now apply Ho.
  - apply quiet_running.
Qed.

Lemma quiet_or_raise {A} e (x : option A) :
  launch_error e = false -> quiet (or_raise e x).
Proof.
  intros He. destruct x; [apply quiet_return | now apply quiet_raise].
Qed.

Lemma quiet_is_prolog_variable t : quiet (is_prolog_variable t).
Proof. destruct t as [[|c s]| | |]; intros e [=]; now subst. Qed.

Lemma quiet_is_prolog_atom t : quiet (is_prolog_atom t).
Proof. destruct t as [[|c s]| | |]; intros e [=]; now subst. Qed.

Lemma quiet_prolog_name t : quiet (prolog_name t).
Proof.
  destruct t as [[|c s]|n|l|f a]; try (intros e [=]; now subst).
  rewrite prolog_name_nonempty. apply quiet_return.
Qed.

Lemma quiet_prolog_args t : quiet (prolog_args t).
Proof. destruct t; intros e [=]; now subst. Qed.

Lemma quiet_item l i : quiet (item l i).
Proof. now apply quiet_or_raise. Qed.

Lemma quiet_getitem x i : quiet (getitem x i).
Proof.
  destruct x; cbn [getitem];
    try (now apply quiet_or_raise); now apply quiet_raise.
Qed.

Lemma quiet_iterate x : quiet (iterate x).
Proof. destruct x; intros e [=]; now subst. Qed.

Lemma quiet_len x : quiet (len x).
Proof. destruct x; intros e [=]; now subst. Qed.

Lemma quiet_hashable x : quiet (hashable x).
Proof. destruct x; intros e [=]; now subst. Qed.

Lemma quiet_json_to_prolog t : quiet (json_to_prolog t).
Proof.
  intros e He. pose proof (json_to_prolog_outcome t) as E.
  rewrite He in E. now destruct E as [-> _].
Qed.

Lemma quiet_bind_variables answer answerDict :
  quiet (bind_variables answer answerDict).
Proof.
  revert answerDict.
  induction answer as [|a rest IH]; intros answerDict;
    cbn [bind_variables]; [apply quiet_return|].
  repeat (apply quiet_bind; [|intros ?]);
    auto using quiet_prolog_args, quiet_item, quiet_hashable.
Qed.

Lemma quiet_collect_answers answers answerList :
  quiet (collect_answers answers answerList).
Proof.
  revert answerList.
  induction answers as [|a rest IH]; intros answerList;
    cbn [collect_answers]; [apply quiet_return|].
  apply quiet_bind; [apply quiet_len | intros n].
  destruct (n =? 0)%nat; [apply IH|].
  repeat (apply quiet_bind; [|intros ?]);
    auto using quiet_iterate, quiet_bind_variables.
Qed.

Lemma quiet_scan_header headerData sizeBytes :
  quiet (scan_header headerData sizeBytes).
Proof.
  revert sizeBytes.
  induction headerData as [|item rest IH]; intros sizeBytes;
    cbn [scan_header]; [apply quiet_return|].
  destruct (Byte.to_N item =? 46); [apply IH|].
  destruct (Byte.to_N item =? 10); [|apply IH].
  apply quiet_bind; [now apply quiet_or_raise | intros ?; apply quiet_return].
Qed.

(** The constructor hands back an error of the class it was called
    for, or what its own body raised, which is no [PrologError]. *)
Lemma new_PrologError_outcome cls j :
  match new_PrologError cls j with
  | Return e => exists inner, e = Prolog cls inner
  | Raise e => launch_error e = false
  | Running => True
  end.
Proof.
  assert (quiet (new_PrologError cls j)) as Q.
  { unfold new_PrologError.
    apply quiet_bind; [apply quiet_prolog_name | intros name].
    destruct (negb (str_eqb name (py "exception")));
      [now apply quiet_raise|].
    apply quiet_bind; [apply quiet_prolog_args | intros args].
    destruct (negb (length args =? 1)%nat); [now apply quiet_raise|].
    repeat (apply quiet_bind; [|intros ?]);
      auto using quiet_prolog_args, quiet_item, quiet_json_to_prolog.
    intros e [=]. }
  destruct (new_PrologError cls j) as [e|e|] eqn:E; [|now apply Q|exact I].
  unfold new_PrologError in E.
  repeat match type of E with
  | (?o ≫= _) = Return _ =>
      destruct o; cbn [mbind outcome_bind] in E; try discriminate
  | (if ?b then _ else _) = Return _ => destruct b; try discriminate
  end.
  injection E as <-. eauto.
Qed.
End Quiet.

Section NeverLaunchError.
Context `{UnicodeData} `{JsonDecoder}.

Lemma nle_ret {A} (a : A) : never_launch_error (mret a : M A).
Proof. intros m. apply quiet_return. Qed.

Lemma nle_lift {A} (o : outcome A) : quiet o -> never_launch_error (lift o).
Proof. intros Ho m. exact Ho. Qed.

Lemma nle_get : never_launch_error get.
Proof. intros m. apply quiet_return. Qed.

Lemma nle_bind {A B} (c : M A) (f : A -> M B) :
  never_launch_error c -> (forall a, never_launch_error (f a)) ->
  never_launch_error (c ≫= f).
Proof.
  intros Hc Hf m. unfold mbind, M_bind. specialize (Hc m).
  destruct (c m) as [[a|e|] m']; cbn [fst] in *;
    [apply Hf | apply (quiet_retype e Hc) | apply quiet_running].
Qed.

Lemma nle_modify f : never_launch_error (modify f).
Proof. intros m. apply quiet_return. Qed.

Lemma nle_emit e : never_launch_error (emit e).
Proof. apply nle_modify. Qed.

Lemma nle_put_socket s : never_launch_error (put_socket s).
Proof. apply nle_modify. Qed.

Lemma nle_set_communication c :
  never_launch_error (set_communication_thread_id c).
Proof. apply nle_modify. Qed.

Lemma nle_set_goal g : never_launch_error (set_goal_thread_id g).
Proof. apply nle_modify. Qed.

Lemma nle_mark : never_launch_error mark_connection_failed.
Proof. apply nle_modify. Qed.

(** Raising an error of another class. *)
Lemma nle_raise_new {A} cls j :
  cls <> PrologLaunchError -> never_launch_error (@raise_new _ A cls j).
Proof.
  intros Hcls m. unfold raise_new.
  pose proof (new_PrologError_outcome cls j) as E.
  destruct (new_PrologError cls j) as [e|e|]; cbn [raise lift fst].
  - destruct E as [inner ->]. apply quiet_raise. now destruct cls.
  - now apply quiet_raise.
  - apply quiet_running.
Qed.

(** Raising the launch error itself, from a message. *)
Lemma nle_raise_new_message {A} cls message :
  never_launch_error (@raise_new _ A cls (JStr message)).
Proof.
  intros m. unfold raise_new. rewrite new_PrologError_message.
  cbn [raise lift fst]. apply quiet_raise.
  destruct message; [reflexivity|].
  now destruct (str_eqb _ _).
Qed.

Lemma nle_try body :
  never_launch_error body -> never_launch_error (try_except_OSError body).
Proof.
  intros Hb m. unfold try_except_OSError. specialize (Hb m).
  destruct (body m) as [[a|[]|] m']; cbn [fst] in *;
    try exact Hb; apply quiet_return.
Qed.

Lemma nle_with_create_thread {A} enter leave (body : M A) :
  never_launch_error enter -> never_launch_error leave ->
  never_launch_error body ->
  never_launch_error (with_create_thread enter leave body).
Proof.
  intros He Hl Hb m. unfold with_create_thread.
  specialize (He (with_thread PrologThread_init m)).
  destruct (enter _) as [[[]|e|] m1]; cbn [fst] in He |- *;
    [| apply (quiet_retype e He) | apply quiet_running].
  specialize (Hb m1).
  destruct (body m1) as [[a|e|] m2]; cbn [fst] in Hb |- *;
    try apply quiet_running.
  all: specialize (Hl m2);
    destruct (leave m2) as [[[]|e'|] m3]; cbn [fst] in Hl |- *;
      first [ exact Hb | apply quiet_return | apply quiet_running
            | apply (quiet_retype e' Hl) ].
Qed.

Lemma nle_socket_connect a : never_launch_error (socket_connect a).
Proof.
  intros m. unfold socket_connect.
  destruct (_socket (thread m)); [|now apply quiet_raise].
  destruct a as [path|[port|]]; try (now apply quiet_raise);
    destruct (accepts (world m)) as [|[accepted|] rest];
    first [apply quiet_return | now apply quiet_raise].
Qed.

Lemma nle_socket_sendall data : never_launch_error (socket_sendall data).
Proof.
  intros m. unfold socket_sendall.
  destruct (_socket (thread m)) as [s|]; [|now apply quiet_raise].
  destruct (negb (connected s)); [now apply quiet_raise|].
  destruct (send_budget s) as [[|n]|];
    first [apply quiet_return | now apply quiet_raise].
Qed.

Lemma nle_socket_recv n : never_launch_error (socket_recv n).
Proof.
  intros m. unfold socket_recv.
  destruct (_socket (thread m)) as [s|]; [|now apply quiet_raise].
  destruct (negb (connected s)); [now apply quiet_raise|].
  destruct (inbox s) as [|[chunk|] rest];
    try destruct (length chunk <=? n)%nat;
    first [apply quiet_return | now apply quiet_raise].
Qed.

Lemma nle_socket_close : never_launch_error socket_close.
Proof.
  apply nle_bind; [apply nle_emit|]. intros _. apply nle_modify.
Qed.

Lemma nle_popen : never_launch_error popen.
Proof.
  intros m. unfold popen.
  destruct (launches (world m)) as [|[p|] rest];
    first [apply quiet_return | now apply quiet_raise].
Qed.

Lemma nle_readline : never_launch_error readline.
Proof.
  intros m. unfold readline.
  destruct (_process (server m)) as [p|]; [|now apply quiet_raise].
  destruct (stdout p); apply quiet_return.
Qed.
End NeverLaunchError.

Create HintDb quiet discriminated.
#[export] Hint Resolve quiet_return quiet_running quiet_is_prolog_variable
  quiet_is_prolog_atom quiet_prolog_name quiet_prolog_args quiet_item
  quiet_getitem quiet_iterate quiet_len quiet_hashable quiet_json_to_prolog
  quiet_bind_variables quiet_collect_answers quiet_scan_header : quiet.

Create HintDb nle discriminated.
#[export] Hint Resolve nle_ret nle_get nle_modify nle_emit nle_put_socket
  nle_set_communication nle_set_goal nle_mark nle_raise_new_message nle_socket_connect
  nle_socket_sendall nle_socket_recv nle_socket_close nle_popen
  nle_readline : nle.

(** Walks down a pure computation. *)
Ltac quiet :=
  repeat first
    [ progress eauto with quiet nocore
    | apply quiet_bind; [|intros ?]
    | apply quiet_or_raise; reflexivity
    | apply quiet_raise; reflexivity
    | match goal with
      | |- quiet (if ?b then _ else _) => destruct b
      | |- quiet (match ?x with _ => _ end) => destruct x
      end ].

(** Walks down a method. *)
Ltac nle :=
  repeat first
    [ progress eauto with nle nocore
    | apply nle_bind; [|intros ?]
    | apply nle_try
    | apply nle_with_create_thread
    | apply nle_raise_new; discriminate
    | apply nle_lift; quiet
    | match goal with
      | |- never_launch_error (if ?b then _ else _) => destruct b
      | |- never_launch_error (match ?x with _ => _ end) => destruct x
      | |- never_launch_error (let _ := _ in _) => cbv zeta
      end ].

Section NeverLaunchErrorMethods.
Context `{UnicodeData} `{JsonDecoder}.

Lemma nle_send value : never_launch_error (_send value).
Proof. unfold _send. nle. Qed.

Lemma nle_receive_loop fuel received expected acc sizeBytes :
  never_launch_error (receive_loop fuel received expected acc sizeBytes).
Proof.
  revert received expected acc sizeBytes.
  induction fuel as [|fuel IH]; intros received expected acc sizeBytes;
    cbn [receive_loop]; nle.
Qed.

Lemma nle_receive fuel : never_launch_error (_receive fuel).
Proof.
  unfold _receive. apply nle_bind; [apply nle_receive_loop|].
  intros ?. nle.
Qed.

Lemma nle_classify j : never_launch_error (classify_response j).
Proof. unfold classify_response, name_is, arg0_is. nle. Qed.

Lemma nle_return_prolog_response fuel :
  never_launch_error (_return_prolog_response fuel).
Proof.
  unfold _return_prolog_response.
  apply nle_bind; [apply nle_receive|]. intros ?.
  apply nle_bind; [nle|]. intros ?. apply nle_classify.
Qed.

Hint Resolve nle_send nle_receive nle_classify
  nle_return_prolog_response : nle.

Lemma nle_thread_stop fuel : never_launch_error (PrologThread_stop fuel).
Proof. unfold PrologThread_stop. nle. Qed.

Lemma nle_thread_start server_start fuel :
  never_launch_error server_start ->
  never_launch_error (PrologThread_start server_start fuel).
Proof.
  intros Hs. unfold PrologThread_start, process_id, name_is. nle.
Qed.

Hint Resolve nle_thread_stop nle_thread_start : nle.

Lemma nle_query server_start fuel value t :
  never_launch_error server_start ->
  never_launch_error (query server_start fuel value t).
Proof. intros Hs. unfold query, ensure_started. nle. Qed.

Lemma nle_query_async server_start fuel value find_all t :
  never_launch_error server_start ->
  never_launch_error (query_async server_start fuel value find_all t).
Proof. intros Hs. unfold query_async, ensure_started. nle. Qed.

Lemma nle_cancel_query_async fuel :
  never_launch_error (cancel_query_async fuel).
Proof. unfold cancel_query_async. nle. Qed.

Lemma nle_query_async_result fuel t :
  never_launch_error (query_async_result fuel t).
Proof. unfold query_async_result. nle. Qed.

Lemma nle_halt_server fuel : never_launch_error (halt_server fuel).
Proof. unfold halt_server. nle. Qed.

Hint Resolve nle_query nle_halt_server : nle.

Lemma nle_server_start fuel : never_launch_error (PrologServer_start fuel).
Proof.
  induction fuel as [|fuel IH]; cbn [PrologServer_start]; nle.
Qed.

Hint Resolve nle_server_start : nle.

Lemma nle_server_stop fuel kill :
  never_launch_error (PrologServer_stop fuel kill).
Proof. unfold PrologServer_stop. nle. Qed.

Lemma nle_create_thread : never_launch_error create_thread.
Proof. apply nle_modify. Qed.

(** X17: no public operation ever raises [PrologLaunchError], whatever
    the process prints and whatever the server replies.  The library
    raises it in three places, each time from a message, and the
    constructor of [PrologError] asserts that it is given an
    [exception(...)] term: what leaves is the [AssertionError] of that
    assertion, or the [OSError] of a launch that failed. *)
Theorem launch_error_is_never_raised fuel op m :
  match (call fuel op m).1 with
  | Raise e => launch_error e = false
  | _ => True
  end.
Proof.
  assert (never_launch_error (call fuel op)) as Hcall.
  { destruct op; cbn [call]; unfold unit_result;
      auto using nle_query, nle_query_async, nle_cancel_query_async,
        nle_query_async_result, nle_server_start;
      (apply nle_bind; [|intros ?; apply nle_ret]);
      auto using nle_server_start, nle_server_stop, nle_thread_start,
        nle_thread_stop, nle_halt_server, nle_create_thread. }
  specialize (Hcall m).
  destruct (call fuel op m).1 as [v|e|]; [exact I | now apply Hcall | exact I].
Qed.
End NeverLaunchErrorMethods.

(** ** One request, one frame *)

Lemma rstrip_by_drop p s c :
  p c = true -> rstrip_by p (s ++ [c]) = rstrip_by p s.
Proof.
  intros Hc. unfold rstrip_by. rewrite reverse_app, reverse_singleton.
  cbn [app lstrip_by]. now rewrite Hc.
Qed.

(** A request that starts and ends with a character [_send] does not
    strip is sent as it is. *)
Lemma normalized_request first middle final :
  isspace first = false -> isspace final = false ->
  in_chars [LF; DOT] final = false ->
  normalized ((first :: middle ++ [final]) ++ [DOT; LF])
  = first :: middle ++ [final].
Proof.
  intros Hfirst Hfinal Hkeep. unfold normalized, rstrip, strip.
  cbn [app]. rewrite lstrip_by_head by exact Hfirst.
  change (first :: (middle ++ [final]) ++ [DOT; LF])
    with ((first :: middle ++ [final]) ++ [DOT; LF]).
  change [DOT; LF] with ([DOT] ++ [LF]). rewrite app_assoc.
  rewrite rstrip_by_drop by reflexivity.
  rewrite rstrip_by_last by reflexivity.
  rewrite rstrip_by_drop by reflexivity.
  change (first :: middle ++ [final]) with ((first :: middle) ++ [final]).
  now apply rstrip_by_last.
Qed.

Section WritesNothing.
Context `{UnicodeData} `{JsonDecoder}.

Lemma wn_ret {A} (a : A) : writes_nothing (mret a : M A).
Proof. intros m. reflexivity. Qed.

Lemma wn_lift {A} (o : outcome A) : writes_nothing (lift o).
Proof. intros m. reflexivity. Qed.

Lemma wn_bind {A B} (c : M A) (f : A -> M B) :
  writes_nothing c -> (forall a, writes_nothing (f a)) ->
  writes_nothing (c ≫= f).
Proof.
  intros Hc Hf m. unfold mbind, M_bind. specialize (Hc m).
  destruct (c m) as [[a|e|] m']; cbn [snd] in *;
    [now rewrite Hf | exact Hc | exact Hc].
Qed.

Lemma wn_mark : writes_nothing mark_connection_failed.
Proof. intros m. reflexivity. Qed.

Lemma wn_raise_new {A} cls j : writes_nothing (@raise_new _ A cls j).
Proof.
  intros m. unfold raise_new. now destruct (new_PrologError cls j).
Qed.

Lemma wn_socket_recv n : writes_nothing (socket_recv n).
Proof.
  intros m. unfold socket_recv, written.
  destruct (_socket (thread m)) as [s|] eqn:Hs; cbn [snd];
    [|now rewrite Hs].
  destruct (negb (connected s)); cbn [snd]; [now rewrite Hs|].
  destruct (inbox s) as [|[chunk|] rest]; cbn [snd];
    try (now rewrite Hs);
    try destruct (length chunk <=? n)%nat; reflexivity.
Qed.
End WritesNothing.

Create HintDb wn discriminated.
#[export] Hint Resolve wn_ret wn_lift wn_mark wn_raise_new wn_socket_recv
  : wn.

Ltac wn :=
  repeat first
    [ progress eauto with wn nocore
    | apply wn_bind; [|intros ?]
    | match goal with
      | |- writes_nothing (if ?b then _ else _) => destruct b
      | |- writes_nothing (match ?x with _ => _ end) => destruct x
      | |- writes_nothing (let _ := _ in _) => cbv zeta
      end ].

Section OneFrame.
Context `{UnicodeData} `{JsonDecoder}.

Lemma wn_receive_loop fuel received expected acc sizeBytes :
  writes_nothing (receive_loop fuel received expected acc sizeBytes).
Proof.
  revert received expected acc sizeBytes.
  induction fuel as [|fuel IH]; intros received expected acc sizeBytes;
    cbn [receive_loop]; wn.
Qed.

Lemma wn_return_prolog_response fuel :
  writes_nothing (_return_prolog_response fuel).
Proof.
  unfold _return_prolog_response, _receive.
  apply wn_bind; [apply wn_bind; [apply wn_receive_loop | intros ?; wn]|].
  intros ?. apply wn_bind; [wn|]. intros ?.
  unfold classify_response, name_is, arg0_is. wn.
Qed.

(** [_send] of a request that needs no stripping, then a reply. *)
Lemma exchange_writes_one_frame {A} (k : M A) request m s :
  writes_nothing k ->
  normalized (request ++ [DOT; LF]) = request ->
  _socket (thread m) = Some s -> connected s = true -> can_send 2 s ->
  Forall (fun c => is_scalar c = true) request ->
  exists body,
    utf8_encode (request ++ [DOT; LF]) = Some body
    /\ written ((_send (request ++ [DOT; LF]);; k) m).2
       = Some (outbox s ++ [wire_header (length body); body]).
Proof.
  intros Hk Hn Hs Hc Hb Hv.
  assert (Forall (fun c => is_scalar c = true) (request ++ [DOT; LF])) as Hv'
    by (apply Forall_app; split; [exact Hv | now repeat constructor]).
  destruct (proj1 (utf8_encode_scalars _) Hv') as [body Hbody].
  exists body. split; [exact Hbody|].
  unfold mbind, M_bind.
  rewrite (send_run _ m s body Hs Hc Hb) by now rewrite Hn.
  rewrite Hk. unfold written. cbn. now rewrite <- app_assoc.
Qed.

End OneFrame.


(** ** The password exchange *)

Section Handshake.
Context `{UnicodeData} `{JsonDecoder}.

Lemma wn_receive fuel : writes_nothing (_receive fuel).
Proof.
  unfold _receive. apply wn_bind; [apply wn_receive_loop | intros ?; wn].
Qed.

End Handshake.


(** ** Stopping, on sample states *)

Lemma thread_stop_failed_witness :
  exists m',
    @PrologThread_stop ascii_only sample_decoder 5 failed_session
    = (Return tt, m')
    /\ _socket (thread m') = None
    /\ log (world m') = log (world failed_session) ++ [Close].
Proof.
  apply (@thread_stop_failed ascii_only sample_decoder 5 failed_session
           {| connected := true; inbox := []; outbox := [];
              send_budget := None |});
    reflexivity.
Defined.

Lemma thread_stop_swallows_OSError_witness :
  exists m',
    @PrologThread_stop ascii_only sample_decoder 5 (session [] (Some 0%nat))
    = (Return tt, m')
    /\ _socket (thread m') = None
    /\ log (world m') = log (world (session [] (Some 0%nat))) ++ [Close].
Proof.
  apply (@thread_stop_swallows_OSError ascii_only sample_decoder 5
           (session [] (Some 0%nat))
           {| connected := true; inbox := []; outbox := [];
              send_budget := Some 0%nat |});
    [reflexivity | reflexivity | right; reflexivity].
Defined.

Lemma server_stop_kills_witness :
  exists m',
    @PrologServer_stop ascii_only sample_decoder 5 false (launched_server true)
    = (Return tt, m')
    /\ _process (server m') = None
    /\ log (world m') = [Kill; Wait].
Proof.
  apply (@server_stop_kills ascii_only sample_decoder 5 false
           (launched_server true) {| pid := 77; stdout := [] |});
    reflexivity.
Defined.
